(** * Project Rail Tabs: the classification and context engine

    A shallow embedding of the tab classifier: the tokenizer and centroid
    model ([utils/tokens.ts]), the URL helpers ([utils/url.ts]), the
    matcher ([classifier/matcher.ts]), the context tracker
    ([classifier/context.ts]), the store ([storage/db.ts]), the assignment
    orchestrator ([core.ts]) and the event handlers of the service worker
    ([sw.ts]).

    Conventions of the embedding.
    - A JavaScript [number] that carries a score or a weight is a real
      number ([R]) in the matcher, the tracker and the orchestrator: what
      is stated there is stated of the values as they are computed and
      compared, and does not turn on how a sum rounds.  Where rounding
      decides, the functions of [utils/tokens.ts] and the total of the
      scorer are given with the numbers of the program, IEEE doubles, in
      [Binary64].
    - Timestamps and durations are integral milliseconds ([Z]), as
      [Date.now()] produces them.
    - [Date.now()] is an explicit argument [now] of every function that
      reads the clock; the readings taken inside one synchronous call are
      identified.
    - A [Map<string, number>] is a [gmap string R], a [Set<string>] a
      [gset string]; an optional field is an [option].  In [Binary64],
      where the order of a sum matters, a [Map] is the list of its entries
      in insertion order.
    - The store ([storage/db.ts]) is a pair of IndexedDB object stores;
      its requests are taken to succeed.
    - Strings are sequences of 8-bit code units with ASCII case mapping. *)

From Stdlib Require Import Reals Lra ZArith Lia String Ascii List Bool.
From Stdlib Require PrimFloat Uint63.
From Stdlib Require Import Sorting.Sorted Sorting.Permutation.
From stdpp Require Import base gmap list strings pretty fin_maps.

#[global] Instance Rlt_decision : RelDecision Rlt := Rlt_dec.
#[global] Instance Rle_decision : RelDecision Rle := Rle_dec.
#[global] Instance Rgt_decision : RelDecision Rgt := Rgt_dec.
#[global] Instance Rge_decision : RelDecision Rge := Rge_dec.
#[global] Instance Req_decision : EqDecision R := Req_dec_T.

(** ** JavaScript built-ins used by the sources *)

Module JS.

(** [s.split(sep)] for a one-character separator: every field is kept,
    the empty ones too. *)
Fixpoint split_from (sep : ascii) (s cur : string) : list string :=
  match s with
  | EmptyString => [cur]
  | String c s' =>
      if Ascii.eqb c sep then cur :: split_from sep s' EmptyString
      else split_from sep s' (cur ++ String c EmptyString)
  end.

Definition split (sep : ascii) (s : string) : list string :=
  split_from sep s EmptyString.

(** [s.split(/[...]+/)]: a maximal run of separator characters separates
    two fields. *)
Fixpoint split_runs_from (isSep : ascii -> bool) (s cur : string)
    (inSep : bool) : list string :=
  match s with
  | EmptyString => [cur]
  | String c s' =>
      if isSep c then
        if inSep then split_runs_from isSep s' EmptyString true
        else cur :: split_runs_from isSep s' EmptyString true
      else split_runs_from isSep s' (cur ++ String c EmptyString) false
  end.

Definition split_runs (isSep : ascii -> bool) (s : string) : list string :=
  split_runs_from isSep s EmptyString false.

(** [xs.join(sep)] *)
Definition join (sep : string) (xs : list string) : string :=
  String.concat sep xs.

(** [s.startsWith(p)] *)
Definition startsWith (s p : string) : bool := String.prefix p s.

(** [xs.slice(-n)] *)
Definition slice_last {A} (n : nat) (xs : list A) : list A :=
  drop (length xs - n) xs.

(** [xs.find(f)] *)
Definition find {A} (f : A -> bool) (xs : list A) : option A :=
  List.find f xs.

(** [String.prototype.toLowerCase] on ASCII letters. *)
Definition lower_char (c : ascii) : ascii :=
  let n := nat_of_ascii c in
  if (65 <=? n)%nat && (n <=? 90)%nat then ascii_of_nat (n + 32) else c.

Fixpoint map_chars (f : ascii -> ascii) (s : string) : string :=
  match s with
  | EmptyString => EmptyString
  | String c s' => String (f c) (map_chars f s')
  end.

Definition toLowerCase (s : string) : string := map_chars lower_char s.

(** The regular-expression classes [\w] and [\s]. *)
Definition is_word (c : ascii) : bool :=
  let n := nat_of_ascii c in
  ((48 <=? n)%nat && (n <=? 57)%nat) || ((65 <=? n)%nat && (n <=? 90)%nat)
  || ((97 <=? n)%nat && (n <=? 122)%nat) || (n =? 95)%nat.

Definition is_space (c : ascii) : bool :=
  let n := nat_of_ascii c in
  ((9 <=? n)%nat && (n <=? 13)%nat) || (n =? 32)%nat || (n =? 160)%nat.

(** [xs.sort(cmp)]: the sort of the language is stable, so with a
    consistent comparator its result is the stable insertion sort.
    [neg a b] tells whether [cmp(a, b) < 0], that is whether [a] has to
    come before [b]. *)
Section Sort.
Context {A : Type} (neg : A -> A -> bool).

Fixpoint insert (x : A) (l : list A) : list A :=
  match l with
  | [] => [x]
  | y :: l' => if neg y x then y :: insert x l' else x :: y :: l'
  end.

Fixpoint sort (l : list A) : list A :=
  match l with
  | [] => []
  | x :: l' => insert x (sort l')
  end.
End Sort.

End JS.

(** ** Data model ([types.ts]) *)

Inductive RuleType :=
  | RDomain | RHost | RPathPrefix | RKeywordInclude | RKeywordExclude.

#[global] Instance RuleType_eq_dec : EqDecision RuleType.
Proof. solve_decision. Defined.

Record TokenCentroid := {
  tokens : gmap string R;
  totalWeight : R;
}.

Record ProjectRule := {
  r_type : RuleType;
  r_value : string;
  r_weight : R;
}.

Record SubprojectSignature := {
  sig_host : string;
  sig_pathPrefix : string;
  sig_tokenCentroid : TokenCentroid;
}.

Record Subproject := {
  sp_subprojectId : string;
  sp_name : string;
  sp_signature : SubprojectSignature;
  sp_rules : list ProjectRule;
  sp_createdAt : Z;
  sp_lastActiveAt : Z;
}.

Record Project := {
  p_projectId : string;
  p_name : string;
  p_color : string;
  p_pinned : bool;
  p_createdAt : Z;
  p_lastActiveAt : Z;
  p_activeScore : Z;
  p_centroid : TokenCentroid;
  p_rules : list ProjectRule;
  p_subprojects : list Subproject;
  p_locked : option bool;
}.

Record PageSignals := {
  ps_h1 : option string;
  ps_metaDescription : option string;
  ps_ogTitle : option string;
  ps_extractedAt : Z;
}.

Record TabMeta := {
  t_tabId : Z;
  t_windowId : Z;
  t_url : string;
  t_title : string;
  t_host : string;
  t_pathTokens : list string;
  t_queryKeys : list string;
  t_pageSignals : option PageSignals;
  t_createdAt : Z;
  t_lastActiveAt : Z;
  t_activeScore : Z;
  t_projectId : option string;
  t_subprojectId : option string;
  t_featuresHash : string;
  t_embeddingId : option string;
  t_openerTabId : option Z;
  t_manuallyAssigned : option bool;
}.

Record RecentTabActivity := {
  rt_tabId : Z;
  rt_projectId : option string;
  rt_subprojectId : option string;
  rt_lastActiveAt : Z;
  rt_dwellTime : Z;
  rt_weight : R;
}.

Record ActiveContext := {
  ctx_windowId : Z;
  ctx_activeProjectId : option string;
  ctx_activeSubprojectId : option string;
  ctx_recentTabs : list RecentTabActivity;
  ctx_computedAt : Z;
}.

Inductive Method :=
  | MDeterministic | MSemantic | MContext | MManual | MDefault.

Record TabAssignment := {
  ta_tabId : Z;
  ta_projectId : string;
  ta_subprojectId : option string;
  ta_confidence : R;
  ta_method : Method;
}.

Record Breakdown := {
  hostMatch : R;
  pathMatch : R;
  tokenSimilarity : R;
  chainProximity : R;
  recencyBoost : R;
}.

Record ScoringResult := {
  sr_projectId : string;
  sr_subprojectId : option string;
  score : R;
  breakdown : Breakdown;
}.

(** ** Tokenizer and centroid model ([utils/tokens.ts]) *)

Module Tokens.
Local Open Scope string_scope.

Definition STOP_WORDS : list string :=
  [ "the"; "a"; "an"; "and"; "or"; "but"; "in"; "on"; "at"; "to"; "for";
    "of"; "with"; "by"; "from"; "as"; "is"; "was"; "are"; "been"; "be";
    "have"; "has"; "had"; "do"; "does"; "did"; "will"; "would"; "should";
    "can"; "could"; "may"; "might"; "must"; "that"; "this"; "these"; "those" ].

Definition is_stop_word (token : string) : bool :=
  existsb (String.eqb token) STOP_WORDS.

Definition extractTokens (text : string) : list string :=
  let lowered := JS.toLowerCase text in
  let replaced :=
    JS.map_chars
      (fun c => if JS.is_word c || JS.is_space c || Ascii.eqb c "-"%char
                then c else " "%char)
      lowered in
  let fields :=
    JS.split_runs (fun c => JS.is_space c || Ascii.eqb c "-"%char) replaced in
  List.filter
    (fun token => (2 <? String.length token)%nat && negb (is_stop_word token))
    fields.

Record TokenizeInput := {
  in_url : option string;
  in_title : option string;
  in_h1 : option string;
  in_meta : option string;
  in_host : option string;
  in_pathTokens : option (list string);
}.

(** [if (s) ...] on an optional string: absent and empty are both falsy. *)
Definition truthy (s : option string) : option string :=
  match s with
  | Some EmptyString | None => None
  | Some s => Some s
  end.

Definition tokenize (input : TokenizeInput) : list string :=
  let tokens : list string := [] in
  let tokens :=
    match truthy (in_host input) with
    | Some host =>
        (tokens ++ List.filter (fun t => (2 <? String.length t)%nat)
                               (JS.split "."%char host))%list
    | None => tokens
    end in
  let tokens :=
    match in_pathTokens input with
    | Some pathTokens => (tokens ++ flat_map extractTokens pathTokens)%list
    | None => tokens
    end in
  let tokens :=
    match truthy (in_title input) with
    | Some title => (tokens ++ extractTokens title)%list
    | None => tokens
    end in
  let tokens :=
    match truthy (in_h1 input) with
    | Some h1 => (tokens ++ extractTokens h1)%list
    | None => tokens
    end in
  let tokens :=
    match truthy (in_meta input) with
    | Some meta => (tokens ++ extractTokens meta)%list
    | None => tokens
    end in
  tokens.

Local Open Scope R_scope.

(** [m.get(token) || 0] *)
Definition get_or_0 (m : gmap string R) (token : string) : R :=
  default 0 (m !! token).

(** One step of the [forEach] loops that accumulate token weights. *)
Definition bump (weight : R) (m : gmap string R) (token : string)
    : gmap string R :=
  <[token := get_or_0 m token + weight]> m.

Definition createCentroid (tokenArrays : list (list string))
    (weights : option (list R)) : TokenCentroid :=
  let step (acc : gmap string R * R * nat) (tokens : list string) :=
    let '(tokenCounts, totalWeight, idx) := acc in
    let weight := default 1 (weights ≫= (fun ws => ws !! idx)) in
    let '(tokenCounts', totalWeight') :=
      foldl (fun '(tc, tw) token => (bump weight tc token, tw + weight))
            (tokenCounts, totalWeight) tokens in
    (tokenCounts', totalWeight', S idx) in
  let '(tokenCounts, totalWeight, _) := foldl step (∅, 0, 0%nat) tokenArrays in
  {| tokens := tokenCounts; totalWeight := totalWeight |}.

Definition updateCentroid (centroid : TokenCentroid) (tokens_ : list string)
    (weight : R) : TokenCentroid :=
  let newTokens := foldl (bump weight) (tokens centroid) tokens_ in
  {| tokens := newTokens;
     totalWeight := totalWeight centroid + weight * INR (length tokens_) |}.

Definition cosineSimilarity (centroid : TokenCentroid) (tokens_ : list string)
    : R :=
  if decide (size (tokens centroid) = 0%nat ∨ length tokens_ = 0%nat) then 0
  else
    let tokenSet : gset string := list_to_set tokens_ in
    let '(dotProduct, centroidMag) :=
      map_fold
        (fun token weight '(dotProduct, centroidMag) =>
           (if decide (token ∈ tokenSet) then dotProduct + weight
            else dotProduct,
            centroidMag + weight * weight))
        (0, 0) (tokens centroid) in
    let tokenMag := sqrt (INR (length tokens_)) in
    let centroidMag := sqrt centroidMag in
    if decide (centroidMag = 0 ∨ tokenMag = 0) then 0
    else dotProduct / (centroidMag * tokenMag).

Definition jaccardSimilarity (centroid : TokenCentroid) (tokens_ : list string)
    : R :=
  if decide (size (tokens centroid) = 0%nat ∨ length tokens_ = 0%nat) then 0
  else
    let tokenSet : gset string := list_to_set tokens_ in
    let intersection : nat :=
      map_fold
        (fun token _ intersection =>
           if decide (token ∈ tokenSet) then S intersection
           else intersection)
        0%nat (tokens centroid) in
    let union :=
      INR (size (tokens centroid)) + INR (size tokenSet) - INR intersection in
    if decide (union = 0) then 0 else INR intersection / union.

Definition weightedTokenSimilarity (centroid : TokenCentroid)
    (tokens_ : list string) : R :=
  let cosine := cosineSimilarity centroid tokens_ in
  let jaccard := jaccardSimilarity centroid tokens_ in
  0.6 * cosine + 0.4 * jaccard.

(** [tokens.sort().join('|')]: without a comparator [sort] orders the
    strings code unit by code unit.  The sort is in place, so the array of
    the caller is left sorted. *)
Definition hashTokens (tokens_ : list string) : string :=
  JS.join "|" (JS.sort String.ltb tokens_).

End Tokens.


(** ** The centroid model in binary64 ([utils/tokens.ts]) *)

(** The functions of [utils/tokens.ts] that compute with weights, and the
    total of [scoreTabForProject], on IEEE doubles: every operation rounds
    as the program's does, and the sums over a [Map] run in insertion
    order. *)
Module Binary64.
Import PrimFloat.
#[local] Set Warnings "-inexact-float".
Local Open Scope float_scope.

(** The length of an array or the size of a collection as a number. *)
Definition ofNat (n : nat) : float := of_uint63 (Uint63.of_Z (Z.of_nat n)).

(** A [Map<string, number>]: its entries in insertion order.  The maps
    of the program are the lists that [Map_set] builds from the empty
    one; they hold one entry per key. *)
Definition Map : Type := list (string * float).

Definition Map_get (m : Map) (key : string) : option float :=
  snd <$> List.find (fun entry => String.eqb (fst entry) key) m.

(** [m.set(key, value)]: an entry that exists keeps its place. *)
Fixpoint Map_set (m : Map) (key : string) (value : float) : Map :=
  match m with
  | [] => [(key, value)]
  | (key', value') :: m' =>
      if String.eqb key' key then (key', value) :: m'
      else (key', value') :: Map_set m' key value
  end.

(** [x || 0]: an absent entry, [0], [-0] and [NaN] are falsy. *)
Definition or0 (x : option float) : float :=
  match x with
  | Some x => if is_zero x || is_nan x then 0 else x
  | None => 0
  end.

Record TokenCentroid := {
  tokens : Map;
  totalWeight : float;
}.

(** One step of the [forEach] loops that accumulate token weights. *)
Definition bump (weight : float) (m : Map) (token : string) : Map :=
  Map_set m token (or0 (Map_get m token) + weight).

Definition createCentroid (tokenArrays : list (list string))
    (weights : option (list float)) : TokenCentroid :=
  let step (acc : Map * float * nat) (tokens : list string) :=
    let '(tokenCounts, totalWeight, idx) := acc in
    let weight := default 1 (weights ≫= (fun ws => ws !! idx)) in
    let '(tokenCounts', totalWeight') :=
      foldl (fun '(tc, tw) token => (bump weight tc token, tw + weight))
            (tokenCounts, totalWeight) tokens in
    (tokenCounts', totalWeight', S idx) in
  let '(tokenCounts, totalWeight, _) := foldl step ([], 0, 0%nat) tokenArrays in
  {| tokens := tokenCounts; totalWeight := totalWeight |}.

Definition updateCentroid (centroid : TokenCentroid) (tokens_ : list string)
    (weight : float) : TokenCentroid :=
  let newTokens := foldl (bump weight) (tokens centroid) tokens_ in
  {| tokens := newTokens;
     totalWeight := totalWeight centroid + weight * ofNat (length tokens_) |}.

(** [new Set(tokens).has(token)] *)
Definition has (tokens_ : list string) (token : string) : bool :=
  existsb (String.eqb token) tokens_.

Definition cosineSimilarity (centroid : TokenCentroid) (tokens_ : list string)
    : float :=
  if (length (tokens centroid) =? 0)%nat || (length tokens_ =? 0)%nat then 0
  else
    let '(dotProduct, centroidMag) :=
      foldl
        (fun '(dotProduct, centroidMag) '(token, weight) =>
           let centroidMag := centroidMag + weight * weight in
           let dotProduct :=
             if has tokens_ token then dotProduct + weight else dotProduct in
           (dotProduct, centroidMag))
        (0, 0) (tokens centroid) in
    let tokenMag := sqrt (ofNat (length tokens_)) in
    let centroidMag := sqrt centroidMag in
    if eqb centroidMag 0 || eqb tokenMag 0 then 0
    else dotProduct / (centroidMag * tokenMag).

Definition jaccardSimilarity (centroid : TokenCentroid) (tokens_ : list string)
    : float :=
  if (length (tokens centroid) =? 0)%nat || (length tokens_ =? 0)%nat then 0
  else
    let intersection : nat :=
      foldl
        (fun intersection '(token, _) =>
           if has tokens_ token then S intersection else intersection)
        0%nat (tokens centroid) in
    let union : nat :=
      (length (tokens centroid) + length (remove_dups tokens_)
       - intersection)%nat in
    if (union =? 0)%nat then 0 else ofNat intersection / ofNat union.

Definition weightedTokenSimilarity (centroid : TokenCentroid)
    (tokens_ : list string) : float :=
  let cosine := cosineSimilarity centroid tokens_ in
  let jaccard := jaccardSimilarity centroid tokens_ in
  0.6 * cosine + 0.4 * jaccard.

Record Breakdown := {
  hostMatch : float;
  pathMatch : float;
  tokenSimilarity : float;
  chainProximity : float;
  recencyBoost : float;
}.

(** The [score] of [scoreTabForProject] under the default configuration,
    from the five sub-scores. *)
Definition score (breakdown : Breakdown) : float :=
  3.0 * hostMatch breakdown
  + 2.0 * pathMatch breakdown
  + 1.5 * tokenSimilarity breakdown
  + 2.0 * chainProximity breakdown
  + 1.0 * recencyBoost breakdown.

End Binary64.

(** ** URL helpers ([utils/url.ts]) *)

Module Url.
Local Open Scope string_scope.

Definition getPathPrefix (pathTokens : list string) (depth : nat) : string :=
  JS.join "/" (take depth pathTokens).

Definition createSubprojectKey (host : string) (pathTokens : list string)
    (depth : nat) : string :=
  let prefix := getPathPrefix pathTokens depth in
  host ++ ":" ++ prefix.

(** What the platform's [new URL(url)] exposes to [parseUrl]. *)
Record UrlParts := {
  hostname : string;
  pathname : string;
  searchKeys : list string;
}.

Record ParsedUrl := {
  pu_host : string;
  pu_pathTokens : list string;
  pu_queryKeys : list string;
}.

Section Platform.
(** The two platform functions that [parseUrl] calls: [new URL(url)] and
    [decodeURIComponent]; each returns [None] where the platform throws. *)
Variable newURL : string -> option UrlParts.
Variable decodeURIComponent : string -> option string.

Definition parseUrl (url : string) : option ParsedUrl :=
  match newURL url with
  | Some parsed =>
      let host := hostname parsed in
      let segments :=
        List.filter (fun s => negb (String.eqb s ""))
                    (JS.split "/"%char (pathname parsed)) in
      match mapM (fun token => JS.toLowerCase <$> decodeURIComponent token)
                 segments with
      | Some pathTokens =>
          let queryKeys := searchKeys parsed in
          Some {| pu_host := host;
                  pu_pathTokens := pathTokens;
                  pu_queryKeys := queryKeys |}
      | None => None
      end
  | None => None
  end.
End Platform.

Definition extractDomain (host : string) : string :=
  let parts := JS.split "."%char host in
  if (length parts <=? 2)%nat then host
  else JS.join "." (JS.slice_last 2 parts).

End Url.

(** ** Hybrid classifier ([classifier/matcher.ts]) *)

Record MatcherConfig := {
  hostMatchWeight : R;
  pathMatchWeight : R;
  chainWeight : R;
  tokenWeight : R;
  recencyWeight : R;
  minThreshold : R;
}.

Definition DEFAULT_MATCHER_CONFIG : MatcherConfig := {|
  hostMatchWeight := 3.0;
  pathMatchWeight := 2.0;
  chainWeight := 2.0;
  tokenWeight := 1.5;
  recencyWeight := 1.0;
  minThreshold := 0.3;
|}.

Module TabMatcher.
Local Open Scope string_scope.
Local Open Scope R_scope.

(** [tab.host.split('.').slice(-2).join('.')] *)
Definition tabDomain (tab : TabMeta) : string :=
  JS.join "." (JS.slice_last 2 (JS.split "."%char (t_host tab))).

(** The first loop of [scoreHostMatch]: the first rule that matches
    decides. *)
Fixpoint scoreHostMatch_rules (tab : TabMeta) (rules : list ProjectRule)
    : option R :=
  match rules with
  | [] => None
  | rule :: rest =>
      if bool_decide (r_type rule = RHost)
         && String.eqb (t_host tab) (r_value rule)
      then Some 1.0
      else if bool_decide (r_type rule = RDomain)
              && String.eqb (tabDomain tab) (r_value rule)
      then Some 0.8
      else scoreHostMatch_rules tab rest
  end.

Fixpoint scoreHostMatch_subprojects (tab : TabMeta)
    (subprojects : list Subproject) : R :=
  match subprojects with
  | [] => 0
  | subproject :: rest =>
      if String.eqb (sig_host (sp_signature subproject)) (t_host tab)
      then 0.9
      else scoreHostMatch_subprojects tab rest
  end.

Definition scoreHostMatch (tab : TabMeta) (project : Project) : R :=
  match scoreHostMatch_rules tab (p_rules project) with
  | Some s => s
  | None => scoreHostMatch_subprojects tab (p_subprojects project)
  end.

(** [Math.min(1.0, prefix.split('/').length * 0.25)] *)
Definition depthScore (prefix : string) : R :=
  let depth := length (JS.split "/"%char prefix) in
  Rmin 1.0 (INR depth * 0.25).

Definition scorePathMatch (tab : TabMeta) (project : Project) : R :=
  let maxScore := 0 in
  let maxScore :=
    foldl
      (fun maxScore rule =>
         if bool_decide (r_type rule = RPathPrefix) then
           let tabPath := JS.join "/" (t_pathTokens tab) in
           if JS.startsWith tabPath (r_value rule)
           then Rmax maxScore (depthScore (r_value rule))
           else maxScore
         else maxScore)
      maxScore (p_rules project) in
  let maxScore :=
    foldl
      (fun maxScore subproject =>
         let pathPrefix := sig_pathPrefix (sp_signature subproject) in
         let tabPath := JS.join "/" (t_pathTokens tab) in
         if JS.startsWith tabPath pathPrefix
         then Rmax maxScore (depthScore pathPrefix)
         else maxScore)
      maxScore (p_subprojects project) in
  maxScore.

Definition scoreTokenSimilarity (tab : TabMeta) (project : Project) : R :=
  let tabTokens :=
    Tokens.tokenize
      {| Tokens.in_url := None;
         Tokens.in_host := Some (t_host tab);
         Tokens.in_pathTokens := Some (t_pathTokens tab);
         Tokens.in_title := Some (t_title tab);
         Tokens.in_h1 := t_pageSignals tab ≫= ps_h1;
         Tokens.in_meta := t_pageSignals tab ≫= ps_metaDescription |} in
  Tokens.weightedTokenSimilarity (p_centroid project) tabTokens.

Definition scoreChainProximity (tab : TabMeta) (project : Project)
    (context : option ActiveContext) : R :=
  match context with
  | None => 0
  | Some context =>
      if bool_decide (ctx_activeProjectId context = Some (p_projectId project))
      then 1.0
      else
        let recentProjectActivity :=
          JS.find
            (fun rt =>
               bool_decide (rt_projectId rt = Some (p_projectId project)))
            (ctx_recentTabs context) in
        match recentProjectActivity with
        | Some recentProjectActivity =>
            rt_weight recentProjectActivity * 0.8
        | None => 0
        end
  end.

Definition scoreRecencyBoost (now : Z) (project : Project)
    (context : option ActiveContext) : R :=
  match context with
  | None => 0
  | Some context =>
      if bool_decide (ctx_activeProjectId context = Some (p_projectId project))
      then 1.0
      else
        let timeSinceActive := (now - p_lastActiveAt project)%Z in
        let minutes := IZR timeSinceActive / (1000 * 60) in
        if bool_decide (minutes < 5) then 0.9
        else if bool_decide (minutes < 15) then 0.6
        else if bool_decide (minutes < 30) then 0.3
        else 0
  end.

Definition findBestSubproject (tab : TabMeta) (project : Project)
    : option Subproject :=
  match p_subprojects project with
  | [] => None
  | first :: _ =>
      let subprojectKey :=
        Url.createSubprojectKey (t_host tab) (t_pathTokens tab) 2 in
      let exactMatch :=
        JS.find
          (fun sp =>
             String.eqb
               (sig_host (sp_signature sp) ++ ":"
                ++ sig_pathPrefix (sp_signature sp))
               subprojectKey)
          (p_subprojects project) in
      match exactMatch with
      | Some exactMatch => Some exactMatch
      | None =>
          let tabTokens :=
            Tokens.tokenize
              {| Tokens.in_url := None;
                 Tokens.in_host := Some (t_host tab);
                 Tokens.in_pathTokens := Some (t_pathTokens tab);
                 Tokens.in_title := Some (t_title tab);
                 Tokens.in_h1 := None;
                 Tokens.in_meta := None |} in
          let '(bestSubproject, bestScore) :=
            foldl
              (fun '(bestSubproject, bestScore) subproject =>
                 let score := 0 in
                 let score :=
                   if String.eqb (sig_host (sp_signature subproject))
                                 (t_host tab)
                   then score + 0.5 else score in
                 let pathPrefix := sig_pathPrefix (sp_signature subproject) in
                 let tabPath := JS.join "/" (t_pathTokens tab) in
                 let score :=
                   if JS.startsWith tabPath pathPrefix
                   then score + 0.3 else score in
                 let score :=
                   score
                   + Tokens.weightedTokenSimilarity
                       (sig_tokenCentroid (sp_signature subproject)) tabTokens
                     * 0.2 in
                 if bool_decide (score > bestScore)
                 then (subproject, score)
                 else (bestSubproject, bestScore))
              (first, -1) (p_subprojects project) in
          if bool_decide (bestScore > 0.3) then Some bestSubproject else None
      end
  end.

Section WithConfig.
Variable config : MatcherConfig.

Definition scoreTabForProject (now : Z) (tab : TabMeta) (project : Project)
    (context : option ActiveContext) : ScoringResult :=
  let breakdown := {|
    hostMatch := scoreHostMatch tab project;
    pathMatch := scorePathMatch tab project;
    tokenSimilarity := scoreTokenSimilarity tab project;
    chainProximity := scoreChainProximity tab project context;
    recencyBoost := scoreRecencyBoost now project context;
  |} in
  let score :=
    hostMatchWeight config * hostMatch breakdown +
    pathMatchWeight config * pathMatch breakdown +
    tokenWeight config * tokenSimilarity breakdown +
    chainWeight config * chainProximity breakdown +
    recencyWeight config * recencyBoost breakdown in
  let bestSubproject := findBestSubproject tab project in
  {| sr_projectId := p_projectId project;
     sr_subprojectId := sp_subprojectId <$> bestSubproject;
     score := score;
     breakdown := breakdown |}.

(** The comparator [(a, b) => b.score - a.score]: is it negative? *)
Definition byScoreDesc (a b : ScoringResult) : bool :=
  bool_decide (score b - score a < 0).

Definition scoreAllProjects (now : Z) (tab : TabMeta)
    (projects : list Project) (context : option ActiveContext)
    : list ScoringResult :=
  let results :=
    JS.sort byScoreDesc
      (List.filter
         (fun result => bool_decide (score result >= minThreshold config))
         (List.map (fun project => scoreTabForProject now tab project context)
                   projects)) in
  results.

Definition byLastActiveDesc (a b : Project) : bool :=
  (p_lastActiveAt b - p_lastActiveAt a <? 0)%Z.

Definition narrowCandidates (now : Z) (tab : TabMeta)
    (projects : list Project) : list Project :=
  let sameHostProjects :=
    List.filter
      (fun p =>
         existsb
           (fun sp => String.eqb (sig_host (sp_signature sp)) (t_host tab))
           (p_subprojects p)
         || existsb
              (fun r => bool_decide (r_type r = RHost)
                        && String.eqb (r_value r) (t_host tab))
              (p_rules p))
      projects in
  if (0 <? length sameHostProjects)%nat then sameHostProjects
  else
    let sameDomainProjects :=
      List.filter
        (fun p =>
           let tabDomain := tabDomain tab in
           existsb
             (fun r => bool_decide (r_type r = RDomain)
                       && String.eqb (r_value r) tabDomain)
             (p_rules p))
        projects in
    if (0 <? length sameDomainProjects)%nat then sameDomainProjects
    else
      let recentProjects :=
        take 15
          (JS.sort byLastActiveDesc
             (List.filter
                (fun p => (now - p_lastActiveAt p <? 30 * 60 * 1000)%Z)
                projects)) in
      if (0 <? length recentProjects)%nat then recentProjects
      else take 20 projects.

Definition getBestMatch (now : Z) (tab : TabMeta) (projects : list Project)
    (context : option ActiveContext) : option ScoringResult :=
  let candidateProjects := narrowCandidates now tab projects in
  let results := scoreAllProjects now tab candidateProjects context in
  head results.

End WithConfig.

End TabMatcher.

(** ** IndexedDB object stores *)

(** An object store with a key path holds at most one record per key;
    [get], [put] and [delete] go by the key that the key path reads off
    the record, and [getAll], on the store or on one of its indexes, hands
    the records out in ascending order of that key.  The store is the
    list of its records in that order. *)
Module IDB.

(** The order of the keys: numbers by value, strings by code unit. *)
Class KeyOrder {K : Type} (ltb : K -> K -> bool) := {
  ltb_irrefl : forall a, ltb a a = false;
  ltb_trans : forall a b c, ltb a b = true -> ltb b c = true -> ltb a c = true;
  ltb_connex : forall a b, ltb a b = false -> ltb b a = false -> a = b;
}.
Arguments ltb_irrefl {K} ltb {_} a.
Arguments ltb_trans {K} ltb {_} a b c.
Arguments ltb_connex {K} ltb {_} a b.

Section ObjectStore.
Context {K V : Type} (keyPath : V -> K) (ltb : K -> K -> bool).

Definition sameKey (a b : K) : bool := negb (ltb a b) && negb (ltb b a).

Fixpoint ascending (l : list V) : bool :=
  match l with
  | [] => true
  | x :: l' =>
      match l' with
      | [] => true
      | y :: _ => ltb (keyPath x) (keyPath y)
      end && ascending l'
  end.

Record ObjectStore := {
  records : list V;
  records_ascending : Is_true (ascending records);
}.

Fixpoint put_records (x : V) (l : list V) : list V :=
  match l with
  | [] => [x]
  | y :: l' =>
      if ltb (keyPath x) (keyPath y) then x :: y :: l'
      else if ltb (keyPath y) (keyPath x) then y :: put_records x l'
      else x :: l'
  end.

Definition delete_records (k : K) (l : list V) : list V :=
  List.filter (fun v => negb (sameKey (keyPath v) k)) l.

Definition get_records (k : K) (l : list V) : option V :=
  List.find (fun v => sameKey (keyPath v) k) l.

Context `{!KeyOrder ltb}.

Lemma sameKey_eq a b : sameKey a b = true <-> a = b.
Proof.
  unfold sameKey. split.
  - intros [Hab Hba]%andb_true_iff.
    apply (ltb_connex ltb); by apply negb_true_iff.
  - intros ->. by rewrite (ltb_irrefl ltb).
Qed.

Lemma sameKey_neq a b : sameKey a b = false <-> a <> b.
Proof.
  rewrite <- sameKey_eq. destruct (sameKey a b); split; (done || congruence).
Qed.

Lemma ltb_asymm a b : ltb a b = true -> ltb b a = false.
Proof.
  intros Hab. destruct (ltb b a) eqn:Hba; [|reflexivity].
  by rewrite <- (ltb_irrefl ltb a), (ltb_trans ltb a b a Hab Hba).
Qed.

Lemma ascending_cons x l :
  ascending (x :: l) = true
  <-> Forall (fun y => ltb (keyPath x) (keyPath y) = true) l
      /\ ascending l = true.
Proof.
  revert x. induction l as [|y l IH]; intros x.
  - cbn. split; [by split|done].
  - change (ascending (x :: y :: l))
      with (ltb (keyPath x) (keyPath y) && ascending (y :: l)).
    rewrite andb_true_iff, Forall_cons. split.
    + intros [Hxy Hasc]. repeat split; [exact Hxy| |exact Hasc].
      apply IH in Hasc as [Hy _]. eapply Forall_impl; [exact Hy|].
      intros z Hyz. by apply (ltb_trans ltb _ _ _ Hxy).
    + intros [[Hxy _] Hasc]. by split.
Qed.

Lemma put_records_ascending x l :
  ascending l = true -> ascending (put_records x l) = true.
Proof.
  induction l as [|y l IH]; [done|]. intros Hasc.
  pose proof Hasc as [Hy Hl]%ascending_cons. cbn [put_records].
  destruct (ltb (keyPath x) (keyPath y)) eqn:Hxy.
  - apply ascending_cons. split; [|exact Hasc].
    constructor; [exact Hxy|]. eapply Forall_impl; [exact Hy|].
    intros z Hyz. by apply (ltb_trans ltb _ _ _ Hxy).
  - destruct (ltb (keyPath y) (keyPath x)) eqn:Hyx.
    + apply ascending_cons. split; [|by apply IH].
      clear IH Hasc Hl. induction l as [|z l IHl]; cbn [put_records].
      * by constructor.
      * apply Forall_cons in Hy as [Hyz Hy].
        destruct (ltb (keyPath x) (keyPath z)); [by repeat constructor|].
        destruct (ltb (keyPath z) (keyPath x));
          constructor; (done || by apply IHl).
    + apply ascending_cons. split; [|exact Hl].
      by rewrite (ltb_connex ltb _ _ Hxy Hyx).
Qed.

Lemma filter_ascending (f : V -> bool) l :
  ascending l = true -> ascending (List.filter f l) = true.
Proof.
  induction l as [|y l IH]; [done|]. intros [Hy Hl]%ascending_cons.
  cbn [List.filter]. destruct (f y); [|by apply IH].
  apply ascending_cons. split; [|by apply IH].
  apply Forall_forall. intros z [Hz _]%list_elem_of_In%filter_In.
  rewrite Forall_forall in Hy. apply Hy. by apply list_elem_of_In.
Qed.

Definition empty : ObjectStore :=
  {| records := []; records_ascending := I |}.

Definition get (k : K) (s : ObjectStore) : option V :=
  get_records k (records s).

Definition put (x : V) (s : ObjectStore) : ObjectStore :=
  {| records := put_records x (records s);
     records_ascending :=
       Is_true_true_2 _
         (put_records_ascending x _ (Is_true_true_1 _ (records_ascending s))) |}.

Definition delete (k : K) (s : ObjectStore) : ObjectStore :=
  {| records := delete_records k (records s);
     records_ascending :=
       Is_true_true_2 _
         (filter_ascending _ _ (Is_true_true_1 _ (records_ascending s))) |}.

Definition getAll (s : ObjectStore) : list V := records s.

(** [index(name).getAll(value)]: the records that the index lists under
    the value, [selects] telling which they are. *)
Definition index_getAll (selects : V -> bool) (s : ObjectStore) : list V :=
  List.filter selects (records s).

End ObjectStore.

Arguments records {K V keyPath ltb} _.
Arguments empty {K V keyPath ltb}.
Arguments get {K V keyPath ltb} k s.
Arguments put {K V keyPath ltb _} x s.
Arguments delete {K V keyPath ltb _} k s.
Arguments getAll {K V keyPath ltb} s.
Arguments index_getAll {K V keyPath ltb} selects s.
End IDB.

#[global] Instance Z_key_order : IDB.KeyOrder Z.ltb.
Proof.
  split.
  - intros a. apply Z.ltb_irrefl.
  - intros a b c Hab%Z.ltb_lt Hbc%Z.ltb_lt. apply Z.ltb_lt. lia.
  - intros a b Hab%Z.ltb_ge Hba%Z.ltb_ge. lia.
Qed.

#[global] Instance string_key_order : IDB.KeyOrder String.ltb.
Proof.
  split.
  - intros a. unfold String.ltb. induction a as [|x a IH]; [reflexivity|].
    cbn [String.compare]. unfold Ascii.compare. by rewrite N.compare_refl.
  - intros a. unfold String.ltb.
    induction a as [|x a IH]; intros [|y b] [|z c]; cbn [String.compare];
      try done.
    unfold Ascii.compare.
    destruct (N.compare_spec (N_of_ascii x) (N_of_ascii y)) as [Hxy|Hxy|Hxy];
      destruct (N.compare_spec (N_of_ascii y) (N_of_ascii z)) as [Hyz|Hyz|Hyz];
      destruct (N.compare_spec (N_of_ascii x) (N_of_ascii z)) as [Hxz|Hxz|Hxz];
      try done; try lia.
    apply IH.
  - intros a b. unfold String.ltb. rewrite (String.compare_antisym a b).
    destruct (String.compare b a) eqn:Hc; cbn [CompOpp]; try done.
    intros _ _. symmetry. by apply String.compare_eq_iff.
Qed.

(** ** The store ([storage/db.ts]) and the caches *)

(** [ProjectDB] keeps the tabs in an object store with key path [tabId]
    and the projects in one with key path [projectId]; each method is one
    request on one of them, and the request is taken to succeed.  The
    state of the collaborators is the two object stores together with the
    [Map] of the context tracker and the caches.

    Modelled from the spec: the in-memory caches ([storage/cache.ts]) are
    not among the sources; of them only the calls made are recorded. *)
Module Store.

Record World := {
  db_tabs : IDB.ObjectStore t_tabId Z.ltb;
  db_projects : IDB.ObjectStore p_projectId String.ltb;
  activeContexts : gmap Z ActiveContext;
  tabMetaCache_sets : list TabMeta;
  projectCache_sets : list Project;
}.

Definition putTab (tab : TabMeta) (w : World) : World :=
  {| db_tabs := IDB.put tab (db_tabs w);
     db_projects := db_projects w;
     activeContexts := activeContexts w;
     tabMetaCache_sets := tabMetaCache_sets w;
     projectCache_sets := projectCache_sets w |}.

Definition getTab (tabId : Z) (w : World) : option TabMeta :=
  IDB.get tabId (db_tabs w).


Definition getAllTabs (w : World) : list TabMeta :=
  IDB.getAll (db_tabs w).

(** A tab without a project is not listed by the index. *)
Definition getTabsByProject (projectId : string) (w : World) : list TabMeta :=
  IDB.index_getAll (fun t => bool_decide (t_projectId t = Some projectId))
                   (db_tabs w).

Definition getTabsByHost (host : string) (w : World) : list TabMeta :=
  IDB.index_getAll (fun t => String.eqb (t_host t) host) (db_tabs w).

Definition getTabsByWindow (windowId : Z) (w : World) : list TabMeta :=
  IDB.index_getAll (fun t => (t_windowId t =? windowId)%Z) (db_tabs w).

Definition putProject (project : Project) (w : World) : World :=
  {| db_tabs := db_tabs w;
     db_projects := IDB.put project (db_projects w);
     activeContexts := activeContexts w;
     tabMetaCache_sets := tabMetaCache_sets w;
     projectCache_sets := projectCache_sets w |}.

Definition getProject (projectId : string) (w : World) : option Project :=
  IDB.get projectId (db_projects w).

Definition getAllProjects (w : World) : list Project :=
  IDB.getAll (db_projects w).

Definition deleteProject (projectId : string) (w : World) : World :=
  {| db_tabs := db_tabs w;
     db_projects := IDB.delete projectId (db_projects w);
     activeContexts := activeContexts w;
     tabMetaCache_sets := tabMetaCache_sets w;
     projectCache_sets := projectCache_sets w |}.

Definition projectCache_set (project : Project) (w : World) : World :=
  {| db_tabs := db_tabs w;
     db_projects := db_projects w;
     activeContexts := activeContexts w;
     tabMetaCache_sets := tabMetaCache_sets w;
     projectCache_sets := project :: projectCache_sets w |}.

Definition tabMetaCache_set (tab : TabMeta) (w : World) : World :=
  {| db_tabs := db_tabs w;
     db_projects := db_projects w;
     activeContexts := activeContexts w;
     tabMetaCache_sets := tab :: tabMetaCache_sets w;
     projectCache_sets := projectCache_sets w |}.


(** [this.activeContexts.set(windowId, context)] of the context tracker. *)
Definition setContext (windowId : Z) (context : ActiveContext) (w : World)
    : World :=
  {| db_tabs := db_tabs w;
     db_projects := db_projects w;
     activeContexts := <[windowId := context]> (activeContexts w);
     tabMetaCache_sets := tabMetaCache_sets w;
     projectCache_sets := projectCache_sets w |}.

(** [this.activeContexts.delete(windowId)] of the context tracker. *)
Definition deleteContext (windowId : Z) (w : World) : World :=
  {| db_tabs := db_tabs w;
     db_projects := db_projects w;
     activeContexts := delete windowId (activeContexts w);
     tabMetaCache_sets := tabMetaCache_sets w;
     projectCache_sets := projectCache_sets w |}.

End Store.

(** ** Active context tracking ([classifier/context.ts]) *)

Module ContextTracker.
Import Store.
Local Open Scope R_scope.

Definition CONTEXT_WINDOW_MS : Z := 30 * 60 * 1000.
Definition DWELL_TIME_WEIGHT : R := 0.7.
Definition RECENCY_WEIGHT : R := 0.3.

(** The body of the [map] callback of [updateContext]. *)
Definition activityOf (now : Z) (tab : TabMeta) : RecentTabActivity :=
  let timeSinceActive := (now - t_lastActiveAt tab)%Z in
  let recencyScore := 1 - IZR timeSinceActive / IZR CONTEXT_WINDOW_MS in
  let dwellScore := Rmin 1 (IZR (t_activeScore tab) / 60000) in
  {| rt_tabId := t_tabId tab;
     rt_projectId := t_projectId tab;
     rt_subprojectId := t_subprojectId tab;
     rt_lastActiveAt := t_lastActiveAt tab;
     rt_dwellTime := t_activeScore tab;
     rt_weight := DWELL_TIME_WEIGHT * dwellScore + RECENCY_WEIGHT * recencyScore |}.

Definition byWeightDesc (a b : RecentTabActivity) : bool :=
  bool_decide (rt_weight b - rt_weight a < 0).

Definition updateContext (now : Z) (windowId : Z) (activatedTab : TabMeta)
    (w : World) : ActiveContext * World :=
  let windowTabs := getTabsByWindow windowId w in
  let recentTabs :=
    JS.sort byWeightDesc
      (List.map (activityOf now)
         (List.filter
            (fun tab => (now - t_lastActiveAt tab <? CONTEXT_WINDOW_MS)%Z)
            windowTabs)) in
  let context := {|
    ctx_windowId := windowId;
    ctx_activeProjectId := t_projectId activatedTab;
    ctx_activeSubprojectId := t_subprojectId activatedTab;
    ctx_recentTabs := recentTabs;
    ctx_computedAt := now;
  |} in
  (context, setContext windowId context w).

Definition getContext (now : Z) (windowId : Z) (w : World)
    : option ActiveContext :=
  match activeContexts w !! windowId with
  | Some context =>
      if (now - ctx_computedAt context <? 5000)%Z then Some context else None
  | None => None
  end.

Definition clearContext (windowId : Z) (w : World) : World :=
  deleteContext windowId w.

End ContextTracker.

(** ** Assignment orchestrator ([core.ts]) *)

Module Core.
Import Store.
Local Open Scope string_scope.
Local Open Scope R_scope.

(** What a run of [assignTabToProject] reads from its environment: one
    clock reading for each phase that calls [Date.now()], and the two
    random suffixes of freshly made identifiers. *)
Record Env := {
  now_context : Z;
  now_match : Z;
  now_commit : Z;
  now_centroid : Z;
  now_create : Z;
  now_subId : Z;
  rand_sub : string;
  now_projId : Z;
  rand_proj : string;
}.

(** [tab.projectId = projectId; tab.subprojectId = subprojectId] *)
Definition setAssignment (tab : TabMeta) (projectId : string)
    (subprojectId : option string) : TabMeta :=
  {| t_tabId := t_tabId tab;
     t_windowId := t_windowId tab;
     t_url := t_url tab;
     t_title := t_title tab;
     t_host := t_host tab;
     t_pathTokens := t_pathTokens tab;
     t_queryKeys := t_queryKeys tab;
     t_pageSignals := t_pageSignals tab;
     t_createdAt := t_createdAt tab;
     t_lastActiveAt := t_lastActiveAt tab;
     t_activeScore := t_activeScore tab;
     t_projectId := Some projectId;
     t_subprojectId := subprojectId;
     t_featuresHash := t_featuresHash tab;
     t_embeddingId := t_embeddingId tab;
     t_openerTabId := t_openerTabId tab;
     t_manuallyAssigned := t_manuallyAssigned tab |}.

Definition projectColors : list string :=
  [ "#ef4444"; "#f97316"; "#f59e0b"; "#84cc16"; "#10b981";
    "#06b6d4"; "#3b82f6"; "#6366f1"; "#8b5cf6"; "#ec4899" ].

(** [host.replace(/^www\./, '')] *)
Definition stripWww (host : string) : string :=
  if String.prefix "www." host
  then String.substring 4 (String.length host - 4) host
  else host.

Definition createProjectForTab (env : Env) (tab : TabMeta) (w : World)
    : Project * World :=
  let now := now_create env in
  let tokens :=
    Tokens.tokenize
      {| Tokens.in_url := None;
         Tokens.in_host := Some (t_host tab);
         Tokens.in_pathTokens := Some (t_pathTokens tab);
         Tokens.in_title := Some (t_title tab);
         Tokens.in_h1 := None;
         Tokens.in_meta := None |} in
  let centroid := Tokens.createCentroid [tokens] None in
  let prefix2 := JS.join "/" (take 2 (t_pathTokens tab)) in
  let subproject := {|
    sp_subprojectId := "sub_" ++ pretty (now_subId env) ++ "_" ++ rand_sub env;
    sp_name := if String.eqb prefix2 "" then t_host tab else prefix2;
    sp_signature := {|
      sig_host := t_host tab;
      sig_pathPrefix := prefix2;
      sig_tokenCentroid := centroid;
    |};
    sp_rules := [];
    sp_createdAt := now;
    sp_lastActiveAt := now;
  |} in
  let existingProjects := getAllProjects w in
  let colorIndex := (length existingProjects mod length projectColors)%nat in
  let project := {|
    p_projectId :=
      "proj_" ++ pretty (now_projId env) ++ "_" ++ rand_proj env;
    p_name := stripWww (t_host tab);
    p_color := nth colorIndex projectColors "";
    p_pinned := false;
    p_createdAt := now;
    p_lastActiveAt := now;
    p_activeScore := 0;
    p_centroid := centroid;
    p_rules := [ {| r_type := RHost; r_value := t_host tab; r_weight := 1.0 |} ];
    p_subprojects := [subproject];
    p_locked := None;
  |} in
  let w := putProject project w in
  let w := projectCache_set project w in
  (project, w).

(** In-place update of the first element that [f] selects. *)
Fixpoint update_first {A} (f : A -> bool) (g : A -> A) (l : list A) : list A :=
  match l with
  | [] => []
  | x :: l' => if f x then g x :: l' else x :: update_first f g l'
  end.

Definition updateProjectCentroid (env : Env) (project : Project)
    (tab : TabMeta) (w : World) : World :=
  let tokens :=
    Tokens.tokenize
      {| Tokens.in_url := None;
         Tokens.in_host := Some (t_host tab);
         Tokens.in_pathTokens := Some (t_pathTokens tab);
         Tokens.in_title := Some (t_title tab);
         Tokens.in_h1 := t_pageSignals tab ≫= ps_h1;
         Tokens.in_meta := None |} in
  let centroid := Tokens.updateCentroid (p_centroid project) tokens 0.1 in
  let subprojects :=
    update_first
      (fun sp => bool_decide (Some (sp_subprojectId sp) = t_subprojectId tab))
      (fun subproject =>
         {| sp_subprojectId := sp_subprojectId subproject;
            sp_name := sp_name subproject;
            sp_signature := {|
              sig_host := sig_host (sp_signature subproject);
              sig_pathPrefix := sig_pathPrefix (sp_signature subproject);
              sig_tokenCentroid :=
                Tokens.updateCentroid
                  (sig_tokenCentroid (sp_signature subproject)) tokens 0.2;
            |};
            sp_rules := sp_rules subproject;
            sp_createdAt := sp_createdAt subproject;
            sp_lastActiveAt := now_centroid env |})
      (p_subprojects project) in
  let project := {|
    p_projectId := p_projectId project;
    p_name := p_name project;
    p_color := p_color project;
    p_pinned := p_pinned project;
    p_createdAt := p_createdAt project;
    p_lastActiveAt := p_lastActiveAt project;
    p_activeScore := p_activeScore project;
    p_centroid := centroid;
    p_rules := p_rules project;
    p_subprojects := subprojects;
    p_locked := p_locked project;
  |} in
  let w := putProject project w in
  projectCache_set project w.

(** [project.lastActiveAt = Date.now()] *)
Definition touchProject (now : Z) (project : Project) : Project :=
  {| p_projectId := p_projectId project;
     p_name := p_name project;
     p_color := p_color project;
     p_pinned := p_pinned project;
     p_createdAt := p_createdAt project;
     p_lastActiveAt := now;
     p_activeScore := p_activeScore project;
     p_centroid := p_centroid project;
     p_rules := p_rules project;
     p_subprojects := p_subprojects project;
     p_locked := p_locked project |}.

(** The block that [assignTabToProject] runs, twice in the source, when
    a project has to be made for the tab. *)
Definition assignDefault (env : Env) (tab : TabMeta) (w : World)
    : TabAssignment * TabMeta * World :=
  let '(newProject, w) := createProjectForTab env tab w in
  let tab :=
    setAssignment tab (p_projectId newProject)
      (sp_subprojectId <$> head (p_subprojects newProject)) in
  let w := putTab tab w in
  ({| ta_tabId := t_tabId tab;
      ta_projectId := p_projectId newProject;
      ta_subprojectId := t_subprojectId tab;
      ta_confidence := 1.0;
      ta_method := MDefault |}, tab, w).

(** The result is the assignment, the tab object as the call leaves it
    (the caller's object is assigned to in place) and the new state. *)
Definition assignTabToProject (env : Env) (tab : TabMeta) (windowId : Z)
    (w : World) : TabAssignment * TabMeta * World :=
  match t_manuallyAssigned tab, Tokens.truthy (t_projectId tab) with
  | Some true, Some projectId =>
      ({| ta_tabId := t_tabId tab;
          ta_projectId := projectId;
          ta_subprojectId := t_subprojectId tab;
          ta_confidence := 1.0;
          ta_method := MManual |}, tab, w)
  | _, _ =>
      let projects := getAllProjects w in
      if (length projects =? 0)%nat then assignDefault env tab w
      else
        let '(context, w) :=
          ContextTracker.updateContext (now_context env) windowId tab w in
        let bestMatch :=
          TabMatcher.getBestMatch DEFAULT_MATCHER_CONFIG (now_match env)
            tab projects (Some context) in
        match bestMatch with
        | Some bestMatch =>
            if bool_decide (score bestMatch > 0.5) then
              let tab :=
                setAssignment tab (sr_projectId bestMatch)
                  (sr_subprojectId bestMatch) in
              let w := putTab tab w in
              let w :=
                match getProject (sr_projectId bestMatch) w with
                | Some project =>
                    updateProjectCentroid env
                      (touchProject (now_commit env) project) tab w
                | None => w
                end in
              ({| ta_tabId := t_tabId tab;
                  ta_projectId := sr_projectId bestMatch;
                  ta_subprojectId := sr_subprojectId bestMatch;
                  ta_confidence := score bestMatch;
                  ta_method :=
                    if bool_decide (score bestMatch > 0.8)
                    then MDeterministic else MSemantic |}, tab, w)
            else assignDefault env tab w
        | None => assignDefault env tab w
        end
  end.

(** The fields of a [chrome.tabs.Tab] that the engine reads. *)
Record ChromeTab := {
  ct_id : Z;
  ct_windowId : Z;
  ct_url : option string;
  ct_title : option string;
  ct_openerTabId : option Z;
}.

(** [x || y] on numbers: 0 is falsy. *)
Definition orZ (x : option Z) (y : Z) : Z :=
  match x with
  | Some 0%Z | None => y
  | Some x => x
  end.

Section Platform.
Variable newURL : string -> option Url.UrlParts.
Variable decodeURIComponent : string -> option string.

(** [None] stands for the thrown [Error('Invalid tab URL')]; nothing is
    written before it is thrown. *)
Definition upsertTabMeta (now : Z) (tab : ChromeTab) (w : World)
    : option (TabMeta * World) :=
  let existing := getTab (ct_id tab) w in
  match Url.parseUrl newURL decodeURIComponent (default "" (ct_url tab)) with
  | None => None
  | Some parsed =>
      let tokens :=
        Tokens.tokenize
          {| Tokens.in_url := None;
             Tokens.in_host := Some (Url.pu_host parsed);
             Tokens.in_pathTokens := Some (Url.pu_pathTokens parsed);
             Tokens.in_title := ct_title tab;
             Tokens.in_h1 := None;
             Tokens.in_meta := None |} in
      let tabMeta := {|
        t_tabId := ct_id tab;
        t_windowId := ct_windowId tab;
        t_url := default "" (ct_url tab);
        t_title := default "" (Tokens.truthy (ct_title tab));
        t_host := Url.pu_host parsed;
        t_pathTokens := Url.pu_pathTokens parsed;
        t_queryKeys := Url.pu_queryKeys parsed;
        t_pageSignals := existing ≫= t_pageSignals;
        t_createdAt := orZ (t_createdAt <$> existing) now;
        t_lastActiveAt := orZ (t_lastActiveAt <$> existing) now;
        t_activeScore := orZ (t_activeScore <$> existing) 0;
        t_projectId := existing ≫= t_projectId;
        t_subprojectId := existing ≫= t_subprojectId;
        t_featuresHash := Tokens.hashTokens tokens;
        t_embeddingId := None;
        t_openerTabId := ct_openerTabId tab;
        t_manuallyAssigned := existing ≫= t_manuallyAssigned;
      |} in
      let w := putTab tabMeta w in
      let w := tabMetaCache_set tabMeta w in
      Some (tabMeta, w)
  end.
End Platform.

(** [tab.lastActiveAt = Date.now(); tab.activeScore += dwellTime] *)
Definition recordActivity (now dwellTime : Z) (tab : TabMeta) : TabMeta :=
  {| t_tabId := t_tabId tab;
     t_windowId := t_windowId tab;
     t_url := t_url tab;
     t_title := t_title tab;
     t_host := t_host tab;
     t_pathTokens := t_pathTokens tab;
     t_queryKeys := t_queryKeys tab;
     t_pageSignals := t_pageSignals tab;
     t_createdAt := t_createdAt tab;
     t_lastActiveAt := now;
     t_activeScore := (t_activeScore tab + dwellTime)%Z;
     t_projectId := t_projectId tab;
     t_subprojectId := t_subprojectId tab;
     t_featuresHash := t_featuresHash tab;
     t_embeddingId := t_embeddingId tab;
     t_openerTabId := t_openerTabId tab;
     t_manuallyAssigned := t_manuallyAssigned tab |}.

Definition updateTabActivity (now : Z) (tabId : Z) (dwellTime : Z) (w : World)
    : World :=
  match getTab tabId w with
  | Some tab =>
      let tab := recordActivity now dwellTime tab in
      let w := putTab tab w in
      tabMetaCache_set tab w
  | None => w
  end.

Definition getActiveContext (now : Z) (windowId : Z) (w : World)
    : option ActiveContext :=
  ContextTracker.getContext now windowId w.


End Core.

(** ** Service worker ([sw.ts]) *)

(** Of the event handlers the part that acts on the store is modelled;
    calls to [chrome.tabs] and the broadcasts leave the store as it is. *)
Module ServiceWorker.
Import Store.
Local Open Scope string_scope.

Inductive ActionKind :=
  | activate_tab | close_tab | pin_tab | mute_tab
  | rename_project | pin_project | lock_project | split_project
  | merge_projects | move_tab_to_project | create_project | delete_project.

Record UIAction := {
  ua_action : ActionKind;
  ua_tabId : option Z;
  ua_projectId : option string;
  ua_subprojectId : option string;
  ua_value : option string;
}.

(** [if (n) ...] on an optional number: absent and 0 are both falsy. *)
Definition truthyZ (n : option Z) : option Z :=
  match n with
  | Some 0%Z | None => None
  | Some n => Some n
  end.

(** [tab.projectId = projectId; tab.subprojectId = subprojectId;
    tab.manuallyAssigned = true] *)
Definition moveTab (tab : TabMeta) (projectId : string)
    (subprojectId : option string) : TabMeta :=
  {| t_tabId := t_tabId tab;
     t_windowId := t_windowId tab;
     t_url := t_url tab;
     t_title := t_title tab;
     t_host := t_host tab;
     t_pathTokens := t_pathTokens tab;
     t_queryKeys := t_queryKeys tab;
     t_pageSignals := t_pageSignals tab;
     t_createdAt := t_createdAt tab;
     t_lastActiveAt := t_lastActiveAt tab;
     t_activeScore := t_activeScore tab;
     t_projectId := Some projectId;
     t_subprojectId := subprojectId;
     t_featuresHash := t_featuresHash tab;
     t_embeddingId := t_embeddingId tab;
     t_openerTabId := t_openerTabId tab;
     t_manuallyAssigned := Some true |}.

(** [tab.projectId = undefined; tab.subprojectId = undefined] *)
Definition unassignTab (tab : TabMeta) : TabMeta :=
  {| t_tabId := t_tabId tab;
     t_windowId := t_windowId tab;
     t_url := t_url tab;
     t_title := t_title tab;
     t_host := t_host tab;
     t_pathTokens := t_pathTokens tab;
     t_queryKeys := t_queryKeys tab;
     t_pageSignals := t_pageSignals tab;
     t_createdAt := t_createdAt tab;
     t_lastActiveAt := t_lastActiveAt tab;
     t_activeScore := t_activeScore tab;
     t_projectId := None;
     t_subprojectId := None;
     t_featuresHash := t_featuresHash tab;
     t_embeddingId := t_embeddingId tab;
     t_openerTabId := t_openerTabId tab;
     t_manuallyAssigned := t_manuallyAssigned tab |}.

(** A project with some of its fields assigned to. *)
Definition editProject (project : Project) (name : string) (pinned : bool)
    (locked : option bool) : Project :=
  {| p_projectId := p_projectId project;
     p_name := name;
     p_color := p_color project;
     p_pinned := pinned;
     p_createdAt := p_createdAt project;
     p_lastActiveAt := p_lastActiveAt project;
     p_activeScore := p_activeScore project;
     p_centroid := p_centroid project;
     p_rules := p_rules project;
     p_subprojects := p_subprojects project;
     p_locked := locked |}.

(** [!project.locked] on an optional flag: absent is falsy. *)
Definition notLocked (locked : option bool) : bool :=
  match locked with
  | Some true => false
  | _ => true
  end.

Definition handleUIAction (action : UIAction) (w : World) : World :=
  match ua_action action with
  | activate_tab | close_tab | pin_tab | mute_tab => w
  | move_tab_to_project =>
      match truthyZ (ua_tabId action), Tokens.truthy (ua_projectId action) with
      | Some tabId, Some projectId =>
          match getTab tabId w with
          | Some tab => putTab (moveTab tab projectId (ua_subprojectId action)) w
          | None => w
          end
      | _, _ => w
      end
  | rename_project =>
      match Tokens.truthy (ua_projectId action), Tokens.truthy (ua_value action) with
      | Some projectId, Some value =>
          match getProject projectId w with
          | Some project =>
              putProject
                (editProject project value (p_pinned project) (p_locked project)) w
          | None => w
          end
      | _, _ => w
      end
  | pin_project =>
      match Tokens.truthy (ua_projectId action) with
      | Some projectId =>
          match getProject projectId w with
          | Some project =>
              putProject
                (editProject project (p_name project) (negb (p_pinned project))
                   (p_locked project)) w
          | None => w
          end
      | None => w
      end
  | lock_project =>
      match Tokens.truthy (ua_projectId action) with
      | Some projectId =>
          match getProject projectId w with
          | Some project =>
              putProject
                (editProject project (p_name project) (p_pinned project)
                   (Some (notLocked (p_locked project)))) w
          | None => w
          end
      | None => w
      end
  | delete_project =>
      match Tokens.truthy (ua_projectId action) with
      | Some projectId =>
          let w := deleteProject projectId w in
          let tabs := getTabsByProject projectId w in
          foldl (fun w tab => putTab (unassignTab tab) w) w tabs
      | None => w
      end
  | split_project | merge_projects | create_project => w
  end.

(** The state of the worker: the store and the module variable
    [lastActivation]. *)
Record State := {
  world : World;
  lastActivation : option (Z * Z);
}.

(** The clock readings of one activation event. *)
Record EventEnv := {
  ev_now : Z;
  ev_now_activity : Z;
  ev_now_upsert : Z;
  ev_assign : Core.Env;
}.

Section Platform.
Variable newURL : string -> option Url.UrlParts.
Variable decodeURIComponent : string -> option string.

(** The listener of [chrome.tabs.onActivated].  [tab] is what
    [chrome.tabs.get(tabId)] returns.  The result is the new state and the
    assignment that is broadcast, if the handler gets that far; an error of
    [upsertTabMeta] is caught and logged, and what was written before it
    stays. *)
Definition onActivated (env : EventEnv) (tabId windowId : Z) (tab : Core.ChromeTab)
    (s : State) : State * option TabAssignment :=
  let now := ev_now env in
  let w :=
    match lastActivation s with
    | Some (lastTabId, timestamp) =>
        if negb (lastTabId =? tabId)%Z then
          let dwellTime := (now - timestamp)%Z in
          Core.updateTabActivity (ev_now_activity env) lastTabId dwellTime (world s)
        else world s
    | None => world s
    end in
  let lastActivation := Some (tabId, now) in
  match Tokens.truthy (Core.ct_url tab) with
  | None => ({| world := w; lastActivation := lastActivation |}, None)
  | Some url =>
      if JS.startsWith url "chrome://"
      then ({| world := w; lastActivation := lastActivation |}, None)
      else
        match Core.upsertTabMeta newURL decodeURIComponent (ev_now_upsert env)
                tab w with
        | None => ({| world := w; lastActivation := lastActivation |}, None)
        | Some (tabMeta, w) =>
            let '(assignment, _, w) :=
              Core.assignTabToProject (ev_assign env) tabMeta windowId w in
            ({| world := w; lastActivation := lastActivation |}, Some assignment)
        end
  end.

End Platform.

End ServiceWorker.

(** * Notions used to state the properties *)

(** [a] may stand before [b] in a list sorted with the comparator: the
    comparator does not ask for [b] first. *)
Definition mayPrecede {A} (neg : A -> A -> bool) (a b : A) : Prop :=
  neg b a = false.

(** Number of occurrences of a token in a token list. *)
Definition occurrences (token : string) (l : list string) : nat :=
  count_occ string_dec l token.

(** The three sums that the loops over the entries of a centroid compute,
    written over the list of entries: the weights of the entries whose
    token is in [S], the squares of all weights, and the number of entries
    whose token is in [S]. *)
Fixpoint dotL (S : gset string) (l : list (string * R)) : R :=
  match l with
  | [] => 0%R
  | (k, w) :: l' => if decide (k ∈ S) then (dotL S l' + w)%R else dotL S l'
  end.

Fixpoint magL (l : list (string * R)) : R :=
  match l with
  | [] => 0%R
  | (_, w) :: l' => (magL l' + w * w)%R
  end.

Fixpoint cntL (S : gset string) (l : list (string * R)) : nat :=
  match l with
  | [] => 0%nat
  | (k, _) :: l' => if decide (k ∈ S) then Datatypes.S (cntL S l') else cntL S l'
  end.

(** The tab carries the manual-override flag and a non-empty project id. *)
Definition isManual (tab : TabMeta) : Prop :=
  t_manuallyAssigned tab = Some true
  /\ exists projectId, t_projectId tab = Some projectId /\ projectId <> EmptyString.

(** The best match that a run of [assignTabToProject] computes once it has
    refreshed the context of the window. *)
Definition bestMatchOfRun (env : Core.Env) (tab : TabMeta) (windowId : Z)
    (w : Store.World) : option ScoringResult :=
  TabMatcher.getBestMatch DEFAULT_MATCHER_CONFIG (Core.now_match env) tab
    (Store.getAllProjects w)
    (Some (ContextTracker.updateContext (Core.now_context env) windowId tab w).1).

(** The weighted sum of a breakdown under the default weights. *)
Definition rawScore (b : Breakdown) : R :=
  (3.0 * hostMatch b + 2.0 * pathMatch b + 1.5 * tokenSimilarity b
   + 2.0 * chainProximity b + 1.0 * recencyBoost b)%R.

(** The band of the recency step function in which an elapsed time
    falls: under 5, under 15, under 30 minutes, or more. *)
Definition recencyBand (elapsed : Z) : nat :=
  if (elapsed <? 5 * 60000)%Z then 0
  else if (elapsed <? 15 * 60000)%Z then 1
  else if (elapsed <? 30 * 60000)%Z then 2
  else 3.

(** The value of the recency step function on each band. *)
Definition bandBoost (band : nat) : R :=
  match band with
  | 0%nat => 0.9%R
  | 1%nat => 0.6%R
  | 2%nat => 0.3%R
  | _ => 0%R
  end.

(** The stages of candidate narrowing. *)
Definition HostLocal (tab : TabMeta) (p : Project) : Prop :=
  Exists (fun sp => sig_host (sp_signature sp) = t_host tab) (p_subprojects p)
  \/ Exists (fun r => r_type r = RHost /\ r_value r = t_host tab) (p_rules p).

Definition DomainLocal (tab : TabMeta) (p : Project) : Prop :=
  Exists (fun r => r_type r = RDomain /\ r_value r = TabMatcher.tabDomain tab)
         (p_rules p).

Definition RecentlyActive (now : Z) (p : Project) : Prop :=
  (now - p_lastActiveAt p < 30 * 60 * 1000)%Z.

#[global] Instance HostLocal_dec tab p : Decision (HostLocal tab p).
Proof. unfold HostLocal. apply _. Defined.

#[global] Instance DomainLocal_dec tab p : Decision (DomainLocal tab p).
Proof. unfold DomainLocal. apply _. Defined.

#[global] Instance RecentlyActive_dec now p : Decision (RecentlyActive now p).
Proof. unfold RecentlyActive. apply _. Defined.

(** The entry of the recent-tab list that stands for a tab: the fields of
    the tab, and the weight [0.7 * dwell + 0.3 * recency]. *)
Definition isEntryOf (now : Z) (rt : RecentTabActivity) (tab : TabMeta) : Prop :=
  rt_tabId rt = t_tabId tab
  /\ rt_projectId rt = t_projectId tab
  /\ rt_subprojectId rt = t_subprojectId tab
  /\ rt_lastActiveAt rt = t_lastActiveAt tab
  /\ rt_dwellTime rt = t_activeScore tab
  /\ rt_weight rt
     = (0.7 * Rmin 1 (IZR (t_activeScore tab) / 60000)
        + 0.3 * (1 - IZR (now - t_lastActiveAt tab) / 1800000))%R.

(** A tab of the window that was active within the rolling window. *)
Definition InRollingWindow (now windowId : Z) (tab : TabMeta) : Prop :=
  t_windowId tab = windowId /\ (now - t_lastActiveAt tab < 30 * 60 * 1000)%Z.

#[global] Instance InRollingWindow_dec now windowId tab :
  Decision (InRollingWindow now windowId tab).
Proof. unfold InRollingWindow. apply _. Defined.

(** Concrete inputs. *)
Module Examples.
Local Open Scope string_scope.

Definition emptyCentroid : TokenCentroid :=
{| tokens := ∅; totalWeight := 0 |}.

Definition mkTab (host : string) (pathTokens : list string)
(projectId : option string) (manuallyAssigned : option bool) : TabMeta :=
{| t_tabId := 7;
 t_windowId := 1;
 t_url := "https://" ++ host ++ "/" ++ JS.join "/" pathTokens;
 t_title := "";
 t_host := host;
 t_pathTokens := pathTokens;
 t_queryKeys := [];
 t_pageSignals := None;
 t_createdAt := 0;
 t_lastActiveAt := 0;
 t_activeScore := 0;
 t_projectId := projectId;
 t_subprojectId := None;
 t_featuresHash := "";
 t_embeddingId := None;
 t_openerTabId := None;
 t_manuallyAssigned := manuallyAssigned |}.

Definition mkProject (projectId : string) (lastActiveAt : Z)
(centroid : TokenCentroid) (rules : list ProjectRule) : Project :=
{| p_projectId := projectId;
 p_name := projectId;
 p_color := "#ef4444";
 p_pinned := false;
 p_createdAt := 0;
 p_lastActiveAt := lastActiveAt;
 p_activeScore := 0;
 p_centroid := centroid;
 p_rules := rules;
 p_subprojects := [];
 p_locked := None |}.

Definition hostRule (host : string) : ProjectRule :=
{| r_type := RHost; r_value := host; r_weight := 1.0 |}.

Definition domainRule (domain : string) : ProjectRule :=
{| r_type := RDomain; r_value := domain; r_weight := 1.0 |}.


(** A fresh tab on [github.com]. *)
Definition githubTab : TabMeta := mkTab "github.com" [] None None.

(** A centroid that holds one token with weight 1. *)
Definition unitCentroid : TokenCentroid :=
{| tokens := {[ "abc" := 1%R ]}; totalWeight := 1 |}.

(** A tab that the user has moved to project [P] by hand. *)
Definition manualTab : TabMeta := mkTab "github.com" [] (Some "P") (Some true).





(** A project with an exact host rule for [github.com]. *)
Definition hostProject : Project :=
mkProject "P" 0 emptyCentroid [hostRule "github.com"].

(** The same, with a domain rule listed before the host rule. *)
Definition domainFirstProject : Project :=
mkProject "P" 0 emptyCentroid [domainRule "github.com"; hostRule "github.com"].

(** A project without rules, last active at time 0. *)
Definition bareProject : Project := mkProject "Q" 0 emptyCentroid [].

(** A context in which no project is active and no tab is recent. *)
Definition idleContext : ActiveContext :=
{| ctx_windowId := 1;
 ctx_activeProjectId := None;
 ctx_activeSubprojectId := None;
 ctx_recentTabs := [];
 ctx_computedAt := 0 |}.

Definition minutes (n : Z) : Z := (n * 60000)%Z.

(** The context that a run computes for [githubTab] in a window whose
store holds no tab. *)
Definition runContext (now : Z) : ActiveContext :=
{| ctx_windowId := 1;
 ctx_activeProjectId := None;
 ctx_activeSubprojectId := None;
 ctx_recentTabs := [];
 ctx_computedAt := now |}.

(** A store that holds nothing. *)
Definition emptyWorld : Store.World :=
{| Store.db_tabs := IDB.empty;
 Store.db_projects := IDB.empty;
 Store.activeContexts := ∅;
 Store.tabMetaCache_sets := [];
 Store.projectCache_sets := [] |}.

(** A store that holds one project and no tab. *)
Definition worldWith (p : Project) : Store.World :=
{| Store.db_tabs := IDB.empty;
 Store.db_projects := IDB.put p IDB.empty;
 Store.activeContexts := ∅;
 Store.tabMetaCache_sets := [];
 Store.projectCache_sets := [] |}.

(** Every clock reading of the run is [now]. *)
Definition envAt (now : Z) : Core.Env :=
{| Core.now_context := now;
 Core.now_match := now;
 Core.now_commit := now;
 Core.now_centroid := now;
 Core.now_create := now;
 Core.now_subId := now;
 Core.rand_sub := "k3j9x1a";
 Core.now_projId := now;
 Core.rand_proj := "q8w2e7r" |}.

(** A platform whose URL parser accepts every non-empty string as a page
    of [github.com/org/repo], and whose decoder is the identity. *)
Definition newURL0 (url : string) : option Url.UrlParts :=
  if String.eqb url "" then None
  else Some {| Url.hostname := "github.com";
               Url.pathname := "/org/repo";
               Url.searchKeys := [] |}.

Definition decode0 (s : string) : option string := Some s.

(** The browser's view of tab 7. *)
Definition chromeTab7 : Core.ChromeTab :=
  {| Core.ct_id := 7;
     Core.ct_windowId := 1;
     Core.ct_url := Some "https://github.com/org/repo";
     Core.ct_title := Some "repo";
     Core.ct_openerTabId := None |}.

(** A store that holds [hostProject], and [githubTab] assigned to it. *)
Definition worldWithTab : Store.World :=
  {| Store.db_tabs := IDB.put (mkTab "github.com" [] (Some "P") None) IDB.empty;
     Store.db_projects := IDB.put hostProject IDB.empty;
     Store.activeContexts := ∅;
     Store.tabMetaCache_sets := [];
     Store.projectCache_sets := [] |}.

Definition eventAt (now : Z) : ServiceWorker.EventEnv :=
  {| ServiceWorker.ev_now := now;
     ServiceWorker.ev_now_activity := now;
     ServiceWorker.ev_now_upsert := now;
     ServiceWorker.ev_assign := envAt now |}.

Definition moveAction (tabId : Z) (projectId : string) : ServiceWorker.UIAction :=
  {| ServiceWorker.ua_action := ServiceWorker.move_tab_to_project;
     ServiceWorker.ua_tabId := Some tabId;
     ServiceWorker.ua_projectId := Some projectId;
     ServiceWorker.ua_subprojectId := None;
     ServiceWorker.ua_value := None |}.

Definition projectAction (kind : ServiceWorker.ActionKind) (projectId : string)
    : ServiceWorker.UIAction :=
  {| ServiceWorker.ua_action := kind;
     ServiceWorker.ua_tabId := None;
     ServiceWorker.ua_projectId := Some projectId;
     ServiceWorker.ua_subprojectId := None;
     ServiceWorker.ua_value := None |}.

End Examples.

(** * Notions used to state further properties *)

(** Every character of the string satisfies [P]. *)
Fixpoint string_forall (P : ascii -> bool) (s : string) : bool :=
  match s with
  | EmptyString => true
  | String c s' => P c && string_forall P s'
  end.

(** A lower-case letter, a digit or an underscore. *)
Definition is_token_char (c : ascii) : bool :=
  let n := nat_of_ascii c in
  ((48 <=? n)%nat && (n <=? 57)%nat) || ((97 <=? n)%nat && (n <=? 122)%nat)
  || (n =? 95)%nat.

(** What the tokenizer does to one character: it is lowered, then blanked
    unless it is a word character, white space or a hyphen. *)
Definition normalize_char (c : ascii) : ascii :=
  let c := JS.lower_char c in
  if JS.is_word c || JS.is_space c || Ascii.eqb c "-"%char then c else " "%char.

Definition is_separator (c : ascii) : bool :=
  JS.is_space c || Ascii.eqb c "-"%char.


(** The order of strings, code unit by code unit. *)
Definition string_le (a b : string) : Prop := String.compare a b <> Gt.

(** The weight of the [idx]-th token list of [createCentroid]:
    [weights?.[idx] ?? 1]. *)
Definition weightAt (weights : option (list R)) (idx : nat) : R :=
  default 1%R (weights ≫= (fun ws => ws !! idx)).

(** The sum, over the token lists from index [idx] on, of the weight of the
    list times a count taken on the list. *)
Fixpoint weightedSum (count : list string -> nat) (weights : option (list R))
    (idx : nat) (arrays : list (list string)) : R :=
  match arrays with
  | [] => 0%R
  | T :: rest =>
      (weightAt weights idx * INR (count T)
       + weightedSum count weights (S idx) rest)%R
  end.

(** The sum of the token weights of a centroid. *)
Definition sumWeights (m : gmap string R) : R :=
  map_fold (fun _ w acc => (w + acc)%R) 0%R m.

(** The project has a path rule or a subproject whose prefix the joined
    path of the tab starts with. *)
Definition PathLocal (tab : TabMeta) (p : Project) : Prop :=
  Exists (fun r => r_type r = RPathPrefix
                   /\ String.prefix (r_value r)
                        (JS.join "/" (t_pathTokens tab)) = true)
         (p_rules p)
  \/ Exists (fun sp => String.prefix (sig_pathPrefix (sp_signature sp))
                         (JS.join "/" (t_pathTokens tab)) = true)
            (p_subprojects p).

(** The key that the exact match of subproject resolution compares. *)
Definition hasKeyOf (tab : TabMeta) (sp : Subproject) : bool :=
  String.eqb
    (sig_host (sp_signature sp) ++ ":" ++ sig_pathPrefix (sp_signature sp))
    (Url.createSubprojectKey (t_host tab) (t_pathTokens tab) 2).

(** The weight that the context tracker gives to a tab. *)
Definition tabWeight (now : Z) (tab : TabMeta) : R :=
  (0.7 * Rmin 1 (IZR (t_activeScore tab) / 60000)
   + 0.3 * (1 - IZR (now - t_lastActiveAt tab) / 1800000))%R.


(** The token weights of a centroid are non-negative. *)
Definition nonnegCentroid (C : TokenCentroid) : Prop :=
  forall token x, tokens C !! token = Some x -> (0 <= x)%R.

(** The centroid of a project and the centroids of its subprojects have
    non-negative weights. *)
Definition centroidsNonneg (p : Project) : Prop :=
  nonnegCentroid (p_centroid p)
  /\ Forall (fun sp => nonnegCentroid (sig_tokenCentroid (sp_signature sp)))
            (p_subprojects p).

(** What [delete_project] does to one stored tab. *)
Definition unassignFrom (projectId : string) (tab : TabMeta) : TabMeta :=
  if bool_decide (t_projectId tab = Some projectId)
  then ServiceWorker.unassignTab tab else tab.

(** * Notions used to state the binary64 properties *)

(** The entry of a token after the weight [w] was added to it [n] times,
    each time to what [x || 0] reads of the entry. *)
Definition addTimes (n : nat) (w : PrimFloat.float) (x : option PrimFloat.float)
    : option PrimFloat.float :=
  Nat.iter n (fun x => Some (PrimFloat.add (Binary64.or0 x) w)) x.

(** The weight of the list at [idx]: [weights?.[idx] ?? 1]. *)
Definition weightAt64 (weights : option (list PrimFloat.float)) (idx : nat)
    : PrimFloat.float :=
  default PrimFloat.one (weights ≫= (fun ws => ws !! idx)).

(** The entry of a token after the lists from index [idx] on were added
    to it, list by list and occurrence by occurrence. *)
Fixpoint addLists (token : string) (weights : option (list PrimFloat.float))
    (idx : nat) (arrays : list (list string)) (x : option PrimFloat.float)
    : option PrimFloat.float :=
  match arrays with
  | [] => x
  | T :: rest =>
      addLists token weights (S idx) rest
        (addTimes (occurrences token T) (weightAt64 weights idx) x)
  end.


(** Concrete inputs in binary64. *)
Module Examples64.
Import PrimFloat.
#[local] Set Warnings "-inexact-float".
Local Open Scope float_scope.

Definition emptyCentroid : Binary64.TokenCentroid :=
  {| Binary64.tokens := []; Binary64.totalWeight := 0 |}.





End Examples64.

(** * Facts *)

(** ** Object stores *)

Section ObjectStoreFacts.
Import IDB.
Context {K V : Type} (keyPath : V -> K) (ltb : K -> K -> bool)
        `{!KeyOrder ltb}.
Implicit Types s : ObjectStore keyPath ltb.

Lemma store_eq s1 s2 : records s1 = records s2 -> s1 = s2.
Proof.
  destruct s1 as [l1 H1], s2 as [l2 H2]. cbn. intros ->.
  f_equal. apply proof_irrel.
Qed.

Lemma store_ascending s : ascending keyPath ltb (getAll s) = true.
Proof. apply Is_true_true_1, records_ascending. Qed.

Lemma get_records_key k l v :
  get_records keyPath ltb k l = Some v -> In v l /\ keyPath v = k.
Proof.
  intros [Hin Hk]%find_some. split; [exact Hin|].
  by apply (sameKey_eq ltb).
Qed.

Lemma get_records_None k l :
  get_records keyPath ltb k l = None <-> forall v, In v l -> keyPath v <> k.
Proof.
  unfold get_records. split.
  - intros Hnone v Hin. apply (sameKey_neq ltb).
    exact (find_none _ _ Hnone v Hin).
  - intros Hall. induction l as [|y l IH]; [reflexivity|]. cbn [List.find].
    rewrite (proj2 (sameKey_neq ltb _ _) (Hall y (or_introl eq_refl))).
    apply IH. intros v Hv. apply Hall. by right.
Qed.

Lemma ascending_In_get l v :
  ascending keyPath ltb l = true -> In v l ->
  get_records keyPath ltb (keyPath v) l = Some v.
Proof.
  induction l as [|y l IH]; [intros _ []|].
  intros [Hy Hl]%(ascending_cons keyPath ltb) [->|Hin]; unfold get_records;
    cbn [List.find].
  - by rewrite (proj2 (sameKey_eq ltb _ _) eq_refl).
  - rewrite Forall_forall in Hy.
    assert (Hlt : ltb (keyPath y) (keyPath v) = true)
      by (apply Hy; by apply list_elem_of_In).
    unfold sameKey at 1. rewrite Hlt. cbn [negb andb]. by apply IH.
Qed.

Lemma get_Some_key k s v : get k s = Some v -> keyPath v = k.
Proof. intros H. by apply get_records_key in H as [_ H]. Qed.

Lemma get_Some_In k s v : get k s = Some v -> In v (getAll s).
Proof. intros H. by apply get_records_key in H as [H _]. Qed.

Lemma In_get s v : In v (getAll s) -> get (keyPath v) s = Some v.
Proof. apply ascending_In_get, store_ascending. Qed.

Lemma get_None k s :
  get k s = None <-> forall v, In v (getAll s) -> keyPath v <> k.
Proof. apply get_records_None. Qed.

Lemma get_In_iff s v : In v (getAll s) <-> get (keyPath v) s = Some v.
Proof. split; [apply In_get|apply get_Some_In]. Qed.

Lemma In_put_records x l y :
  ascending keyPath ltb l = true ->
  In y (put_records keyPath ltb x l)
  <-> y = x \/ (In y l /\ keyPath y <> keyPath x).
Proof.
  induction l as [|z l IH]; intros Hasc; cbn [put_records].
  - split; [intros [<-|[]]; by left|]. intros [->|[[] _]]. by left.
  - pose proof Hasc as [Hz Hl]%(ascending_cons keyPath ltb).
    rewrite Forall_forall in Hz.
    destruct (ltb (keyPath x) (keyPath z)) eqn:Hxz.
    + split.
      * intros [<-|Hin]; [by left|]. right. split; [exact Hin|].
        intros Heq. destruct Hin as [<-|Hin].
        -- by rewrite Heq, (ltb_irrefl ltb) in Hxz.
        -- assert (Hzy : ltb (keyPath z) (keyPath y) = true)
             by (apply Hz; by apply list_elem_of_In).
           rewrite Heq in Hzy.
           by rewrite (ltb_asymm ltb _ _ Hxz) in Hzy.
      * intros [->|[Hin _]]; [by left|by right].
    + destruct (ltb (keyPath z) (keyPath x)) eqn:Hzx.
      * cbn [In]. rewrite (IH Hl). split.
        -- intros [<-|[->|[Hin Hne]]]; [|by left|right; split; [by right|done]].
           right. split; [by left|]. intros Heq.
           by rewrite Heq, (ltb_irrefl ltb) in Hzx.
        -- intros [->|[[<-|Hin] Hne]]; [right; by left|by left|].
           right. right. by split.
      * pose proof (ltb_connex ltb _ _ Hxz Hzx) as Heq. split.
        -- intros [<-|Hin]; [by left|]. right. split; [by right|].
           assert (Hzy : ltb (keyPath z) (keyPath y) = true)
             by (apply Hz; by apply list_elem_of_In).
           intros Heq'. by rewrite Heq', Heq, (ltb_irrefl ltb) in Hzy.
        -- intros [->|[[<-|Hin] Hne]]; [by left|by rewrite Heq in Hne|by right].
Qed.

Lemma In_put s x y :
  In y (getAll (put x s)) <-> y = x \/ (In y (getAll s) /\ keyPath y <> keyPath x).
Proof. apply In_put_records, store_ascending. Qed.

Lemma In_delete s k y :
  In y (getAll (delete k s)) <-> In y (getAll s) /\ keyPath y <> k.
Proof.
  unfold getAll, delete, delete_records. cbn [records]. rewrite filter_In.
  by rewrite negb_true_iff, (sameKey_neq ltb).
Qed.

Lemma get_put_same s x : get (keyPath x) (put x s) = Some x.
Proof. apply In_get, In_put. by left. Qed.

Lemma get_put_other s x k : k <> keyPath x -> get k (put x s) = get k s.
Proof.
  intros Hne. destruct (get k s) as [v|] eqn:Hget.
  - pose proof (get_Some_key _ _ _ Hget) as <-. apply In_get, In_put.
    right. split; [by apply (get_Some_In (keyPath v))|exact Hne].
  - apply get_None. intros v [->|[Hin _]]%In_put; [congruence|].
    by apply (proj1 (get_None k s) Hget).
Qed.

Lemma get_delete_same s k : get k (delete k s) = None.
Proof. apply get_None. by intros v [_ Hne]%In_delete. Qed.

Lemma get_delete_other s k k' : k' <> k -> get k' (delete k s) = get k' s.
Proof.
  intros Hne. destruct (get k' s) as [v|] eqn:Hget.
  - pose proof (get_Some_key _ _ _ Hget) as <-. apply In_get, In_delete.
    split; [by apply (get_Some_In (keyPath v))|exact Hne].
  - apply get_None. intros v [Hin _]%In_delete.
    by apply (proj1 (get_None k' s) Hget).
Qed.

Lemma get_empty k : get k (empty : ObjectStore keyPath ltb) = None.
Proof. reflexivity. Qed.

(** Two stores that answer every [get] alike are the same store. *)
Lemma ascending_ext l1 l2 :
  ascending keyPath ltb l1 = true -> ascending keyPath ltb l2 = true ->
  (forall v, In v l1 <-> In v l2) -> l1 = l2.
Proof.
  revert l2. induction l1 as [|x l1 IH]; intros [|y l2] H1 H2 Hin.
  - reflexivity.
  - exfalso. apply (proj2 (Hin y)). by left.
  - exfalso. apply (proj1 (Hin x)). by left.
  - apply (ascending_cons keyPath ltb) in H1 as [Hx H1].
    apply (ascending_cons keyPath ltb) in H2 as [Hy H2].
    rewrite Forall_forall in Hx, Hy.
    assert (Hxy : x = y).
    { destruct (proj1 (Hin x) (or_introl eq_refl)) as [->|Hx2]; [reflexivity|].
      destruct (proj2 (Hin y) (or_introl eq_refl)) as [->|Hy1]; [reflexivity|].
      apply list_elem_of_In, Hy in Hx2. apply list_elem_of_In, Hx in Hy1.
      by rewrite (ltb_asymm ltb _ _ Hx2) in Hy1. }
    subst y. f_equal. apply IH; [exact H1|exact H2|].
    intros v. split; intros Hv.
    + destruct (proj1 (Hin v) (or_intror Hv)) as [<-|Hv2]; [|exact Hv2].
      apply list_elem_of_In, Hx in Hv. by rewrite (ltb_irrefl ltb) in Hv.
    + destruct (proj2 (Hin v) (or_intror Hv)) as [<-|Hv1]; [|exact Hv1].
      apply list_elem_of_In, Hy in Hv. by rewrite (ltb_irrefl ltb) in Hv.
Qed.

Lemma store_ext s1 s2 : (forall k, get k s1 = get k s2) -> s1 = s2.
Proof.
  intros Hget. apply store_eq.
  apply ascending_ext; [apply store_ascending..|].
  intros v. change (In v (getAll s1) <-> In v (getAll s2)).
  by rewrite !get_In_iff, Hget.
Qed.

Lemma key_dec (a b : K) : a = b \/ a <> b.
Proof.
  destruct (sameKey ltb a b) eqn:H; [left; by apply (sameKey_eq ltb)|right].
  by apply (sameKey_neq ltb).
Qed.

Lemma put_put s x y : keyPath x = keyPath y -> put x (put y s) = put x s.
Proof.
  intros Hk. apply store_ext. intros k.
  destruct (key_dec k (keyPath x)) as [->|Hne].
  - by rewrite !get_put_same.
  - rewrite !get_put_other by congruence. reflexivity.
Qed.

Lemma put_get s x : get (keyPath x) s = Some x -> put x s = s.
Proof.
  intros Hget. apply store_ext. intros k.
  destruct (key_dec k (keyPath x)) as [->|Hne].
  - by rewrite get_put_same.
  - by rewrite get_put_other.
Qed.

Lemma length_put_records x l :
  ascending keyPath ltb l = true ->
  length (put_records keyPath ltb x l)
  = match get_records keyPath ltb (keyPath x) l with
    | Some _ => length l
    | None => S (length l)
    end.
Proof.
  induction l as [|z l IH]; [reflexivity|].
  intros [Hz Hl]%(ascending_cons keyPath ltb).
  unfold get_records. cbn [List.find put_records]. unfold sameKey at 1.
  destruct (ltb (keyPath x) (keyPath z)) eqn:Hxz.
  - rewrite andb_false_r.
    replace (List.find _ l) with (@None V); [reflexivity|].
    symmetry. apply get_records_None. intros v Hv Heq.
    rewrite Forall_forall in Hz. apply list_elem_of_In, Hz in Hv.
    rewrite Heq in Hv. by rewrite (ltb_asymm ltb _ _ Hxz) in Hv.
  - destruct (ltb (keyPath z) (keyPath x)) eqn:Hzx; cbn [negb andb length].
    + rewrite (IH Hl). unfold get_records. by destruct (List.find _ l).
    + reflexivity.
Qed.


Lemma length_put_missing s x :
  get (keyPath x) s = None -> length (getAll (put x s)) = S (length (getAll s)).
Proof.
  intros Hv. unfold getAll, put. cbn [records].
  rewrite length_put_records by apply store_ascending.
  unfold get in Hv. by rewrite Hv.
Qed.

Lemma getAll_empty : getAll (empty : ObjectStore keyPath ltb) = [].
Proof. reflexivity. Qed.

Lemma getAll_put_empty x :
  getAll (put x (empty : ObjectStore keyPath ltb)) = [x].
Proof. reflexivity. Qed.
End ObjectStoreFacts.

(** ** The store *)

Section StoreFacts.
Import Store.

Lemma getTab_putTab_same tab w :
  getTab (t_tabId tab) (putTab tab w) = Some tab.
Proof. apply (get_put_same t_tabId Z.ltb). Qed.

Lemma getTab_putTab_other tabId tab w :
  tabId <> t_tabId tab -> getTab tabId (putTab tab w) = getTab tabId w.
Proof. apply (get_put_other t_tabId Z.ltb). Qed.

Lemma getProject_putProject_same p w :
  getProject (p_projectId p) (putProject p w) = Some p.
Proof. apply (get_put_same p_projectId String.ltb). Qed.

Lemma getProject_putProject_other projectId p w :
  projectId <> p_projectId p ->
  getProject projectId (putProject p w) = getProject projectId w.
Proof. apply (get_put_other p_projectId String.ltb). Qed.

Lemma getTab_found tabId w tab : getTab tabId w = Some tab -> t_tabId tab = tabId.
Proof. apply (get_Some_key t_tabId Z.ltb). Qed.

Lemma getProject_found projectId w p :
  getProject projectId w = Some p -> p_projectId p = projectId.
Proof. apply (get_Some_key p_projectId String.ltb). Qed.

Lemma getTab_db_tabs tabId w1 w2 :
  db_tabs w1 = db_tabs w2 -> getTab tabId w1 = getTab tabId w2.
Proof. unfold getTab. by intros ->. Qed.

Lemma getProject_db_projects projectId w1 w2 :
  db_projects w1 = db_projects w2 ->
  getProject projectId w1 = getProject projectId w2.
Proof. unfold getProject. by intros ->. Qed.

Lemma getTab_In tabId w tab : getTab tabId w = Some tab -> In tab (getAllTabs w).
Proof. apply (get_Some_In t_tabId Z.ltb). Qed.

Lemma In_getTab w tab : In tab (getAllTabs w) -> getTab (t_tabId tab) w = Some tab.
Proof. apply (In_get t_tabId Z.ltb). Qed.

Lemma getProject_In projectId w p :
  getProject projectId w = Some p -> In p (getAllProjects w).
Proof. apply (get_Some_In p_projectId String.ltb). Qed.


Lemma In_putProject w p q :
  In q (getAllProjects (putProject p w))
  <-> q = p \/ (In q (getAllProjects w) /\ p_projectId q <> p_projectId p).
Proof. apply (In_put p_projectId String.ltb). Qed.

Lemma In_putTab w t u :
  In u (getAllTabs (putTab t w))
  <-> u = t \/ (In u (getAllTabs w) /\ t_tabId u <> t_tabId t).
Proof. apply (In_put t_tabId Z.ltb). Qed.

Lemma world_eq w1 w2 :
  db_tabs w1 = db_tabs w2 -> db_projects w1 = db_projects w2 ->
  activeContexts w1 = activeContexts w2 ->
  tabMetaCache_sets w1 = tabMetaCache_sets w2 ->
  projectCache_sets w1 = projectCache_sets w2 -> w1 = w2.
Proof. destruct w1, w2. cbn. by intros -> -> -> -> ->. Qed.
End StoreFacts.

(** * Properties of the engine *)

(** ** The embedding at work *)

Section Executions.
Import Examples.
Local Open Scope string_scope.

Example extractTokens_sentence :
  Tokens.extractTokens "The Quick-brown fox's  R2_D2 is at (HOME)"
  = ["quick"; "brown"; "fox"; "r2_d2"; "home"].
Proof. vm_compute. reflexivity. Qed.

Example tokenize_page :
  Tokens.tokenize
    {| Tokens.in_url := None;
       Tokens.in_title := Some "Issues - org/repo";
       Tokens.in_h1 := None;
       Tokens.in_meta := None;
       Tokens.in_host := Some "www.github.com";
       Tokens.in_pathTokens := Some ["org"; "my-repo"; "issues"] |}
  = ["www"; "github"; "com"; "org"; "repo"; "issues"; "issues"; "org"; "repo"].
Proof. vm_compute. reflexivity. Qed.

Example split_keeps_empty_fields :
  JS.split "."%char "a..b." = ["a"; ""; "b"; ""].
Proof. reflexivity. Qed.

Example tabDomain_three_labels :
  TabMatcher.tabDomain (mkTab "docs.github.com" [] None None) = "github.com".
Proof. reflexivity. Qed.

Example tabDomain_one_label :
  TabMatcher.tabDomain (mkTab "localhost" [] None None) = "localhost".
Proof. reflexivity. Qed.

Example createSubprojectKey_depth_2 :
  Url.createSubprojectKey "github.com" ["org"; "repo"; "issues"] 2
  = "github.com:org/repo".
Proof. reflexivity. Qed.

(** The sort keeps the order of elements that compare equal. *)
Example sort_is_stable :
  JS.sort (fun a b => (b.1 - a.1 <? 0)%Z)
    [(1, "x"); (3, "a"); (2, "y"); (3, "b"); (1, "z")]%Z
  = [(3, "a"); (3, "b"); (2, "y"); (1, "x"); (1, "z")]%Z.
Proof. reflexivity. Qed.

(** The four stages of candidate narrowing, on a store of three projects:
    [hostProject] is local to [github.com], a second project has a domain
    rule for [example.org], and [bareProject] has no rule. *)
Example narrow_stage_host :
  TabMatcher.narrowCandidates (minutes 60) githubTab
    [bareProject; hostProject; mkProject "D" 0 emptyCentroid [domainRule "example.org"]]
  = [hostProject].
Proof. reflexivity. Qed.

Example narrow_stage_domain :
  TabMatcher.narrowCandidates (minutes 60) (mkTab "www.example.org" [] None None)
    [bareProject; hostProject; mkProject "D" 0 emptyCentroid [domainRule "example.org"]]
  = [mkProject "D" 0 emptyCentroid [domainRule "example.org"]].
Proof. reflexivity. Qed.

Example narrow_stage_recent :
  TabMatcher.narrowCandidates (minutes 60) (mkTab "news.site" [] None None)
    [bareProject;
     mkProject "R1" (minutes 40) emptyCentroid [];
     hostProject;
     mkProject "R2" (minutes 55) emptyCentroid []]
  = [mkProject "R2" (minutes 55) emptyCentroid [];
     mkProject "R1" (minutes 40) emptyCentroid []].
Proof. reflexivity. Qed.

Example narrow_stage_fallback :
  TabMatcher.narrowCandidates (minutes 60) (mkTab "news.site" [] None None)
    [bareProject; hostProject]
  = [bareProject; hostProject].
Proof. reflexivity. Qed.
End Executions.

(** ** The stable sort *)

Section SortFacts.
Context {A : Type} (neg : A -> A -> bool).

Lemma insert_Permutation x l : Permutation (JS.insert neg x l) (x :: l).
Proof.
  induction l as [|y l IH]; simpl; [reflexivity|].
  destruct (neg y x); [|reflexivity].
  rewrite IH. apply perm_swap.
Qed.

Lemma sort_Permutation l : Permutation (JS.sort neg l) l.
Proof.
  induction l as [|x l IH]; simpl; [constructor|].
  rewrite insert_Permutation. by constructor.
Qed.

Hypothesis neg_asym : forall a b, neg a b = true -> neg b a = false.

Lemma insert_HdRel a x l :
  mayPrecede neg a x -> HdRel (mayPrecede neg) a l ->
  HdRel (mayPrecede neg) a (JS.insert neg x l).
Proof.
  intros Hax Hal. destruct l as [|y l]; simpl; [by constructor|].
  inversion Hal; subst. destruct (neg y x); by constructor.
Qed.

Lemma insert_Sorted x l :
  Sorted (mayPrecede neg) l -> Sorted (mayPrecede neg) (JS.insert neg x l).
Proof.
  induction 1 as [|y l Hs IH Hhd]; simpl; [repeat constructor|].
  destruct (neg y x) eqn:Hyx.
  - constructor; [exact IH|]. apply insert_HdRel; [|exact Hhd].
    by apply neg_asym.
  - repeat constructor; assumption.
Qed.

Lemma sort_Sorted l : Sorted (mayPrecede neg) (JS.sort neg l).
Proof.
  induction l as [|x l IH]; simpl; [constructor|]. by apply insert_Sorted.
Qed.
End SortFacts.

Lemma Sorted_weaken {A} (P Q : A -> A -> Prop) (l : list A) :
  (forall a b, P a b -> Q a b) -> Sorted P l -> Sorted Q l.
Proof.
  intros HPQ. induction 1 as [|x l Hs IH Hhd]; constructor; [exact IH|].
  destruct Hhd; constructor; auto.
Qed.

(** A comparator [(a, b) => key(b) - key(a)] sorts by descending key. *)
Lemma sort_desc_R {A} (key : A -> R) (l : list A) :
  StronglySorted (fun a b => (key a >= key b)%R)
    (JS.sort (fun a b => bool_decide (key b - key a < 0)%R) l).
Proof.
  apply Sorted_StronglySorted.
  { intros a b c Hab Hbc. lra. }
  eapply Sorted_weaken; [|apply sort_Sorted].
  - intros a b. unfold mayPrecede. intros H%bool_decide_eq_false. lra.
  - intros a b Hab%bool_decide_eq_true. apply bool_decide_eq_false. lra.
Qed.


(** A boolean filter of the code selects what the proposition it decides
    selects. *)
Lemma List_filter_decide {A} (f : A -> bool) (P : A -> Prop)
    `{forall x, Decision (P x)} (l : list A) :
  (forall x, f x = true <-> P x) -> List.filter f l = filter P l.
Proof.
  intros Hf. induction l as [|x l IH]; [reflexivity|].
  cbn [List.filter]. rewrite filter_cons, IH.
  destruct (f x) eqn:Hfx, (decide (P x)) as [HP|HP]; try reflexivity.
  - exfalso. apply HP, Hf, Hfx.
  - apply Hf in HP. congruence.
Qed.

(** ** The centroid model *)

Section CentroidFacts.
Import Tokens.
Local Open Scope R_scope.

Lemma bump_lookup w m t k :
  get_or_0 (bump w m t) k =
  get_or_0 m k + (if decide (t = k) then w else 0).
Proof.
  unfold bump, get_or_0. destruct (decide (t = k)) as [->|Hne].
  - rewrite lookup_insert_eq. simpl. reflexivity.
  - rewrite lookup_insert_ne by done. lra.
Qed.

Lemma foldl_bump_lookup w l : forall m k,
  get_or_0 (foldl (bump w) m l) k = get_or_0 m k + w * INR (occurrences k l).
Proof.
  induction l as [|t l IH]; intros m k.
  - simpl. lra.
  - cbn [foldl]. rewrite IH, bump_lookup. unfold occurrences. cbn [count_occ].
    destruct (string_dec t k) as [->|Hne].
    + rewrite decide_True by done. rewrite S_INR. lra.
    + rewrite decide_False by done. lra.
Qed.

Lemma bump_is_Some w m t k :
  is_Some (bump w m t !! k) <-> t = k \/ is_Some (m !! k).
Proof.
  unfold bump. destruct (decide (t = k)) as [->|Hne].
  - rewrite lookup_insert_eq. split; eauto.
  - rewrite lookup_insert_ne by done. intuition congruence.
Qed.

Lemma foldl_bump_is_Some w l : forall m k,
  is_Some (foldl (bump w) m l !! k) <-> k ∈ l \/ is_Some (m !! k).
Proof.
  induction l as [|t l IH]; intros m k; cbn [foldl].
  - rewrite elem_of_nil. tauto.
  - rewrite IH, bump_is_Some, elem_of_cons. intuition (subst; auto).
Qed.

(** Two maps with the same keys and the same weights are the same map. *)
Lemma weights_ext (m1 m2 : gmap string R) :
  (forall k, is_Some (m1 !! k) <-> is_Some (m2 !! k)) ->
  (forall k, get_or_0 m1 k = get_or_0 m2 k) ->
  m1 = m2.
Proof.
  intros Hdom Hval. apply map_eq. intros k.
  specialize (Hdom k). specialize (Hval k). unfold get_or_0 in Hval.
  destruct (m1 !! k) as [x|], (m2 !! k) as [y|]; simpl in *.
  - by subst.
  - destruct Hdom as [Hd _]. destruct Hd as [? ?]; [eauto|discriminate].
  - destruct Hdom as [_ Hd]. destruct Hd as [? ?]; [eauto|discriminate].
  - reflexivity.
Qed.
End CentroidFacts.

(** In exact arithmetic [updateCentroid] adds, for every token, the
    update weight times the occurrences of the token in the list, and the
    two orders of application of two updates give the same centroid. *)
Lemma updateCentroid_additive_exact :
  forall (C : TokenCentroid) (T1 T2 : list string) (w1 w2 : R),
    (forall token,
        Tokens.get_or_0 (tokens (Tokens.updateCentroid C T1 w1)) token
        = (Tokens.get_or_0 (tokens C) token + w1 * INR (occurrences token T1))%R)
    /\ totalWeight (Tokens.updateCentroid C T1 w1)
       = (totalWeight C + w1 * INR (length T1))%R
    /\ (forall token,
        Tokens.get_or_0
          (tokens (Tokens.updateCentroid (Tokens.updateCentroid C T1 w1) T2 w2))
          token
        = (Tokens.get_or_0 (tokens C) token
           + w1 * INR (occurrences token T1)
           + w2 * INR (occurrences token T2))%R)
    /\ Tokens.updateCentroid (Tokens.updateCentroid C T1 w1) T2 w2
       = Tokens.updateCentroid (Tokens.updateCentroid C T2 w2) T1 w1.
Proof.
  intros C T1 T2 w1 w2. split; [|split; [|split]].
  - intros token. apply foldl_bump_lookup.
  - reflexivity.
  - intros token. unfold Tokens.updateCentroid. cbn [tokens].
    by rewrite !foldl_bump_lookup.
  - unfold Tokens.updateCentroid. cbn [tokens totalWeight]. f_equal.
    + apply weights_ext; intros k.
      * rewrite !foldl_bump_is_Some. tauto.
      * rewrite !foldl_bump_lookup. lra.
    + lra.
Qed.

(** ** Similarity measures *)

Section SimilarityFacts.
Import Tokens.
Local Open Scope R_scope.

Variable S : gset string.

Lemma cosine_fold l :
  foldr
    (uncurry (fun (token : string) (weight : R) '(dotProduct, centroidMag) =>
       (if decide (token ∈ S) then dotProduct + weight else dotProduct,
        centroidMag + weight * weight)))
    (0, 0) l
  = (dotL S l, magL l).
Proof.
  induction l as [|[k w] l IH]; [reflexivity|].
  cbn [foldr uncurry]. rewrite IH. reflexivity.
Qed.

Lemma jaccard_fold l :
  foldr
    (uncurry (fun (token : string) (_ : R) (intersection : nat) =>
       if decide (token ∈ S) then Datatypes.S intersection else intersection))
    0%nat l
  = cntL S l.
Proof.
  induction l as [|[k w] l IH]; [reflexivity|].
  cbn [foldr uncurry]. rewrite IH. reflexivity.
Qed.

Lemma magL_nonneg l : 0 <= magL l.
Proof.
  induction l as [|[k w] l IH]; simpl; [lra|]. nra.
Qed.

Lemma dotL_nonneg l :
  Forall (fun kw => 0 <= kw.2) l -> 0 <= dotL S l.
Proof.
  induction 1 as [|[k w] l Hw Hl IH]; simpl in *; [lra|].
  destruct (decide (k ∈ S)); lra.
Qed.

(** Cauchy-Schwarz for the entries selected by [S]. *)
Lemma dotL_sqr_bound l : dotL S l * dotL S l <= INR (cntL S l) * magL l.
Proof.
  induction l as [|[k w] l IH]; simpl; [lra|].
  pose proof (magL_nonneg l) as HM.
  pose proof (pos_INR (cntL S l)) as Hn.
  destruct (decide (k ∈ S)); [|nra].
  rewrite S_INR.
  set (n := INR (cntL S l)) in *. set (D := dotL S l) in *. set (M := magL l) in *.
  assert (Hcross : 2 * D * w <= n * (w * w) + M).
  { destruct (Req_dec n 0) as [Hz|Hnz].
    - assert (D = 0) by nra. subst D. nra.
    - assert (0 < n) by lra.
      assert (2 * n * D * w <= n * n * (w * w) + n * M).
      { pose proof (Rle_0_sqr (n * w - D)) as Hsq. unfold Rsqr in Hsq. nra. }
      apply Rmult_le_reg_l with n; [assumption|]. nra. }
  nra.
Qed.

Lemma cntL_filter l : cntL S l = length (filter (fun k => k ∈ S) (l.*1)).
Proof.
  induction l as [|[k w] l IH]; [reflexivity|].
  cbn [cntL fmap list_fmap fst]. rewrite filter_cons. cbn [fst].
  destruct (decide (k ∈ S)); simpl; by rewrite IH.
Qed.

Lemma cntL_le_length l : (cntL S l <= length l)%nat.
Proof.
  rewrite cntL_filter. etrans; [apply length_filter|]. by rewrite length_fmap.
Qed.

Lemma cntL_le_size l : NoDup (l.*1) -> (cntL S l <= size S)%nat.
Proof.
  intros Hnd. rewrite cntL_filter. unfold size, set_size. simpl.
  apply submseteq_length, NoDup_submseteq.
  - by apply NoDup_filter.
  - intros k [Hk _]%list_elem_of_filter. by apply elem_of_elements.
Qed.
End SimilarityFacts.

Lemma size_list_to_set_le (l : list string) :
  (size (list_to_set l : gset string) <= length l)%nat.
Proof.
  unfold size, set_size. simpl.
  apply submseteq_length, NoDup_submseteq; [apply NoDup_elements|].
  intros k Hk%elem_of_elements. by apply elem_of_list_to_set in Hk.
Qed.

Section SimilarityBounds.
Import Tokens.
Local Open Scope R_scope.

Lemma cosineSimilarity_unfold C T :
  cosineSimilarity C T =
  if decide (size (tokens C) = 0%nat \/ length T = 0%nat) then 0
  else
    let l := map_to_list (tokens C) in
    let S : gset string := list_to_set T in
    if decide (sqrt (magL l) = 0 \/ sqrt (INR (length T)) = 0) then 0
    else dotL S l / (sqrt (magL l) * sqrt (INR (length T))).
Proof.
  unfold cosineSimilarity. case_decide; [reflexivity|].
  rewrite map_fold_foldr, cosine_fold. reflexivity.
Qed.

Lemma jaccardSimilarity_unfold C T :
  jaccardSimilarity C T =
  if decide (size (tokens C) = 0%nat \/ length T = 0%nat) then 0
  else
    let l := map_to_list (tokens C) in
    let S : gset string := list_to_set T in
    let union := INR (size (tokens C)) + INR (size S) - INR (cntL S l) in
    if decide (union = 0) then 0 else INR (cntL S l) / union.
Proof.
  unfold jaccardSimilarity. case_decide; [reflexivity|].
  rewrite map_fold_foldr, jaccard_fold. reflexivity.
Qed.

Lemma cosineSimilarity_le_1 C T : cosineSimilarity C T <= 1.
Proof.
  rewrite cosineSimilarity_unfold. case_decide; [lra|]. cbv zeta.
  case_decide as Hz; [lra|].
  set (l := map_to_list (tokens C)). set (S := list_to_set T : gset string).
  pose proof (magL_nonneg l) as HM.
  pose proof (pos_INR (length T)) as HT.
  pose proof (sqrt_pos (magL l)) as HsM.
  pose proof (sqrt_pos (INR (length T))) as HsT.
  assert (Hden : 0 < sqrt (magL l) * sqrt (INR (length T))).
  { apply Rmult_lt_0_compat.
    - destruct (Req_dec (sqrt (magL l)) 0); [tauto|lra].
    - destruct (Req_dec (sqrt (INR (length T))) 0); [tauto|lra]. }
  apply Rmult_le_reg_r with (sqrt (magL l) * sqrt (INR (length T))); [exact Hden|].
  unfold Rdiv. rewrite Rmult_assoc, Rinv_l by lra. rewrite Rmult_1_r, Rmult_1_l.
  rewrite <- sqrt_mult by assumption.
  destruct (Rle_dec (dotL S l) 0) as [Hneg|Hpos].
  { pose proof (sqrt_pos (magL l * INR (length T))). lra. }
  rewrite <- (sqrt_square (dotL S l)) by lra.
  apply sqrt_le_1_alt.
  pose proof (dotL_sqr_bound S l) as Hcs.
  assert (Hcnt : INR (cntL S l) <= INR (length T)).
  { apply le_INR. etrans; [apply cntL_le_size, NoDup_fst_map_to_list|].
    apply size_list_to_set_le. }
  nra.
Qed.

Lemma cosineSimilarity_nonneg C T :
  map_Forall (fun _ w => 0 <= w) (tokens C) -> 0 <= cosineSimilarity C T.
Proof.
  intros Hw. rewrite cosineSimilarity_unfold. case_decide; [lra|]. cbv zeta.
  case_decide as Hz; [lra|].
  set (l := map_to_list (tokens C)). set (S := list_to_set T : gset string).
  pose proof (sqrt_pos (magL l)) as HsM.
  pose proof (sqrt_pos (INR (length T))) as HsT.
  assert (Hden : 0 < sqrt (magL l) * sqrt (INR (length T))).
  { apply Rmult_lt_0_compat.
    - destruct (Req_dec (sqrt (magL l)) 0); [tauto|lra].
    - destruct (Req_dec (sqrt (INR (length T))) 0); [tauto|lra]. }
  apply Rmult_le_reg_r with (sqrt (magL l) * sqrt (INR (length T))); [exact Hden|].
  unfold Rdiv. rewrite Rmult_assoc, Rinv_l by lra. rewrite Rmult_1_r, Rmult_0_l.
  apply dotL_nonneg. apply Forall_forall. intros [k w] Hin. simpl.
  apply (Hw k). by apply elem_of_map_to_list.
Qed.

Lemma jaccardSimilarity_bounds C T : 0 <= jaccardSimilarity C T <= 1.
Proof.
  rewrite jaccardSimilarity_unfold. case_decide; [lra|]. cbv zeta.
  set (l := map_to_list (tokens C)). set (S := list_to_set T : gset string).
  assert (H1 : INR (cntL S l) <= INR (size (tokens C))).
  { apply le_INR. unfold l. rewrite <- length_map_to_list. apply cntL_le_length. }
  assert (H2 : INR (cntL S l) <= INR (size S)).
  { apply le_INR. apply cntL_le_size, NoDup_fst_map_to_list. }
  pose proof (pos_INR (cntL S l)) as H3.
  case_decide as Hu; [lra|].
  set (u := INR (size (tokens C)) + INR (size S) - INR (cntL S l)) in *.
  assert (Hupos : 0 < u) by (unfold u in *; lra).
  split.
  - apply Rmult_le_reg_r with u; [exact Hupos|].
    unfold Rdiv. rewrite Rmult_assoc, Rinv_l by lra. lra.
  - apply Rmult_le_reg_r with u; [exact Hupos|].
    unfold Rdiv. rewrite Rmult_assoc, Rinv_l by lra. unfold u. lra.
Qed.

Lemma weightedTokenSimilarity_le_1 C T : weightedTokenSimilarity C T <= 1.
Proof.
  unfold weightedTokenSimilarity. cbv zeta.
  pose proof (cosineSimilarity_le_1 C T).
  pose proof (jaccardSimilarity_bounds C T). lra.
Qed.

Lemma weightedTokenSimilarity_empty C T :
  size (tokens C) = 0%nat \/ T = [] -> weightedTokenSimilarity C T = 0.
Proof.
  intros He. unfold weightedTokenSimilarity, cosineSimilarity, jaccardSimilarity.
  assert (Hd : size (tokens C) = 0%nat \/ length T = 0%nat).
  { destruct He as [?| ->]; [by left|by right]. }
  rewrite !decide_True by exact Hd. lra.
Qed.
End SimilarityBounds.

(** In exact arithmetic the blended similarity of a centroid with
    non-negative weights lies between 0 and 1. *)
Lemma weightedTokenSimilarity_exact :
  forall (C : TokenCentroid) (T : list string),
    (forall token w, tokens C !! token = Some w -> (0 <= w)%R) ->
    Tokens.weightedTokenSimilarity C T
    = (0.6 * Tokens.cosineSimilarity C T + 0.4 * Tokens.jaccardSimilarity C T)%R
    /\ (0 <= Tokens.weightedTokenSimilarity C T <= 1)%R
    /\ (size (tokens C) = 0%nat \/ T = [] ->
        Tokens.weightedTokenSimilarity C T = 0%R).
Proof.
  intros C T Hw. split; [reflexivity|]. split.
  - split; [|apply weightedTokenSimilarity_le_1].
    unfold Tokens.weightedTokenSimilarity. cbv zeta.
    pose proof (cosineSimilarity_nonneg C T Hw).
    pose proof (jaccardSimilarity_bounds C T). lra.
  - apply weightedTokenSimilarity_empty.
Qed.

(** ** The centroid model in binary64 *)

Section Binary64Facts.
Import PrimFloat Binary64.
#[local] Set Warnings "-inexact-float".
Local Open Scope float_scope.

Lemma Map_get_set_same m key value : Map_get (Map_set m key value) key = Some value.
Proof.
  unfold Map_get. induction m as [|[k v] m IH]; cbn [Map_set List.find fst].
  - by rewrite String.eqb_refl.
  - destruct (String.eqb k key) eqn:Hk; cbn [List.find fst]; rewrite Hk; [done|].
    exact IH.
Qed.

Lemma Map_get_set_other m key value key' :
  key' <> key -> Map_get (Map_set m key value) key' = Map_get m key'.
Proof.
  intros Hne. unfold Map_get.
  induction m as [|[k v] m IH]; cbn [Map_set List.find fst].
  - by rewrite (proj2 (String.eqb_neq key key')).
  - destruct (String.eqb_spec k key) as [->|Hk]; cbn [List.find fst].
    + by rewrite (proj2 (String.eqb_neq key key')).
    + destruct (String.eqb k key'); [reflexivity|exact IH].
Qed.

Lemma Map_set_keys m key value :
  (Map_set m key value).*1
  = if decide (key ∈ m.*1) then m.*1 else m.*1 ++ [key].
Proof.
  induction m as [|[key' value'] m IH]; [reflexivity|]. cbn [Map_set].
  destruct (String.eqb_spec key' key) as [->|Hne].
  - rewrite decide_True by (cbn; left). reflexivity.
  - cbn [fmap list_fmap fst]. change (list_fmap _ _ fst ?l) with (l.*1).
    rewrite IH. destruct (decide (key ∈ m.*1)) as [Hin|Hnin].
    + rewrite decide_True by (by right). reflexivity.
    + rewrite decide_False; [reflexivity|].
      intros [?|?]%elem_of_cons; congruence.
Qed.

Lemma Map_set_NoDup m key value :
  NoDup m.*1 -> NoDup (Map_set m key value).*1.
Proof.
  intros Hm. rewrite Map_set_keys. destruct (decide (key ∈ m.*1)); [exact Hm|].
  apply NoDup_app. split; [exact Hm|]. split; [|apply NoDup_singleton].
  intros x Hx ->%list_elem_of_singleton. contradiction.
Qed.

Lemma addTimes_succ_r n w x :
  addTimes (S n) w x = addTimes n w (Some (or0 x + w)).
Proof. unfold addTimes. by rewrite Nat.iter_succ_r. Qed.

Lemma foldl_bump_get w T : forall m token,
  Map_get (foldl (bump w) m T) token
  = addTimes (occurrences token T) w (Map_get m token).
Proof.
  unfold occurrences.
  induction T as [|t T IH]; intros m token; [reflexivity|].
  cbn [foldl count_occ]. rewrite IH. unfold bump at 1.
  destruct (string_dec t token) as [->|Hne].
  - by rewrite Map_get_set_same, addTimes_succ_r.
  - by rewrite Map_get_set_other by congruence.
Qed.

Lemma addTimes_is_Some n w x :
  is_Some (addTimes n w x) <-> (0 < n)%nat \/ is_Some x.
Proof.
  destruct n as [|n].
  - cbn. split; [by right|]. intros [?|?]; [lia|done].
  - unfold addTimes. cbn [Nat.iter]. split; [intros _; left; lia|by eexists].
Qed.
Lemma createCentroid_inner64 w T : forall tc tw,
  foldl (fun '(tc, tw) token => (bump w tc token, tw + w)) (tc, tw) T
  = (foldl (bump w) tc T, foldl (fun tw (_ : string) => tw + w) tw T).
Proof.
  induction T as [|t T IH]; intros tc tw; [reflexivity|].
  cbn [foldl]. apply IH.
Qed.

Lemma createCentroid_outer64 weights arrays : forall tc tw idx,
  exists tc' tw' idx',
    foldl
      (fun (acc : Map * float * nat) (tokens : list string) =>
         let '(tokenCounts, totalWeight, idx) := acc in
         let weight := default 1 (weights ≫= (fun ws => ws !! idx)) in
         let '(tokenCounts', totalWeight') :=
           foldl (fun '(tc, tw) token => (bump weight tc token, tw + weight))
                 (tokenCounts, totalWeight) tokens in
         (tokenCounts', totalWeight', S idx))
      (tc, tw, idx) arrays
    = (tc', tw', idx')
    /\ forall token,
         Map_get tc' token = addLists token weights idx arrays (Map_get tc token).
Proof.
  induction arrays as [|T arrays IH]; intros tc tw idx.
  - exists tc, tw, idx. by split.
  - cbn [foldl]. rewrite createCentroid_inner64.
    destruct (IH (foldl (bump (default 1 (weights ≫= (fun ws => ws !! idx)))) tc T)
                 (foldl (fun tw (_ : string) =>
                           tw + default 1 (weights ≫= (fun ws => ws !! idx)))
                        tw T)
                 (S idx))
      as (tc' & tw' & idx' & Heq & Hget).
    exists tc', tw', idx'. split; [exact Heq|].
    intros token. rewrite Hget, foldl_bump_get. reflexivity.
Qed.

Lemma addLists_is_Some token weights arrays : forall idx x,
  is_Some (addLists token weights idx arrays x)
  <-> is_Some x \/ Exists (fun T => In token T) arrays.
Proof.
  induction arrays as [|T arrays IH]; intros idx x; cbn [addLists].
  - rewrite Exists_nil. tauto.
  - rewrite IH, addTimes_is_Some, Exists_cons. unfold occurrences.
    rewrite (count_occ_In string_dec T token). unfold gt. tauto.
Qed.
End Binary64Facts.

Section Binary64Claims.
Import PrimFloat Binary64.
#[local] Set Warnings "-inexact-float".
Local Open Scope float_scope.

(** C3, as stated, fails on the numbers of the program.  Ten additions
    of 0.1 to an absent entry do not give [0 + 0.1 * 10]; and the update
    with [a] at 0.1 followed by the update with [a; a; a] at 0.2 leaves
    [a] a weight below the one that the two updates leave in the other
    order. *)
Lemma updateCentroid_additive_counterexample :
  Map_get
    (tokens (updateCentroid Examples64.emptyCentroid (replicate 10 "a"%string) 0.1))
    "a"%string
  <> Some (or0 (Map_get (tokens Examples64.emptyCentroid) "a"%string)
           + 0.1 * ofNat 10)
  /\ updateCentroid
       (updateCentroid Examples64.emptyCentroid ["a"%string] 0.1)
       ["a"%string; "a"%string; "a"%string] 0.2
     <> updateCentroid
          (updateCentroid Examples64.emptyCentroid
             ["a"%string; "a"%string; "a"%string] 0.2)
          ["a"%string] 0.1.
Proof.
  split.
  - intros H.
    apply (f_equal (fun x => match x with
                             | Some x => ltb x 1
                             | None => false
                             end)) in H.
    vm_compute in H. discriminate H.
  - intros H.
    apply (f_equal (fun C => match Map_get (tokens C) "a"%string with
                             | Some x => ltb x 0.7000000000000001
                             | None => false
                             end)) in H.
    vm_compute in H. discriminate H.
Qed.

(** C3, amended.  [updateCentroid] adds the update weight to the entry
    of a token once for every occurrence of the token in the list, each
    time to what [|| 0] reads of the entry, and adds the weight times the
    length of the list to the total weight; after two updates a token
    has had the first weight added once for each of its occurrences in
    the first list and then the second weight once for each of its
    occurrences in the second.  Two updates applied in either order leave
    the same tokens in the centroid, and the same weight on every token
    that occurs in at most one of the two lists. *)
Theorem updateCentroid_accumulates :
  forall (C : TokenCentroid) (T1 T2 : list string) (w1 w2 : float),
    (forall token,
        Map_get (tokens (updateCentroid C T1 w1)) token
        = addTimes (occurrences token T1) w1 (Map_get (tokens C) token))
    /\ totalWeight (updateCentroid C T1 w1)
       = totalWeight C + w1 * ofNat (length T1)
    /\ (forall token,
          Map_get (tokens (updateCentroid (updateCentroid C T1 w1) T2 w2)) token
          = addTimes (occurrences token T2) w2
              (addTimes (occurrences token T1) w1 (Map_get (tokens C) token)))
    /\ (forall token,
          is_Some (Map_get (tokens (updateCentroid (updateCentroid C T1 w1) T2 w2))
                           token)
          <-> is_Some (Map_get
                         (tokens (updateCentroid (updateCentroid C T2 w2) T1 w1))
                         token))
    /\ (forall token,
          occurrences token T1 = 0%nat \/ occurrences token T2 = 0%nat ->
          Map_get (tokens (updateCentroid (updateCentroid C T1 w1) T2 w2)) token
          = Map_get (tokens (updateCentroid (updateCentroid C T2 w2) T1 w1)) token).
Proof.
  intros C T1 T2 w1 w2. split; [|split; [|split; [|split]]].
  - intros token. apply foldl_bump_get.
  - reflexivity.
  - intros token. unfold updateCentroid. cbn [tokens].
    by rewrite !foldl_bump_get.
  - intros token. unfold updateCentroid. cbn [tokens].
    rewrite !foldl_bump_get, !addTimes_is_Some. tauto.
  - intros token Hocc. unfold updateCentroid. cbn [tokens].
    rewrite !foldl_bump_get. by destruct Hocc as [-> | ->].
Qed.



(** X5.  [createCentroid] adds to the entry of a token, list by list and
    in each list once for every occurrence of the token, the weight of
    the list, each time to what [|| 0] reads of the entry; an absent
    weight counts as 1.  The tokens of the centroid are the tokens of the
    lists, and the entries of the centroid built from one list without
    weights are those of the empty centroid updated with the list at
    weight 1. *)
Theorem createCentroid_accumulates :
  forall (arrays : list (list string)) (weights : option (list float)),
    (forall token,
        Map_get (tokens (createCentroid arrays weights)) token
        = addLists token weights 0 arrays None)
    /\ (forall token,
          is_Some (Map_get (tokens (createCentroid arrays weights)) token)
          <-> Exists (fun T => In token T) arrays)
    /\ (forall T,
          tokens (createCentroid [T] None)
          = tokens (updateCentroid Examples64.emptyCentroid T 1)).
Proof.
  intros arrays weights.
  assert (Hget : forall token,
             Map_get (tokens (createCentroid arrays weights)) token
             = addLists token weights 0 arrays None).
  { intros token. unfold createCentroid. cbv zeta.
    destruct (createCentroid_outer64 weights arrays [] 0 0%nat)
      as (tc' & tw' & idx' & Heq & Hget).
    match goal with
    | |- context [foldl ?f ?a arrays] =>
        replace (foldl f a arrays) with (tc', tw', idx')
          by (symmetry; exact Heq)
    end.
    cbn [tokens]. apply Hget. }
  split; [exact Hget|]. split.
  - intros token. rewrite Hget, addLists_is_Some. split; [|by right].
    intros [[x [=]]|H]; exact H.
  - intros T. unfold createCentroid, updateCentroid. cbn [foldl].
    rewrite createCentroid_inner64. reflexivity.
Qed.

End Binary64Claims.

(** ** The scorer *)

Section ScorerFacts.
Import TabMatcher.
Local Open Scope R_scope.

Lemma score_is_rawScore now tab p ctx :
  score (scoreTabForProject DEFAULT_MATCHER_CONFIG now tab p ctx)
  = rawScore (breakdown (scoreTabForProject DEFAULT_MATCHER_CONFIG now tab p ctx)).
Proof. reflexivity. Qed.

(** A host rule decides the host score when no matching domain rule
    stands before it. *)
Lemma scoreHostMatch_rules_host_first tab pre r post :
  r_type r = RHost -> r_value r = t_host tab ->
  (forall r', In r' pre ->
              ~ (r_type r' = RDomain /\ r_value r' = tabDomain tab)) ->
  scoreHostMatch_rules tab (pre ++ r :: post) = Some 1.0.
Proof.
  intros Hty Hval. induction pre as [|r' pre IH]; intros Hpre.
  - cbn [app scoreHostMatch_rules].
    rewrite bool_decide_eq_true_2 by exact Hty.
    rewrite Hval, String.eqb_refl. reflexivity.
  - cbn [app scoreHostMatch_rules].
    destruct (bool_decide (r_type r' = RHost) && (t_host tab =? r_value r')%string);
      [reflexivity|].
    destruct (bool_decide (r_type r' = RDomain)
              && (tabDomain tab =? r_value r')%string) eqn:Hdom.
    + apply andb_prop in Hdom as [Hd1 Hd2].
      apply bool_decide_eq_true in Hd1. apply String.eqb_eq in Hd2.
      exfalso. apply (Hpre r'); [by left|]. by split.
    + apply IH. intros r'' Hin. apply Hpre. by right.
Qed.

(** A domain rule decides the host score when no matching host rule
    stands before it. *)
Lemma scoreHostMatch_rules_domain_first tab pre d post :
  r_type d = RDomain -> r_value d = tabDomain tab ->
  (forall r', In r' pre ->
              ~ (r_type r' = RHost /\ r_value r' = t_host tab)) ->
  scoreHostMatch_rules tab (pre ++ d :: post) = Some 0.8.
Proof.
  intros Hty Hval. induction pre as [|r' pre IH]; intros Hpre.
  - cbn [app scoreHostMatch_rules]. rewrite Hty.
    rewrite bool_decide_eq_false_2 by discriminate. cbn [andb].
    rewrite bool_decide_eq_true_2 by reflexivity.
    rewrite Hval, String.eqb_refl. reflexivity.
  - cbn [app scoreHostMatch_rules].
    destruct (bool_decide (r_type r' = RHost)
              && (t_host tab =? r_value r')%string) eqn:Hhost.
    + apply andb_prop in Hhost as [Hh1 Hh2].
      apply bool_decide_eq_true in Hh1. apply String.eqb_eq in Hh2.
      exfalso. apply (Hpre r'); [by left|]. by split.
    + destruct (bool_decide (r_type r' = RDomain)
                && (tabDomain tab =? r_value r')%string); [reflexivity|].
      apply IH. intros r'' Hin. apply Hpre. by right.
Qed.

Lemma scoreHostMatch_rules_spec tab rules :
  match scoreHostMatch_rules tab rules with
  | Some s =>
      (s = 1.0 \/ s = 0.8)
      /\ (Exists (fun r => r_type r = RHost /\ r_value r = t_host tab) rules
          \/ Exists (fun r => r_type r = RDomain /\ r_value r = tabDomain tab) rules)
  | None =>
      ~ Exists (fun r => r_type r = RHost /\ r_value r = t_host tab) rules
      /\ ~ Exists (fun r => r_type r = RDomain /\ r_value r = tabDomain tab) rules
  end.
Proof.
  induction rules as [|r rules IH]; cbn [scoreHostMatch_rules].
  - split; intros H; inversion H.
  - destruct (bool_decide (r_type r = RHost) && (t_host tab =? r_value r)%string)
      eqn:Hh.
    { apply andb_true_iff in Hh as [Ht Hv%String.eqb_eq].
      apply bool_decide_eq_true in Ht.
      split; [by left|]. left. by constructor. }
    destruct (bool_decide (r_type r = RDomain)
              && (tabDomain tab =? r_value r)%string) eqn:Hd.
    { apply andb_true_iff in Hd as [Ht Hv%String.eqb_eq].
      apply bool_decide_eq_true in Ht.
      split; [by right|]. right. by constructor. }
    assert (Hnh : ~ (r_type r = RHost /\ r_value r = t_host tab)).
    { intros [Ht Hv]. apply andb_false_iff in Hh as [Hh|Hh].
      - by apply bool_decide_eq_false in Hh.
      - apply String.eqb_neq in Hh. by apply Hh. }
    assert (Hnd : ~ (r_type r = RDomain /\ r_value r = tabDomain tab)).
    { intros [Ht Hv]. apply andb_false_iff in Hd as [Hd|Hd].
      - by apply bool_decide_eq_false in Hd.
      - apply String.eqb_neq in Hd. by apply Hd. }
    destruct (scoreHostMatch_rules tab rules) as [s|].
    + destruct IH as [Hs [He|He]]; (split; [exact Hs|]);
        [left|right]; by apply Exists_cons_tl.
    + destruct IH as [H1 H2]. rewrite !Exists_cons. tauto.
Qed.
End ScorerFacts.

Section ScorerEquations.
Import TabMatcher.
Local Open Scope R_scope.

Lemma breakdown_eq cfg now tab p ctx :
  breakdown (scoreTabForProject cfg now tab p ctx)
  = {| hostMatch := scoreHostMatch tab p;
       pathMatch := scorePathMatch tab p;
       tokenSimilarity := scoreTokenSimilarity tab p;
       chainProximity := scoreChainProximity tab p ctx;
       recencyBoost := scoreRecencyBoost now p ctx |}.
Proof. reflexivity. Qed.

Lemma score_eq now tab p ctx :
  score (scoreTabForProject DEFAULT_MATCHER_CONFIG now tab p ctx)
  = 3.0 * scoreHostMatch tab p + 2.0 * scorePathMatch tab p
    + 1.5 * scoreTokenSimilarity tab p + 2.0 * scoreChainProximity tab p ctx
    + 1.0 * scoreRecencyBoost now p ctx.
Proof. reflexivity. Qed.

Lemma scoreTokenSimilarity_empty_centroid tab p :
  size (tokens (p_centroid p)) = 0%nat -> scoreTokenSimilarity tab p = 0.
Proof.
  intros He. unfold scoreTokenSimilarity.
  apply weightedTokenSimilarity_empty. by left.
Qed.

(** The minute thresholds of the recency step, on integral milliseconds. *)
Lemma minutes_lt (elapsed k : Z) :
  IZR elapsed / (1000 * 60) < IZR k <-> (elapsed < k * 60000)%Z.
Proof.
  split.
  - intros H. apply lt_IZR. rewrite mult_IZR.
    apply Rmult_lt_compat_r with (r := 1000 * 60) in H; [|lra].
    unfold Rdiv in H. rewrite Rmult_assoc, Rinv_l, Rmult_1_r in H by lra. lra.
  - intros H. apply IZR_lt in H. rewrite mult_IZR in H.
    apply Rmult_lt_reg_r with (1000 * 60); [lra|].
    unfold Rdiv. rewrite Rmult_assoc, Rinv_l, Rmult_1_r by lra. lra.
Qed.

Lemma minutes_lt_bool (elapsed k : Z) :
  bool_decide (IZR elapsed / (1000 * 60) < IZR k) = (elapsed <? k * 60000)%Z.
Proof.
  destruct (Z.ltb_spec elapsed (k * 60000)) as [H|H].
  - apply bool_decide_eq_true_2. by apply minutes_lt.
  - apply bool_decide_eq_false_2. rewrite minutes_lt. lia.
Qed.

Lemma scoreRecencyBoost_band now p c :
  ctx_activeProjectId c <> Some (p_projectId p) ->
  scoreRecencyBoost now p (Some c)
  = bandBoost (recencyBand (now - p_lastActiveAt p)).
Proof.
  intros Hna. unfold scoreRecencyBoost, recencyBand.
  rewrite bool_decide_eq_false_2 by exact Hna. cbv zeta.
  rewrite !minutes_lt_bool.
  destruct (_ <? 5 * 60000)%Z; [reflexivity|].
  destruct (_ <? 15 * 60000)%Z; [reflexivity|].
  destruct (_ <? 30 * 60000)%Z; reflexivity.
Qed.

Lemma scoreRecencyBoost_active now p c :
  ctx_activeProjectId c = Some (p_projectId p) ->
  scoreRecencyBoost now p (Some c) = 1.0.
Proof.
  intros Ha. unfold scoreRecencyBoost. by rewrite bool_decide_eq_true_2.
Qed.

Lemma scoreAllProjects_single now tab p ctx :
  score (scoreTabForProject DEFAULT_MATCHER_CONFIG now tab p ctx) >= 0.3 ->
  scoreAllProjects DEFAULT_MATCHER_CONFIG now tab [p] ctx
  = [scoreTabForProject DEFAULT_MATCHER_CONFIG now tab p ctx].
Proof.
  intros Hs. unfold scoreAllProjects. cbn [List.map List.filter minThreshold DEFAULT_MATCHER_CONFIG].
  rewrite bool_decide_eq_true_2 by exact Hs. reflexivity.
Qed.
End ScorerEquations.

(** ** The orchestrator *)

Section OrchestratorFacts.
Import Store Core.
Local Open Scope R_scope.

Lemma manual_guard_skip {X} (tab : TabMeta) (A : string -> X) (B : X) :
  ~ isManual tab ->
  match t_manuallyAssigned tab, Tokens.truthy (t_projectId tab) with
  | Some true, Some projectId => A projectId
  | _, _ => B
  end = B.
Proof.
  intros Hnm. destruct (t_manuallyAssigned tab) as [[|]|] eqn:Hm; try reflexivity.
  destruct (t_projectId tab) as [[|c s]|] eqn:Hp; try reflexivity.
  exfalso. apply Hnm. split; [exact Hm|]. exists (String c s). by split.
Qed.

Lemma manual_guard_take {X} (tab : TabMeta) (A : string -> X) (B : X) projectId :
  t_manuallyAssigned tab = Some true ->
  t_projectId tab = Some projectId -> projectId <> EmptyString ->
  match t_manuallyAssigned tab, Tokens.truthy (t_projectId tab) with
  | Some true, Some projectId => A projectId
  | _, _ => B
  end = A projectId.
Proof.
  intros -> -> Hne. destruct projectId; [contradiction|reflexivity].
Qed.

Lemma assignDefault_assignment env tab w :
  ta_method (assignDefault env tab w).1.1 = MDefault
  /\ ta_confidence (assignDefault env tab w).1.1 = 1.0.
Proof. split; reflexivity. Qed.

(** What a run returns once the manual guard is passed. *)
Lemma assign_scored env tab windowId w :
  ~ isManual tab ->
  let a := (assignTabToProject env tab windowId w).1.1 in
  match getAllProjects w, bestMatchOfRun env tab windowId w with
  | [], _ | _, None => ta_method a = MDefault /\ ta_confidence a = 1.0
  | _ :: _, Some bm =>
      if decide (score bm > 0.5) then
        a = {| ta_tabId := t_tabId tab;
               ta_projectId := sr_projectId bm;
               ta_subprojectId := sr_subprojectId bm;
               ta_confidence := score bm;
               ta_method := if decide (score bm > 0.8)
                            then MDeterministic else MSemantic |}
      else ta_method a = MDefault /\ ta_confidence a = 1.0
  end.
Proof.
  intros Hnm a. subst a. unfold assignTabToProject.
  rewrite manual_guard_skip by exact Hnm.
  unfold bestMatchOfRun.
  destruct (getAllProjects w) as [|p ps] eqn:Hps.
  { cbn [length Nat.eqb]. apply assignDefault_assignment. }
  cbn [length Nat.eqb].
  unfold ContextTracker.updateContext. cbn [fst].
  match goal with
  | |- context [TabMatcher.getBestMatch ?c ?n ?t ?l ?x] =>
      destruct (TabMatcher.getBestMatch c n t l x) as [bm|]
  end; [|apply assignDefault_assignment].
  rewrite (decide_bool_decide (score bm > 0.5)).
  destruct (bool_decide (score bm > 0.5)); [|apply assignDefault_assignment].
  cbn [fst]. rewrite (decide_bool_decide (score bm > 0.8)). reflexivity.
Qed.
End OrchestratorFacts.

(** ** Worked examples *)

Section WorkedExamples.
Import TabMatcher Store Core Examples.
Local Open Scope R_scope.

Lemma hostProject_score now c :
  ctx_activeProjectId c = None -> ctx_recentTabs c = [] ->
  (30 * 60000 <= now)%Z ->
  score (scoreTabForProject DEFAULT_MATCHER_CONFIG now githubTab hostProject (Some c))
  = 3.0.
Proof.
  intros Ha Hr Hnow. rewrite score_eq.
  rewrite scoreTokenSimilarity_empty_centroid by reflexivity.
  rewrite scoreRecencyBoost_band by (rewrite Ha; discriminate).
  replace (scoreHostMatch githubTab hostProject) with 1.0 by reflexivity.
  replace (scorePathMatch githubTab hostProject) with 0 by reflexivity.
  replace (scoreChainProximity githubTab hostProject (Some c)) with 0.
  2:{ unfold scoreChainProximity. rewrite Ha, Hr. reflexivity. }
  replace (recencyBand (now - p_lastActiveAt hostProject)) with 3%nat.
  2:{ unfold recencyBand. cbn [p_lastActiveAt hostProject mkProject].
      rewrite Z.sub_0_r.
      destruct (Z.ltb_spec now (5 * 60000)); [lia|].
      destruct (Z.ltb_spec now (15 * 60000)); [lia|].
      destruct (Z.ltb_spec now (30 * 60000)); [lia|reflexivity]. }
  cbn [bandBoost]. lra.
Qed.

(** A run on a store that holds [hostProject]: the host rule alone
    makes the project the best match. *)
Lemma hostProject_run_bestMatch :
  bestMatchOfRun (envAt (minutes 60)) githubTab 1 (worldWith hostProject)
  = Some (scoreTabForProject DEFAULT_MATCHER_CONFIG (minutes 60) githubTab
            hostProject (Some (runContext (minutes 60)))).
Proof.
  unfold bestMatchOfRun, getBestMatch.
  change (ContextTracker.updateContext (now_context (envAt (minutes 60))) 1
            githubTab (worldWith hostProject)).1
    with (runContext (minutes 60)).
  change (narrowCandidates (now_match (envAt (minutes 60))) githubTab
            (getAllProjects (worldWith hostProject)))
    with [hostProject].
  change (now_match (envAt (minutes 60))) with (minutes 60).
  rewrite scoreAllProjects_single; [reflexivity|].
  rewrite hostProject_score; [lra|reflexivity|reflexivity|].
  unfold minutes. lia.
Qed.

Lemma githubTab_not_manual : ~ isManual githubTab.
Proof. intros [Hm _]. discriminate Hm. Qed.
End WorkedExamples.

(** ** Claims on the scorer *)

Section ScorerClaims.
Import TabMatcher Store Core.
Local Open Scope R_scope.

(** C1, as stated, fails: a host rule that equals the host of the tab
    does not give a total of 3.0 when a domain rule that matches the
    registrable domain is listed before it; the loop over the rules
    returns 0.8 at the domain rule, and the total is 2.4. *)
Lemma host_rule_total_counterexample :
  (exists r, In r (p_rules Examples.domainFirstProject)
             /\ r_type r = RHost
             /\ r_value r = t_host Examples.githubTab)
  /\ pathMatch (breakdown (scoreTabForProject DEFAULT_MATCHER_CONFIG 0
                             Examples.githubTab Examples.domainFirstProject None)) = 0
  /\ tokenSimilarity (breakdown (scoreTabForProject DEFAULT_MATCHER_CONFIG 0
                             Examples.githubTab Examples.domainFirstProject None)) = 0
  /\ chainProximity (breakdown (scoreTabForProject DEFAULT_MATCHER_CONFIG 0
                             Examples.githubTab Examples.domainFirstProject None)) = 0
  /\ recencyBoost (breakdown (scoreTabForProject DEFAULT_MATCHER_CONFIG 0
                             Examples.githubTab Examples.domainFirstProject None)) = 0
  /\ score (scoreTabForProject DEFAULT_MATCHER_CONFIG 0
              Examples.githubTab Examples.domainFirstProject None) = 2.4
  /\ score (scoreTabForProject DEFAULT_MATCHER_CONFIG 0
              Examples.githubTab Examples.domainFirstProject None) <> 3.0.
Proof.
  assert (Htok : scoreTokenSimilarity Examples.githubTab
                   Examples.domainFirstProject = 0)
    by (by apply scoreTokenSimilarity_empty_centroid).
  assert (Hscore : score (scoreTabForProject DEFAULT_MATCHER_CONFIG 0
              Examples.githubTab Examples.domainFirstProject None) = 2.4).
  { rewrite score_eq, Htok.
    replace (scoreHostMatch Examples.githubTab Examples.domainFirstProject)
      with 0.8 by reflexivity.
    replace (scorePathMatch Examples.githubTab Examples.domainFirstProject)
      with 0 by reflexivity.
    cbn [scoreChainProximity scoreRecencyBoost]. lra. }
  split; [|split; [|split; [|split; [|split; [|split]]]]].
  - exists (Examples.hostRule "github.com"). split; [|by split].
    right. by left.
  - reflexivity.
  - rewrite breakdown_eq. exact Htok.
  - reflexivity.
  - reflexivity.
  - exact Hscore.
  - rewrite Hscore. lra.
Qed.

(** C1, amended.  The total is the raw weighted sum of the five
    sub-scores, and it is this sum that is compared with 0.3, 0.5 and
    0.8.  When a host rule of the project equals the host of the tab and
    the four other sub-scores are 0, the host sub-score is 1.0 or 0.8 and
    the total is 3.0 times it: 3.0 when no domain rule that equals the
    registrable domain of the tab stands before the host rule, and
    3.0 * 0.8 when such a domain rule stands before every matching host
    rule.  Either way the total passes 0.3, 0.5 and 0.8, and every run of
    [assignTabToProject] whose best match is this result commits the
    assignment with method [deterministic] and the total as
    confidence. *)
Theorem host_rule_total :
  forall (now : Z) (tab : TabMeta) (p : Project) (ctx : option ActiveContext),
    let res := scoreTabForProject DEFAULT_MATCHER_CONFIG now tab p ctx in
    score res
    = 3.0 * hostMatch (breakdown res) + 2.0 * pathMatch (breakdown res)
      + 1.5 * tokenSimilarity (breakdown res)
      + 2.0 * chainProximity (breakdown res)
      + 1.0 * recencyBoost (breakdown res)
    /\ (Exists (fun r => r_type r = RHost /\ r_value r = t_host tab) (p_rules p) ->
        pathMatch (breakdown res) = 0 ->
        tokenSimilarity (breakdown res) = 0 ->
        chainProximity (breakdown res) = 0 ->
        recencyBoost (breakdown res) = 0 ->
        (hostMatch (breakdown res) = 1.0 \/ hostMatch (breakdown res) = 0.8)
        /\ score res = 3.0 * hostMatch (breakdown res)
        /\ (forall pre r post,
              p_rules p = pre ++ r :: post ->
              r_type r = RHost -> r_value r = t_host tab ->
              (forall r', In r' pre ->
                          ~ (r_type r' = RDomain /\ r_value r' = tabDomain tab)) ->
              score res = 3.0)
        /\ (forall pre d post,
              p_rules p = pre ++ d :: post ->
              r_type d = RDomain -> r_value d = tabDomain tab ->
              (forall r', In r' pre ->
                          ~ (r_type r' = RHost /\ r_value r' = t_host tab)) ->
              score res = 3.0 * 0.8)
        /\ score res >= 0.3 /\ score res > 0.5 /\ score res > 0.8
        /\ forall (env : Env) (windowId : Z) (w : World),
             ~ isManual tab ->
             getAllProjects w <> [] ->
             bestMatchOfRun env tab windowId w = Some res ->
             (assignTabToProject env tab windowId w).1.1
             = {| ta_tabId := t_tabId tab;
                  ta_projectId := p_projectId p;
                  ta_subprojectId := sr_subprojectId res;
                  ta_confidence := score res;
                  ta_method := MDeterministic |}).
Proof.
  intros now tab p ctx res. split; [apply score_is_rawScore|].
  intros Hex Hpath Htok Hchain Hrec.
  assert (Hhost : hostMatch (breakdown res) = 1.0
                  \/ hostMatch (breakdown res) = 0.8).
  { unfold res. rewrite breakdown_eq. cbn [hostMatch]. unfold scoreHostMatch.
    pose proof (scoreHostMatch_rules_spec tab (p_rules p)) as Hspec.
    destruct (scoreHostMatch_rules tab (p_rules p)) as [s|]; [tauto|].
    destruct Hspec as [Hno _]. contradiction. }
  assert (Hscore : score res = 3.0 * hostMatch (breakdown res)).
  { unfold res at 1. rewrite score_is_rawScore. fold res. unfold rawScore.
    rewrite Hpath, Htok, Hchain, Hrec. lra. }
  split; [exact Hhost|]. split; [exact Hscore|].
  split; [|split; [|split; [|split; [|split]]]].
  - intros pre r post Hrules Hty Hval Hpre. rewrite Hscore.
    unfold res. rewrite breakdown_eq. cbn [hostMatch]. unfold scoreHostMatch.
    rewrite Hrules, (scoreHostMatch_rules_host_first tab pre r post) by assumption.
    lra.
  - intros pre d post Hrules Hty Hval Hpre. rewrite Hscore.
    unfold res. rewrite breakdown_eq. cbn [hostMatch]. unfold scoreHostMatch.
    by rewrite Hrules, (scoreHostMatch_rules_domain_first tab pre d post).
  - rewrite Hscore. destruct Hhost as [->| ->]; lra.
  - rewrite Hscore. destruct Hhost as [->| ->]; lra.
  - rewrite Hscore. destruct Hhost as [->| ->]; lra.
  - intros env windowId w Hnm Hne Hbest.
    pose proof (assign_scored env tab windowId w Hnm) as Hrun. cbv zeta in Hrun.
    rewrite Hbest in Hrun.
    destruct (getAllProjects w) as [|q qs]; [contradiction|].
    rewrite decide_True in Hrun
      by (rewrite Hscore; destruct Hhost as [->| ->]; lra).
    rewrite decide_True in Hrun
      by (rewrite Hscore; destruct Hhost as [->| ->]; lra).
    exact Hrun.
Qed.

Lemma host_rule_total_witness :
  score (scoreTabForProject DEFAULT_MATCHER_CONFIG (Examples.minutes 60)
           Examples.githubTab Examples.hostProject
           (Some (Examples.runContext (Examples.minutes 60)))) = 3.0
  /\ score (scoreTabForProject DEFAULT_MATCHER_CONFIG 0
              Examples.githubTab Examples.domainFirstProject None) = 3.0 * 0.8
  /\ ta_method
       (assignTabToProject (Examples.envAt (Examples.minutes 60))
          Examples.githubTab 1 (Examples.worldWith Examples.hostProject)).1.1
     = MDeterministic.
Proof.
  destruct (host_rule_total (Examples.minutes 60) Examples.githubTab
              Examples.hostProject
              (Some (Examples.runContext (Examples.minutes 60))))
    as (_ & Hcase).
  destruct Hcase as (_ & _ & Hfirst & _ & _ & _ & _ & Hrun).
  { apply Exists_cons_hd. by split. }
  { reflexivity. }
  { rewrite breakdown_eq. by apply scoreTokenSimilarity_empty_centroid. }
  { reflexivity. }
  { rewrite breakdown_eq. cbn [recencyBoost].
    rewrite scoreRecencyBoost_band by discriminate. reflexivity. }
  destruct (host_rule_total 0 Examples.githubTab Examples.domainFirstProject None)
    as (_ & Hcase').
  destruct Hcase' as (_ & _ & _ & Hdomain & _).
  { apply Exists_cons_tl, Exists_cons_hd. by split. }
  { reflexivity. }
  { rewrite breakdown_eq. by apply scoreTokenSimilarity_empty_centroid. }
  { reflexivity. }
  { reflexivity. }
  split; [|split].
  - apply (Hfirst [] (Examples.hostRule "github.com") []);
      [reflexivity..|intros r' []].
  - apply (Hdomain [] (Examples.domainRule "github.com")
             [Examples.hostRule "github.com"]); [reflexivity..|intros r' []].
  - rewrite (Hrun (Examples.envAt (Examples.minutes 60)) 1%Z
               (Examples.worldWith Examples.hostProject)
               githubTab_not_manual).
    + reflexivity.
    + discriminate.
    + exact hostProject_run_bestMatch.
Defined.

(** C7.  Without a context the chain-proximity and the recency
    sub-scores are 0, whatever the tab, the project and the clock, and
    the total is the weighted sum of the three other sub-scores; the
    tracker hands out no context exactly when the window has no cached
    one or the cached one is 5 seconds old or older. *)
Theorem no_context_scores_zero :
  forall (cfg : MatcherConfig) (now : Z) (tab : TabMeta) (p : Project),
    scoreChainProximity tab p None = 0
    /\ scoreRecencyBoost now p None = 0
    /\ chainProximity (breakdown (scoreTabForProject cfg now tab p None)) = 0
    /\ recencyBoost (breakdown (scoreTabForProject cfg now tab p None)) = 0
    /\ score (scoreTabForProject cfg now tab p None)
       = hostMatchWeight cfg * scoreHostMatch tab p
         + pathMatchWeight cfg * scorePathMatch tab p
         + tokenWeight cfg * scoreTokenSimilarity tab p
    /\ forall (w : World) (windowId : Z),
         ContextTracker.getContext now windowId w = None
         <-> (activeContexts w !! windowId = None
              \/ exists c, activeContexts w !! windowId = Some c
                           /\ (5000 <= now - ctx_computedAt c)%Z).
Proof.
  intros cfg now tab p. repeat split; try reflexivity.
  - unfold scoreTabForProject. cbn [score breakdown hostMatch pathMatch
      tokenSimilarity chainProximity recencyBoost scoreChainProximity
      scoreRecencyBoost]. lra.
  - unfold ContextTracker.getContext.
    destruct (activeContexts w !! windowId) as [c|]; [|by left].
    destruct (Z.ltb_spec (now - ctx_computedAt c) 5000); [discriminate|].
    intros _. right. exists c. by split.
  - unfold ContextTracker.getContext.
    intros [->|(c & -> & Hstale)]; [reflexivity|].
    destruct (Z.ltb_spec (now - ctx_computedAt c) 5000); [lia|reflexivity].
Qed.

(** C9, as stated, fails: the recency sub-score reads the clock, so the
    same tab, project and context scored one minute and sixty minutes
    after the last activity of the project give different results. *)
Lemma scoring_repeatable_counterexample :
  scoreTabForProject DEFAULT_MATCHER_CONFIG (Examples.minutes 1)
    Examples.githubTab Examples.bareProject (Some Examples.idleContext)
  <> scoreTabForProject DEFAULT_MATCHER_CONFIG (Examples.minutes 60)
       Examples.githubTab Examples.bareProject (Some Examples.idleContext).
Proof.
  intros Heq.
  apply (f_equal (fun res => recencyBoost (breakdown res))) in Heq.
  rewrite !breakdown_eq in Heq. cbn [recencyBoost] in Heq.
  rewrite !scoreRecencyBoost_band in Heq by discriminate.
  change (recencyBand (Examples.minutes 1 - p_lastActiveAt Examples.bareProject))
    with 0%nat in Heq.
  change (recencyBand (Examples.minutes 60 - p_lastActiveAt Examples.bareProject))
    with 3%nat in Heq.
  cbn [bandBoost] in Heq. lra.
Qed.

Lemma recencyBand_le_3 elapsed : (recencyBand elapsed <= 3)%nat.
Proof.
  unfold recencyBand. repeat (destruct (_ <? _)%Z; [lia|]). lia.
Qed.

Lemma bandBoost_inj b1 b2 :
  (b1 <= 3)%nat -> (b2 <= 3)%nat -> bandBoost b1 = bandBoost b2 -> b1 = b2.
Proof.
  intros H1 H2.
  destruct b1 as [|[|[|[|b1]]]]; try lia;
    destruct b2 as [|[|[|[|b2]]]]; try lia; cbn [bandBoost]; intros H;
    first [reflexivity | exfalso; lra].
Qed.

Lemma scoreTabForProject_clock cfg now1 now2 tab p ctx :
  scoreTabForProject cfg now1 tab p ctx = scoreTabForProject cfg now2 tab p ctx
  <-> scoreRecencyBoost now1 p ctx = scoreRecencyBoost now2 p ctx.
Proof.
  split.
  - intros Heq. apply (f_equal (fun res => recencyBoost (breakdown res))) in Heq.
    exact Heq.
  - intros Heq. unfold scoreTabForProject. cbv zeta.
    cbn [hostMatch pathMatch tokenSimilarity chainProximity recencyBoost].
    rewrite Heq. reflexivity.
Qed.

(** C9, amended.  Two evaluations on the same tab, project and context
    give the same result exactly when no context is supplied, or the
    project is the active project of the context, or the two clock
    readings put the last activity of the project in the same band of
    the recency step (under 5, under 15, under 30 minutes, or more); two
    evaluations that read the same clock value always agree. *)
Theorem scoring_repeatable_iff :
  forall (cfg : MatcherConfig) (now1 now2 : Z) (tab : TabMeta) (p : Project)
         (ctx : option ActiveContext),
    scoreTabForProject cfg now1 tab p ctx = scoreTabForProject cfg now2 tab p ctx
    <-> (ctx = None
         \/ (exists c, ctx = Some c
                       /\ ctx_activeProjectId c = Some (p_projectId p))
         \/ recencyBand (now1 - p_lastActiveAt p)
            = recencyBand (now2 - p_lastActiveAt p)).
Proof.
  intros cfg now1 now2 tab p ctx. rewrite scoreTabForProject_clock.
  destruct ctx as [c|]; [|split; [by left|reflexivity]].
  destruct (decide (ctx_activeProjectId c = Some (p_projectId p))) as [Ha|Hna].
  - rewrite !scoreRecencyBoost_active by exact Ha.
    split; [|reflexivity]. intros _. right. left. exists c. by split.
  - rewrite !scoreRecencyBoost_band by exact Hna. split.
    + intros Heq. right. right.
      apply bandBoost_inj; [apply recencyBand_le_3..|exact Heq].
    + intros [Hc|[(c' & Hc & Ha)|Hb]].
      * discriminate Hc.
      * injection Hc as <-. contradiction.
      * by rewrite Hb.
Qed.

(** C2, as stated, fails: a candidate whose total is exactly 0.3 is kept.
    The filter is [score >= 0.3]; a project without rules that was
    active 20 minutes ago scores exactly 0.3 and is in the results. *)
Lemma threshold_boundary_counterexample :
  score (scoreTabForProject DEFAULT_MATCHER_CONFIG (Examples.minutes 20)
           Examples.githubTab Examples.bareProject (Some Examples.idleContext))
  = 0.3
  /\ In (scoreTabForProject DEFAULT_MATCHER_CONFIG (Examples.minutes 20)
           Examples.githubTab Examples.bareProject (Some Examples.idleContext))
        (scoreAllProjects DEFAULT_MATCHER_CONFIG (Examples.minutes 20)
           Examples.githubTab [Examples.bareProject]
           (Some Examples.idleContext)).
Proof.
  assert (Hscore :
    score (scoreTabForProject DEFAULT_MATCHER_CONFIG (Examples.minutes 20)
             Examples.githubTab Examples.bareProject
             (Some Examples.idleContext)) = 0.3).
  { rewrite score_eq.
    rewrite scoreTokenSimilarity_empty_centroid by reflexivity.
    rewrite scoreRecencyBoost_band by discriminate.
    replace (scoreHostMatch Examples.githubTab Examples.bareProject)
      with 0 by reflexivity.
    replace (scorePathMatch Examples.githubTab Examples.bareProject)
      with 0 by reflexivity.
    replace (scoreChainProximity Examples.githubTab Examples.bareProject
               (Some Examples.idleContext)) with 0 by reflexivity.
    change (recencyBand (Examples.minutes 20 - p_lastActiveAt Examples.bareProject))
      with 2%nat.
    cbn [bandBoost]. lra. }
  split; [exact Hscore|].
  rewrite scoreAllProjects_single by (rewrite Hscore; lra). by left.
Qed.

(** C2, amended.  The results of [scoreAllProjects] are the scored
    candidates whose total is at least 0.3, each as often as it is
    scored: a candidate below 0.3 is discarded, a candidate at exactly
    0.3 is kept; and the results are in descending order of total. *)
Theorem scoreAllProjects_threshold_sorted :
  forall (now : Z) (tab : TabMeta) (projects : list Project)
         (ctx : option ActiveContext),
    Permutation
      (scoreAllProjects DEFAULT_MATCHER_CONFIG now tab projects ctx)
      (filter (fun res => score res >= 0.3)
         ((fun p => scoreTabForProject DEFAULT_MATCHER_CONFIG now tab p ctx)
            <$> projects))
    /\ (forall p, In p projects ->
          score (scoreTabForProject DEFAULT_MATCHER_CONFIG now tab p ctx) < 0.3 ->
          ~ In (scoreTabForProject DEFAULT_MATCHER_CONFIG now tab p ctx)
               (scoreAllProjects DEFAULT_MATCHER_CONFIG now tab projects ctx))
    /\ (forall p, In p projects ->
          score (scoreTabForProject DEFAULT_MATCHER_CONFIG now tab p ctx) = 0.3 ->
          In (scoreTabForProject DEFAULT_MATCHER_CONFIG now tab p ctx)
             (scoreAllProjects DEFAULT_MATCHER_CONFIG now tab projects ctx))
    /\ StronglySorted (fun a b => score a >= score b)
         (scoreAllProjects DEFAULT_MATCHER_CONFIG now tab projects ctx).
Proof.
  intros now tab projects ctx.
  assert (Hperm : Permutation
      (scoreAllProjects DEFAULT_MATCHER_CONFIG now tab projects ctx)
      (filter (fun res => score res >= 0.3)
         ((fun p => scoreTabForProject DEFAULT_MATCHER_CONFIG now tab p ctx)
            <$> projects))).
  { unfold scoreAllProjects. rewrite sort_Permutation.
    rewrite (List_filter_decide _ (fun res => score res >= 0.3)); [reflexivity|].
    intros res. apply bool_decide_eq_true. }
  split; [exact Hperm|]. split; [|split].
  - intros p _ Hlow Hin. apply list_elem_of_In in Hin. rewrite Hperm in Hin.
    apply list_elem_of_filter in Hin as [Hge _]. lra.
  - intros p Hin Hs. apply list_elem_of_In. rewrite Hperm.
    apply list_elem_of_filter. split; [lra|].
    apply list_elem_of_fmap. exists p. split; [reflexivity|].
    by apply list_elem_of_In.
  - unfold scoreAllProjects, byScoreDesc. apply sort_desc_R.
Qed.
End ScorerClaims.

(** ** Claims on the centroid model: a worked instance *)

Lemma unitCentroid_nonneg :
  forall token w, tokens Examples.unitCentroid !! token = Some w -> (0 <= w)%R.
Proof.
  intros token w H. cbn [tokens Examples.unitCentroid] in H.
  apply lookup_singleton_Some in H as [_ <-]. lra.
Qed.

(** ** Claims on the context tracker *)

Section ContextClaims.
Import Store ContextTracker.
Local Open Scope R_scope.

Lemma activityOf_isEntryOf now tab : isEntryOf now (activityOf now tab) tab.
Proof.
  unfold isEntryOf, activityOf. cbv zeta.
  cbn [rt_tabId rt_projectId rt_subprojectId rt_lastActiveAt rt_dwellTime rt_weight].
  repeat (split; [reflexivity|]).
  unfold DWELL_TIME_WEIGHT, RECENCY_WEIGHT, CONTEXT_WINDOW_MS.
  change (30 * 60 * 1000)%Z with 1800000%Z. reflexivity.
Qed.

Lemma retained_tabs now windowId w :
  List.filter (fun tab => (now - t_lastActiveAt tab <? CONTEXT_WINDOW_MS)%Z)
    (getTabsByWindow windowId w)
  = filter (InRollingWindow now windowId) (getAllTabs w).
Proof.
  unfold getTabsByWindow, getAllTabs, IDB.index_getAll, IDB.getAll.
  rewrite (List_filter_decide (fun t => (t_windowId t =? windowId)%Z)
             (fun t => t_windowId t = windowId)).
  2:{ intros t. apply Z.eqb_eq. }
  rewrite (List_filter_decide _
             (fun t => (now - t_lastActiveAt t < 30 * 60 * 1000)%Z)).
  2:{ intros t. apply Z.ltb_lt. }
  rewrite list_filter_filter. apply list_filter_iff.
  intros t. unfold InRollingWindow. tauto.
Qed.

(** C8.  [updateContext] keeps exactly the stored tabs of the window
    whose last activity lies within the 30-minute window, gives each the
    weight
    [0.7 * min(1, activeScore / 60000) + 0.3 * (1 - (now - lastActiveAt) /
    1800000)], stores the entries in descending order of weight, and takes
    the active project and subproject from the activated tab; the context
    is returned and stored for the window. *)
Theorem updateContext_recentTabs :
  forall (now windowId : Z) (activatedTab : TabMeta) (w : World),
    (exists retained,
        Permutation retained
          (filter (InRollingWindow now windowId) (getAllTabs w))
        /\ Forall2 (isEntryOf now)
             (ctx_recentTabs (updateContext now windowId activatedTab w).1)
             retained)
    /\ StronglySorted (fun a b => rt_weight a >= rt_weight b)
         (ctx_recentTabs (updateContext now windowId activatedTab w).1)
    /\ ctx_activeProjectId (updateContext now windowId activatedTab w).1
       = t_projectId activatedTab
    /\ ctx_activeSubprojectId (updateContext now windowId activatedTab w).1
       = t_subprojectId activatedTab
    /\ ctx_computedAt (updateContext now windowId activatedTab w).1 = now
    /\ activeContexts (updateContext now windowId activatedTab w).2 !! windowId
       = Some (updateContext now windowId activatedTab w).1.
Proof.
  intros now windowId activatedTab w. unfold updateContext. cbv zeta.
  cbn [fst snd ctx_recentTabs ctx_activeProjectId ctx_activeSubprojectId
       ctx_computedAt].
  rewrite retained_tabs.
  set (kept := filter (InRollingWindow now windowId) (getAllTabs w)).
  split; [|split; [|split; [|split; [|split]]]]; try reflexivity.
  - pose proof (sort_Permutation byWeightDesc (List.map (activityOf now) kept))
      as Hperm.
    apply Permutation_map_inv in Hperm as (retained & Heq & Hp).
    exists retained. split; [by symmetry|]. rewrite Heq.
    clear. induction retained as [|t l IH]; cbn [List.map]; constructor.
    + apply activityOf_isEntryOf.
    + exact IH.
  - unfold byWeightDesc. apply sort_desc_R.
  - unfold setContext. cbn [activeContexts]. apply lookup_insert_eq.
Qed.
End ContextClaims.

(** ** Claims on the orchestrator *)

Section OrchestratorClaims.
Import Store Core.
Local Open Scope R_scope.

(** C6.  For a tab with the manual flag and a non-empty project id the run
    returns method [manual] with confidence 1.0 and the ids of the tab, and
    hands back the tab and the whole state as they were: the stored
    projects with their centroids and timestamps, the stored tabs, the
    cached contexts and the caches.  Neither the clock readings nor the
    stored projects enter the result, so nothing is scored. *)
Theorem manual_override_frame :
  forall (env : Env) (tab : TabMeta) (windowId : Z) (w : World)
         (projectId : string),
    t_manuallyAssigned tab = Some true ->
    t_projectId tab = Some projectId ->
    projectId <> EmptyString ->
    assignTabToProject env tab windowId w
    = ({| ta_tabId := t_tabId tab;
          ta_projectId := projectId;
          ta_subprojectId := t_subprojectId tab;
          ta_confidence := 1.0;
          ta_method := MManual |}, tab, w).
Proof.
  intros env tab windowId w projectId Hflag Hpid Hne.
  unfold assignTabToProject.
  rewrite (manual_guard_take tab _ _ projectId Hflag Hpid Hne). reflexivity.
Qed.

Lemma manual_override_frame_witness :
  assignTabToProject (Examples.envAt (Examples.minutes 60)) Examples.manualTab 1
    (Examples.worldWith Examples.hostProject)
  = ({| ta_tabId := 7;
        ta_projectId := "P";
        ta_subprojectId := None;
        ta_confidence := 1.0;
        ta_method := MManual |},
     Examples.manualTab, Examples.worldWith Examples.hostProject).
Proof.
  apply (manual_override_frame (Examples.envAt (Examples.minutes 60))
           Examples.manualTab 1%Z (Examples.worldWith Examples.hostProject)
           "P"%string).
  - reflexivity.
  - reflexivity.
  - discriminate.
Defined.
End OrchestratorClaims.

(** ** Claims on candidate narrowing *)

Section NarrowingClaims.
Import TabMatcher.

Lemma existsb_Exists {A} (f : A -> bool) (P : A -> Prop) (l : list A) :
  (forall x, f x = true <-> P x) -> existsb f l = true <-> Exists P l.
Proof.
  intros Hf. induction l as [|x l IH]; cbn [existsb].
  - split; [discriminate|]. intros H. inversion H.
  - rewrite orb_true_iff, Exists_cons, IH, Hf. reflexivity.
Qed.


Lemma sameHost_filter tab projects :
  List.filter
    (fun p =>
       existsb
         (fun sp => String.eqb (sig_host (sp_signature sp)) (t_host tab))
         (p_subprojects p)
       || existsb
            (fun r => bool_decide (r_type r = RHost)
                      && String.eqb (r_value r) (t_host tab))
            (p_rules p))
    projects
  = filter (HostLocal tab) projects.
Proof.
  apply List_filter_decide. intros p. unfold HostLocal.
  rewrite orb_true_iff.
  rewrite (existsb_Exists _ (fun sp => sig_host (sp_signature sp) = t_host tab)).
  2:{ intros sp. apply String.eqb_eq. }
  rewrite (existsb_Exists _ (fun r => r_type r = RHost /\ r_value r = t_host tab)).
  2:{ intros r. rewrite andb_true_iff, bool_decide_eq_true, String.eqb_eq.
      reflexivity. }
  reflexivity.
Qed.

Lemma sameDomain_filter tab projects :
  List.filter
    (fun p =>
       let tabDomain := tabDomain tab in
       existsb
         (fun r => bool_decide (r_type r = RDomain)
                   && String.eqb (r_value r) tabDomain)
         (p_rules p))
    projects
  = filter (DomainLocal tab) projects.
Proof.
  apply List_filter_decide. intros p. unfold DomainLocal. cbv zeta.
  apply existsb_Exists. intros r.
  rewrite andb_true_iff, bool_decide_eq_true, String.eqb_eq. reflexivity.
Qed.

Lemma recent_filter now projects :
  List.filter (fun p => (now - p_lastActiveAt p <? 30 * 60 * 1000)%Z) projects
  = filter (RecentlyActive now) projects.
Proof.
  apply List_filter_decide. intros p. unfold RecentlyActive. apply Z.ltb_lt.
Qed.

Lemma nonempty_take {A} (n : nat) (l : list A) :
  (0 < n)%nat -> (0 <? length (take n l))%nat = (0 <? length l)%nat.
Proof.
  intros Hn. destruct l as [|x l]; [by rewrite take_nil|].
  destruct n as [|n]; [lia|]. reflexivity.
Qed.

End NarrowingClaims.

(** ** Facts on the path sub-score and on runs *)

Section RunFacts.
Import TabMatcher Store Core.
Local Open Scope R_scope.

Lemma depthScore_le_1 prefix : depthScore prefix <= 1.
Proof. unfold depthScore. cbv zeta. etrans; [apply Rmin_l|lra]. Qed.

Lemma scorePathMatch_le_1 tab p : scorePathMatch tab p <= 1.
Proof.
  unfold scorePathMatch. cbv zeta.
  assert (Hfold : forall {A} (f : R -> A -> R) (l : list A) (m : R),
             (forall m x, m <= 1 -> f m x <= 1) -> m <= 1 -> foldl f m l <= 1).
  { intros A f l. induction l as [|x l IH]; intros m Hf Hm; cbn [foldl];
      [exact Hm|]. apply IH; [exact Hf|]. by apply Hf. }
  apply Hfold.
  - intros m sp Hm. destruct (JS.startsWith _ _); [|exact Hm].
    apply Rmax_lub; [exact Hm|apply depthScore_le_1].
  - apply Hfold; [|lra].
    intros m r Hm. destruct (bool_decide _); [|exact Hm].
    destruct (JS.startsWith _ _); [|exact Hm].
    apply Rmax_lub; [exact Hm|apply depthScore_le_1].
Qed.


Lemma isManual_dec tab : isManual tab \/ ~ isManual tab.
Proof.
  unfold isManual.
  destruct (t_manuallyAssigned tab) as [[|]|];
    [|right; intros [[=] _]..].
  destruct (t_projectId tab) as [[|c s]|].
  - right. intros [_ (pid & [= <-] & Hne)]. by apply Hne.
  - left. split; [reflexivity|]. by exists (String c s).
  - right. intros [_ (pid & [=] & _)].
Qed.

End RunFacts.

(** ** A run that reaches the largest total *)

Section FullScoreExample.
Import TabMatcher Store Core Examples.
Local Open Scope R_scope.




End FullScoreExample.

(** ** The confidence of an assignment *)

Section ConfidenceBinary64.
Import PrimFloat.
#[local] Set Warnings "-inexact-float".

End ConfidenceBinary64.

Section ConfidenceClaims.
Import TabMatcher Store Core.
Local Open Scope R_scope.

End ConfidenceClaims.

(** * Further properties *)

(** ** The tokenizer *)

Section TokenizerFacts.
Import Tokens.
Local Open Scope string_scope.

Lemma append_cons (a : ascii) (s t : string) :
  String a s ++ t = String a (s ++ t).
Proof. reflexivity. Qed.

Lemma string_forall_app P s1 s2 :
  string_forall P (s1 ++ s2) = string_forall P s1 && string_forall P s2.
Proof.
  induction s1 as [|c s1 IH]; [reflexivity|].
  rewrite append_cons. cbn [string_forall]. rewrite IH. apply andb_assoc.
Qed.

Lemma string_forall_map_chars P f s :
  string_forall P (JS.map_chars f s) = string_forall (fun c => P (f c)) s.
Proof.
  induction s as [|c s IH]; [reflexivity|].
  cbn [JS.map_chars string_forall]. by rewrite IH.
Qed.

Lemma string_forall_impl (P Q : ascii -> bool) s :
  (forall c, P c = true -> Q c = true) ->
  string_forall P s = true -> string_forall Q s = true.
Proof.
  intros HPQ. induction s as [|c s IH]; [reflexivity|].
  cbn [string_forall]. rewrite !andb_true_iff. intros [Hc Hs]. auto.
Qed.

Lemma string_forall_true P s :
  (forall c, P c = true) -> string_forall P s = true.
Proof.
  intros HP. induction s as [|c s IH]; [reflexivity|].
  cbn [string_forall]. by rewrite HP, IH.
Qed.

(** The fields of a split hold no separator: each is made of what was
    collected before and of the characters that are no separators. *)
Lemma split_runs_from_forall P isSep s : forall cur inSep,
  string_forall P cur = true ->
  string_forall (fun c => isSep c || P c) s = true ->
  Forall (fun field => string_forall P field = true)
         (JS.split_runs_from isSep s cur inSep).
Proof.
  induction s as [|c s IH]; intros cur inSep Hcur Hs; cbn [JS.split_runs_from].
  - by constructor.
  - cbn [string_forall] in Hs. apply andb_true_iff in Hs as [Hc Hs].
    destruct (isSep c) eqn:Hsep.
    + destruct inSep; [by apply IH|]. constructor; [exact Hcur|by apply IH].
    + apply IH; [|exact Hs]. rewrite string_forall_app, Hcur.
      cbn [string_forall]. cbn [orb] in Hc. by rewrite Hc.
Qed.

Lemma append_empty_r (s : string) : s ++ "" = s.
Proof.
  induction s as [|a s IH]; [reflexivity|]. rewrite append_cons. by rewrite IH.
Qed.

Lemma append_snoc (cur : string) (c : ascii) (s : string) :
  (cur ++ String c "") ++ s = cur ++ String c s.
Proof.
  induction cur as [|a cur IH]; [reflexivity|]. rewrite !append_cons.
  by rewrite IH.
Qed.

Lemma split_runs_from_no_separator isSep s : forall cur inSep,
  string_forall (fun c => negb (isSep c)) s = true ->
  JS.split_runs_from isSep s cur inSep = [cur ++ s].
Proof.
  induction s as [|c s IH]; intros cur inSep Hs; cbn [JS.split_runs_from].
  - by rewrite append_empty_r.
  - cbn [string_forall] in Hs. apply andb_true_iff in Hs as [Hc Hs].
    apply negb_true_iff in Hc. rewrite Hc, IH by exact Hs.
    by rewrite append_snoc.
Qed.

Lemma map_chars_id f s :
  string_forall (fun c => Ascii.eqb (f c) c) s = true -> JS.map_chars f s = s.
Proof.
  induction s as [|c s IH]; [reflexivity|].
  cbn [string_forall JS.map_chars]. intros [Hc Hs]%andb_true_iff.
  apply Ascii.eqb_eq in Hc. by rewrite Hc, IH.
Qed.

Lemma normalize_char_class c :
  is_separator (normalize_char c) || is_token_char (normalize_char c) = true.
Proof.
  destruct c as [[] [] [] [] [] [] [] []]; vm_compute; reflexivity.
Qed.

Lemma token_char_fixed c :
  is_token_char c = true ->
  Ascii.eqb (JS.lower_char c) c = true
  /\ JS.is_word c = true
  /\ is_separator c = false.
Proof.
  destruct c as [[] [] [] [] [] [] [] []]; vm_compute; intros H;
    first [discriminate H | repeat split].
Qed.

Lemma extractTokens_unfold text :
  extractTokens text
  = List.filter
      (fun token => (2 <? String.length token)%nat && negb (is_stop_word token))
      (JS.split_runs is_separator (JS.map_chars normalize_char text)).
Proof.
  unfold extractTokens, JS.toLowerCase. cbv zeta. f_equal. f_equal.
  induction text as [|c s IH]; [reflexivity|].
  cbn [JS.map_chars]. by rewrite IH.
Qed.

Lemma is_stop_word_false token :
  is_stop_word token = false <-> ~ In token STOP_WORDS.
Proof.
  unfold is_stop_word. rewrite <- not_true_iff_false, existsb_exists.
  split; intros H.
  - intros Hin. apply H. exists token. split; [exact Hin|apply String.eqb_refl].
  - intros (x & Hin & Heq). apply String.eqb_eq in Heq. by subst.
Qed.

(** X1.  Every token that [extractTokens] returns is longer than two
    characters, is no stop word and is made of lower-case letters, digits
    and underscores only. *)
Theorem extractTokens_wellformed :
  forall (text token : string),
    In token (extractTokens text) ->
    (2 < String.length token)%nat
    /\ ~ In token STOP_WORDS
    /\ string_forall is_token_char token = true.
Proof.
  intros text token Hin. rewrite extractTokens_unfold in Hin.
  apply filter_In in Hin as [Hfield Hkeep].
  apply andb_true_iff in Hkeep as [Hlen Hstop].
  split; [by apply Nat.ltb_lt|]. split.
  - apply is_stop_word_false. by apply negb_true_iff.
  - pose proof (split_runs_from_forall is_token_char is_separator
                  (JS.map_chars normalize_char text) "" false eq_refl) as Hall.
    rewrite Forall_forall in Hall. apply Hall; [|by apply list_elem_of_In].
    rewrite string_forall_map_chars. apply string_forall_true.
    intros c. apply normalize_char_class.
Qed.

Lemma extractTokens_wellformed_witness :
  (2 < String.length "r2_d2")%nat
  /\ ~ In "r2_d2" STOP_WORDS
  /\ string_forall is_token_char "r2_d2" = true.
Proof.
  apply (extractTokens_wellformed "The R2_D2-unit").
  vm_compute. by left.
Defined.

Lemma extractTokens_of_token token :
  (2 < String.length token)%nat ->
  ~ In token STOP_WORDS ->
  string_forall is_token_char token = true ->
  extractTokens token = [token].
Proof.
  intros Hlen Hstop Hchars. rewrite extractTokens_unfold.
  assert (Hnorm : JS.map_chars normalize_char token = token).
  { apply map_chars_id. revert Hchars. apply string_forall_impl.
    intros c Hc. destruct (token_char_fixed c Hc) as (Hlow & Hword & _).
    unfold normalize_char. apply Ascii.eqb_eq in Hlow. rewrite Hlow, Hword.
    apply Ascii.eqb_refl. }
  rewrite Hnorm. unfold JS.split_runs.
  rewrite split_runs_from_no_separator.
  2:{ revert Hchars. apply string_forall_impl. intros c Hc.
      destruct (token_char_fixed c Hc) as (_ & _ & Hsep). by rewrite Hsep. }
  cbn [List.filter]. change ("" ++ token) with token.
  apply Nat.ltb_lt in Hlen. apply is_stop_word_false in Hstop.
  by rewrite Hlen, Hstop.
Qed.

(** X2.  A token that [extractTokens] returns is a fixed point of the
    tokenizer: extracting the tokens of the token gives the token alone. *)
Theorem extractTokens_fixed_point :
  forall (text token : string),
    In token (extractTokens text) -> extractTokens token = [token].
Proof.
  intros text token Hin. rewrite extractTokens_unfold in Hin.
  apply filter_In in Hin as [Hfield Hkeep].
  apply andb_true_iff in Hkeep as [Hlen Hstop].
  apply extractTokens_of_token.
  - by apply Nat.ltb_lt.
  - apply is_stop_word_false. by apply negb_true_iff.
  - pose proof (split_runs_from_forall is_token_char is_separator
                  (JS.map_chars normalize_char text) "" false eq_refl) as Hall.
    rewrite Forall_forall in Hall. apply Hall; [|by apply list_elem_of_In].
    rewrite string_forall_map_chars. apply string_forall_true.
    intros c. apply normalize_char_class.
Qed.

Lemma extractTokens_fixed_point_witness :
  extractTokens "quick" = ["quick"].
Proof.
  apply (extractTokens_fixed_point "The Quick-brown fox").
  vm_compute. by left.
Defined.
End TokenizerFacts.

(** ** The fingerprint of a token list *)

Section FingerprintFacts.
Import Tokens.

Lemma sorted_permutation_unique {A} (R : A -> A -> Prop) :
  (forall x y, R x y -> R y x -> x = y) ->
  forall l1 l2,
    StronglySorted R l1 -> StronglySorted R l2 -> Permutation l1 l2 -> l1 = l2.
Proof.
  intros Hanti. induction l1 as [|x l1 IH]; intros l2 Hs1 Hs2 Hperm.
  - by apply Permutation_nil in Hperm.
  - destruct l2 as [|y l2].
    { symmetry in Hperm. by apply Permutation_nil in Hperm. }
    apply StronglySorted_inv in Hs1 as [Hs1 Hx].
    apply StronglySorted_inv in Hs2 as [Hs2 Hy].
    rewrite Forall_forall in Hx, Hy.
    assert (Hxy : x = y).
    { assert (Hin1 : In x (y :: l2)).
      { eapply Permutation_in; [exact Hperm|by left]. }
      assert (Hin2 : In y (x :: l1)).
      { eapply Permutation_in; [symmetry; exact Hperm|by left]. }
      destruct Hin1 as [->|Hin1]; [reflexivity|].
      destruct Hin2 as [->|Hin2]; [reflexivity|].
      apply Hanti; [apply Hx|apply Hy]; by apply list_elem_of_In. }
    subst y. f_equal. apply IH; [exact Hs1|exact Hs2|].
    by apply Permutation_cons_inv in Hperm.
Qed.

Lemma string_le_mayPrecede a b : mayPrecede String.ltb a b <-> string_le a b.
Proof.
  unfold mayPrecede, string_le, String.ltb. rewrite (String.compare_antisym a b).
  destruct (String.compare b a); cbn; split; (done || discriminate || congruence).
Qed.

Lemma string_le_trans a b c : string_le a b -> string_le b c -> string_le a c.
Proof.
  unfold string_le. revert b c.
  induction a as [|x a IH]; intros [|y b] [|z c]; cbn [String.compare];
    try done.
  unfold Ascii.compare.
  destruct (N.compare_spec (N_of_ascii x) (N_of_ascii y)) as [Hxy|Hxy|Hxy];
    destruct (N.compare_spec (N_of_ascii y) (N_of_ascii z)) as [Hyz|Hyz|Hyz];
    destruct (N.compare_spec (N_of_ascii x) (N_of_ascii z)) as [Hxz|Hxz|Hxz];
    try done; try lia.
  apply IH.
Qed.

Lemma string_le_antisym a b : string_le a b -> string_le b a -> a = b.
Proof.
  unfold string_le. intros Hab Hba. apply String.compare_eq_iff.
  rewrite (String.compare_antisym b a) in Hba.
  destruct (String.compare a b); cbn in *; congruence.
Qed.

Lemma ltb_asym a b : String.ltb a b = true -> String.ltb b a = false.
Proof.
  unfold String.ltb. rewrite (String.compare_antisym b a).
  by destruct (String.compare a b).
Qed.

Lemma sort_strings_sorted l :
  StronglySorted string_le (JS.sort String.ltb l).
Proof.
  apply Sorted_StronglySorted.
  { intros a b c. apply string_le_trans. }
  eapply Sorted_weaken; [|apply sort_Sorted; exact ltb_asym].
  intros a b. apply string_le_mayPrecede.
Qed.

(** X3.  The fingerprint does not depend on the order of the tokens: two
    token lists that are permutations of each other have the same
    fingerprint. *)
Theorem hashTokens_permutation :
  forall (T1 T2 : list string),
    Permutation T1 T2 -> hashTokens T1 = hashTokens T2.
Proof.
  intros T1 T2 Hperm. unfold hashTokens. f_equal.
  apply (sorted_permutation_unique string_le string_le_antisym).
  - apply sort_strings_sorted.
  - apply sort_strings_sorted.
  - rewrite !sort_Permutation. exact Hperm.
Qed.

Lemma hashTokens_permutation_witness :
  hashTokens ["repo"; "github"; "org"]%string
  = hashTokens ["github"; "org"; "repo"]%string.
Proof.
  apply hashTokens_permutation.
  apply (Permutation_cons_append ["github"; "org"]%string "repo"%string).
Defined.
End FingerprintFacts.

(** ** Splitting and joining *)

Section SplitJoinFacts.
Local Open Scope string_scope.

Lemma split_from_nonempty sep s cur : JS.split_from sep s cur <> [].
Proof.
  revert cur. induction s as [|c s IH]; intros cur; cbn [JS.split_from].
  - discriminate.
  - destruct (Ascii.eqb c sep); [discriminate|apply IH].
Qed.

Lemma concat_cons_nonempty sep x xs :
  xs <> [] -> String.concat sep (x :: xs) = x ++ sep ++ String.concat sep xs.
Proof. destruct xs; [done|reflexivity]. Qed.

Lemma join_split_from sep s : forall cur,
  JS.join (String sep "") (JS.split_from sep s cur) = cur ++ s.
Proof.
  unfold JS.join. induction s as [|c s IH]; intros cur; cbn [JS.split_from].
  - cbn [String.concat]. by rewrite append_empty_r.
  - destruct (Ascii.eqb_spec c sep) as [->|Hne].
    + rewrite concat_cons_nonempty by apply split_from_nonempty.
      rewrite IH. reflexivity.
    + rewrite IH. apply append_snoc.
Qed.

(** Joining the fields of a split with the separator gives the string
    back. *)
Lemma join_split sep s : JS.join (String sep "") (JS.split sep s) = s.
Proof. unfold JS.split. by rewrite join_split_from. Qed.

(** X4.  [extractDomain] and the registrable domain that the matcher
    computes in line agree on every host; a host of at most two labels is
    its own domain. *)
Theorem extractDomain_agrees_with_matcher :
  forall (tab : TabMeta),
    Url.extractDomain (t_host tab) = TabMatcher.tabDomain tab
    /\ ((length (JS.split "."%char (t_host tab)) <= 2)%nat ->
        TabMatcher.tabDomain tab = t_host tab).
Proof.
  intros tab.
  assert (Hshort : (length (JS.split "."%char (t_host tab)) <= 2)%nat ->
                   TabMatcher.tabDomain tab = t_host tab).
  { intros Hlen. unfold TabMatcher.tabDomain, JS.slice_last.
    replace (length (JS.split "."%char (t_host tab)) - 2)%nat with 0%nat by lia.
    rewrite drop_0. apply (join_split "."%char). }
  split; [|exact Hshort].
  unfold Url.extractDomain. cbv zeta.
  destruct (Nat.leb_spec (length (JS.split "."%char (t_host tab))) 2) as [Hlen|Hlen].
  - symmetry. by apply Hshort.
  - reflexivity.
Qed.
End SplitJoinFacts.

(** ** Building centroids *)

Section CentroidBuilding.
Import Tokens.
Local Open Scope R_scope.

Lemma createCentroid_inner w T : forall tc tw,
  foldl (fun '(tc, tw) token => (bump w tc token, tw + w)) (tc, tw) T
  = (foldl (bump w) tc T, tw + w * INR (length T)).
Proof.
  induction T as [|t T IH]; intros tc tw; cbn [foldl length].
  - f_equal. cbn [INR]. lra.
  - rewrite IH. f_equal. rewrite S_INR. lra.
Qed.

Lemma sumWeights_comm (m : gmap string R) :
  forall (j1 j2 : string) (z1 z2 y : R),
    j1 <> j2 -> m !! j1 = Some z1 -> m !! j2 = Some z2 ->
    z1 + (z2 + y) = z2 + (z1 + y).
Proof. intros. lra. Qed.

Lemma sumWeights_insert_fresh m k v :
  m !! k = None -> sumWeights (<[k := v]> m) = v + sumWeights m.
Proof.
  intros Hk. unfold sumWeights.
  apply (map_fold_insert_L (fun (_ : string) (w acc : R) => w + acc)); [|exact Hk].
  apply sumWeights_comm.
Qed.

Lemma sumWeights_bump w m t : sumWeights (bump w m t) = sumWeights m + w.
Proof.
  unfold bump, get_or_0. destruct (m !! t) as [old|] eqn:Ht; cbn [default].
  - pose proof (sumWeights_insert_fresh (delete t m) t old
                  (lookup_delete_eq m t)) as Hold.
    rewrite insert_delete_id in Hold by exact Ht.
    pose proof (sumWeights_insert_fresh (delete t m) t (old + w)
                  (lookup_delete_eq m t)) as Hnew.
    rewrite insert_delete_eq in Hnew. change (Datatypes.id old) with old. lra.
  - rewrite sumWeights_insert_fresh by exact Ht. lra.
Qed.

Lemma sumWeights_foldl_bump w T : forall m,
  sumWeights (foldl (bump w) m T) = sumWeights m + w * INR (length T).
Proof.
  induction T as [|t T IH]; intros m; cbn [foldl length].
  - cbn [INR]. lra.
  - rewrite IH, sumWeights_bump, S_INR. lra.
Qed.

Lemma createCentroid_outer weights arrays : forall tc tw idx,
  exists tc' tw' idx',
    foldl
      (fun (acc : gmap string R * R * nat) (tokens : list string) =>
         let '(tokenCounts, totalWeight, idx) := acc in
         let weight := default 1 (weights ≫= (fun ws => ws !! idx)) in
         let '(tokenCounts', totalWeight') :=
           foldl (fun '(tc, tw) token => (bump weight tc token, tw + weight))
                 (tokenCounts, totalWeight) tokens in
         (tokenCounts', totalWeight', S idx))
      (tc, tw, idx) arrays
    = (tc', tw', idx')
    /\ (forall token,
          get_or_0 tc' token
          = get_or_0 tc token + weightedSum (occurrences token) weights idx arrays)
    /\ (forall token, is_Some (tc' !! token)
                      <-> is_Some (tc !! token) \/ Exists (fun T => token ∈ T) arrays)
    /\ tw' = tw + weightedSum length weights idx arrays
    /\ sumWeights tc' = sumWeights tc + weightedSum length weights idx arrays.
Proof.
  induction arrays as [|T arrays IH]; intros tc tw idx.
  - exists tc, tw, idx. cbn [foldl weightedSum].
    split; [reflexivity|]. split; [intros token; lra|].
    split; [|split; lra].
    intros token. split; [intros H; by left|].
    intros [H|H]; [exact H|inversion H].
  - cbn [foldl]. rewrite createCentroid_inner.
    destruct (IH (foldl (bump (weightAt weights idx)) tc T)
                 (tw + weightAt weights idx * INR (length T)) (S idx))
      as (tc' & tw' & idx' & Heq & Hget & Hdom & Htw & Hsum).
    exists tc', tw', idx'. split; [exact Heq|]. split; [|split; [|split]].
    + intros token. rewrite Hget, foldl_bump_lookup. cbn [weightedSum]. lra.
    + intros token. rewrite Hdom, foldl_bump_is_Some, Exists_cons. tauto.
    + rewrite Htw. cbn [weightedSum]. lra.
    + rewrite Hsum, sumWeights_foldl_bump. cbn [weightedSum]. lra.
Qed.

(** In exact arithmetic [createCentroid] gives every token the sum, over
    the token lists, of the weight of the list times the occurrences of
    the token in it, and the total weight is the sum of the token
    weights. *)
Lemma createCentroid_weights_exact :
  forall (arrays : list (list string)) (weights : option (list R)),
    (forall token,
        get_or_0 (tokens (createCentroid arrays weights)) token
        = weightedSum (occurrences token) weights 0 arrays)
    /\ totalWeight (createCentroid arrays weights)
       = weightedSum length weights 0 arrays
    /\ (forall token,
          is_Some (tokens (createCentroid arrays weights) !! token)
          <-> Exists (fun T => token ∈ T) arrays)
    /\ sumWeights (tokens (createCentroid arrays weights))
       = totalWeight (createCentroid arrays weights)
    /\ (forall T,
          createCentroid [T] None
          = updateCentroid {| tokens := ∅; totalWeight := 0 |} T 1).
Proof.
  intros arrays weights. unfold createCentroid. cbv zeta.
  destruct (createCentroid_outer weights arrays ∅ 0 0%nat)
    as (tc' & tw' & idx' & Heq & Hget & Hdom & Htw & Hsum).
  cbv zeta in Heq. rewrite Heq. cbn [tokens totalWeight].
  split; [|split; [|split; [|split]]].
  - intros token. rewrite Hget.
    replace (get_or_0 ∅ token) with 0 by (unfold get_or_0; by rewrite lookup_empty).
    lra.
  - rewrite Htw. lra.
  - intros token. rewrite Hdom, lookup_empty. split.
    + intros [[x Hx]|H]; [discriminate|exact H].
    + by right.
  - rewrite Hsum, Htw. unfold sumWeights. rewrite map_fold_empty. reflexivity.
  - intros T. cbn [foldl]. rewrite createCentroid_inner.
    unfold updateCentroid. cbn [tokens totalWeight].
    change (default 1 (None ≫= (fun ws : list R => ws !! 0%nat))) with 1.
    f_equal.
Qed.

End CentroidBuilding.

(** ** Similarity of centroids that the engine builds *)

Section SimilarityMore.
Import Tokens.
Local Open Scope R_scope.

Lemma dotL_cntL_disjoint (S : gset string) (l : list (string * R)) :
  (forall k w, (k, w) ∈ l -> k ∉ S) -> dotL S l = 0 /\ cntL S l = 0%nat.
Proof.
  induction l as [|[k w] l IH]; intros Hdis; [by split|].
  cbn [dotL cntL].
  destruct (decide (k ∈ S)) as [Hin|_]; [by apply (Hdis k w) in Hin; [|left]|].
  apply IH. intros k' w' Hin. apply (Hdis k' w'). by right.
Qed.

(** X7.  Without a token in common the similarity is 0: when no token of
    the list is a key of the centroid, the cosine, the Jaccard and the
    blended similarity are all 0. *)
Theorem similarity_zero_without_shared_token :
  forall (C : TokenCentroid) (T : list string),
    (forall token, In token T -> tokens C !! token = None) ->
    cosineSimilarity C T = 0
    /\ jaccardSimilarity C T = 0
    /\ weightedTokenSimilarity C T = 0.
Proof.
  intros C T Hdis.
  assert (Hzero : dotL (list_to_set T) (map_to_list (tokens C)) = 0
                  /\ cntL (list_to_set T) (map_to_list (tokens C)) = 0%nat).
  { apply dotL_cntL_disjoint. intros k w Hin Hk.
    apply elem_of_map_to_list in Hin. apply elem_of_list_to_set in Hk.
    apply list_elem_of_In in Hk. rewrite (Hdis k Hk) in Hin. discriminate. }
  destruct Hzero as [Hdot Hcnt].
  assert (Hcos : cosineSimilarity C T = 0).
  { rewrite cosineSimilarity_unfold. case_decide; [reflexivity|]. cbv zeta.
    case_decide; [reflexivity|]. rewrite Hdot. unfold Rdiv. lra. }
  assert (Hjac : jaccardSimilarity C T = 0).
  { rewrite jaccardSimilarity_unfold. case_decide; [reflexivity|]. cbv zeta.
    case_decide; [reflexivity|]. rewrite Hcnt. cbn [INR]. unfold Rdiv. lra. }
  split; [exact Hcos|]. split; [exact Hjac|].
  unfold weightedTokenSimilarity. cbv zeta. rewrite Hcos, Hjac. lra.
Qed.

Lemma similarity_zero_without_shared_token_witness :
  weightedTokenSimilarity Examples.unitCentroid ["github"; "org"]%string = 0.
Proof.
  apply (similarity_zero_without_shared_token Examples.unitCentroid
           ["github"; "org"]%string).
  intros token [<-|[<-|[]]]; reflexivity.
Defined.

Lemma foldl_bump_nonneg w T m :
  0 <= w ->
  (forall t x, m !! t = Some x -> 0 <= x) ->
  forall t x, foldl (bump w) m T !! t = Some x -> 0 <= x.
Proof.
  intros Hw Hm t x Hx.
  assert (Hget : get_or_0 (foldl (bump w) m T) t = x).
  { unfold get_or_0. by rewrite Hx. }
  rewrite foldl_bump_lookup in Hget.
  assert (0 <= get_or_0 m t).
  { unfold get_or_0. destruct (m !! t) as [y|] eqn:Hy; cbn; [by apply (Hm t)|lra]. }
  pose proof (pos_INR (occurrences t T)). nra.
Qed.

(** X8.  An update with a non-negative weight keeps the token weights
    non-negative. *)
Theorem updateCentroid_keeps_nonneg :
  forall (C : TokenCentroid) (T : list string) (w : R),
    0 <= w ->
    (forall token x, tokens C !! token = Some x -> 0 <= x) ->
    forall token x,
      tokens (updateCentroid C T w) !! token = Some x -> 0 <= x.
Proof.
  intros C T w Hw HC. unfold updateCentroid. cbn [tokens].
  by apply foldl_bump_nonneg.
Qed.

Lemma updateCentroid_keeps_nonneg_witness :
  Forall (fun entry => 0 <= entry.2)
    (map_to_list
       (tokens (updateCentroid Examples.unitCentroid ["abc"; "def"]%string 0.1))).
Proof.
  apply Forall_forall. intros [token x] Hin%elem_of_map_to_list. cbn [snd].
  revert token x Hin.
  apply (updateCentroid_keeps_nonneg Examples.unitCentroid
           ["abc"; "def"]%string 0.1).
  - lra.
  - exact unitCentroid_nonneg.
Defined.
End SimilarityMore.

(** ** More on the scorer *)

Section ScorerMore.
Import TabMatcher.
Local Open Scope R_scope.

Lemma scoreHostMatch_subprojects_spec tab sps :
  (Exists (fun sp => sig_host (sp_signature sp) = t_host tab) sps
   /\ scoreHostMatch_subprojects tab sps = 0.9)
  \/ (~ Exists (fun sp => sig_host (sp_signature sp) = t_host tab) sps
      /\ scoreHostMatch_subprojects tab sps = 0).
Proof.
  induction sps as [|sp sps IH]; cbn [scoreHostMatch_subprojects].
  - right. split; [intros H; inversion H|reflexivity].
  - destruct (String.eqb_spec (sig_host (sp_signature sp)) (t_host tab)) as [He|Hne].
    + left. split; [by constructor|reflexivity].
    + destruct IH as [[He Hs]|[Hn Hs]].
      * left. split; [by apply Exists_cons_tl|exact Hs].
      * right. split; [|exact Hs]. rewrite Exists_cons. tauto.
Qed.

(** X9.  The host sub-score is 0, 0.8, 0.9 or 1.0.  It is at least 0.8
    exactly for the projects that the first two stages of candidate
    narrowing look for: those with a host rule for the host of the tab, a
    subproject on that host, or a domain rule for its registrable domain;
    for every other project it is 0. *)
Theorem scoreHostMatch_values :
  forall (tab : TabMeta) (p : Project),
    (scoreHostMatch tab p = 0 \/ scoreHostMatch tab p = 0.8
     \/ scoreHostMatch tab p = 0.9 \/ scoreHostMatch tab p = 1.0)
    /\ (HostLocal tab p \/ DomainLocal tab p <-> 0.8 <= scoreHostMatch tab p)
    /\ (~ (HostLocal tab p \/ DomainLocal tab p) <-> scoreHostMatch tab p = 0).
Proof.
  intros tab p. unfold scoreHostMatch, HostLocal, DomainLocal.
  pose proof (scoreHostMatch_rules_spec tab (p_rules p)) as Hrules.
  destruct (scoreHostMatch_rules tab (p_rules p)) as [s|].
  - destruct Hrules as [Hs Hex].
    assert (Hlocal :
      (Exists (fun sp => sig_host (sp_signature sp) = t_host tab) (p_subprojects p)
       \/ Exists (fun r => r_type r = RHost /\ r_value r = t_host tab) (p_rules p))
      \/ Exists (fun r => r_type r = RDomain /\ r_value r = tabDomain tab)
                (p_rules p)) by tauto.
    split; [destruct Hs as [->| ->]; tauto|]. split.
    + split; [intros _; destruct Hs as [->| ->]; lra|by intros _].
    + split; [tauto|]. destruct Hs as [->| ->]; lra.
  - destruct Hrules as [Hnh Hnd].
    destruct (scoreHostMatch_subprojects_spec tab (p_subprojects p))
      as [[He ->]|[Hn ->]].
    + split; [tauto|]. split.
      * split; [intros _; lra|intros _; by left; left].
      * split; [intros Hno; exfalso; apply Hno; by left; left|lra].
    + split; [tauto|]. split.
      * split; [tauto|lra].
      * split; [reflexivity|tauto].
Qed.

Lemma foldl_max_spec {A} (f : R -> A -> R) (g : A -> bool) (h : A -> R)
    (l : list A) :
  (forall m x, f m x = if g x then Rmax m (h x) else m) ->
  forall m0,
    m0 <= foldl f m0 l
    /\ (forall x, In x l -> g x = true -> h x <= foldl f m0 l)
    /\ (foldl f m0 l = m0
        \/ exists x, In x l /\ g x = true /\ foldl f m0 l = h x).
Proof.
  intros Hf. induction l as [|x l IH]; intros m0; cbn [foldl].
  - split; [lra|]. split; [intros x []|by left].
  - destruct (IH (f m0 x)) as (Hle & Hall & Hval). rewrite Hf in *.
    destruct (g x) eqn:Hg.
    + pose proof (Rmax_l m0 (h x)). pose proof (Rmax_r m0 (h x)).
      split; [lra|]. split.
      * intros y [<-|Hin] Hgy; [lra|by apply Hall].
      * destruct Hval as [Hval|(y & Hin & Hgy & Hval)].
        -- rewrite Hval. unfold Rmax. destruct (Rle_dec m0 (h x)); [|by left].
           right. exists x. split; [by left|]. by split.
        -- right. exists y. split; [by right|]. by split.
    + split; [exact Hle|]. split.
      * intros y [<-|Hin] Hgy; [congruence|by apply Hall].
      * destruct Hval as [Hval|(y & Hin & Hgy & Hval)]; [by left|].
        right. exists y. split; [by right|]. by split.
Qed.

Lemma depthScore_ge_quarter prefix : 0.25 <= depthScore prefix.
Proof.
  unfold depthScore. cbv zeta.
  assert (Hlen : (1 <= length (JS.split "/"%char prefix))%nat).
  { unfold JS.split.
    destruct (JS.split_from "/"%char prefix "") eqn:Hs; [|cbn; lia].
    by apply split_from_nonempty in Hs. }
  apply le_INR in Hlen. cbn [INR] in Hlen.
  apply Rmin_glb; lra.
Qed.

(** X10.  The path sub-score is 0 when the joined path of the tab starts
    with no path rule and no subproject prefix of the project, and lies
    between 0.25 and 1 otherwise.  A subproject with an empty path prefix
    matches every tab: its project never scores below 0.25 on the path. *)
Theorem scorePathMatch_values :
  forall (tab : TabMeta) (p : Project),
    (PathLocal tab p -> 0.25 <= scorePathMatch tab p <= 1)
    /\ (~ PathLocal tab p -> scorePathMatch tab p = 0)
    /\ (Exists (fun sp => sig_pathPrefix (sp_signature sp) = EmptyString)
               (p_subprojects p) ->
        0.25 <= scorePathMatch tab p).
Proof.
  intros tab p.
  set (tabPath := JS.join "/" (t_pathTokens tab)).
  set (gr := fun r => bool_decide (r_type r = RPathPrefix)
                      && JS.startsWith tabPath (r_value r)).
  set (hr := fun r => depthScore (r_value r)).
  set (gs := fun sp => JS.startsWith tabPath (sig_pathPrefix (sp_signature sp))).
  set (hs := fun sp => depthScore (sig_pathPrefix (sp_signature sp))).
  set (fr := fun (maxScore : R) (rule : ProjectRule) =>
               if bool_decide (r_type rule = RPathPrefix) then
                 let tabPath := JS.join "/" (t_pathTokens tab) in
                 if JS.startsWith tabPath (r_value rule)
                 then Rmax maxScore (depthScore (r_value rule))
                 else maxScore
               else maxScore).
  set (fs := fun (maxScore : R) (subproject : Subproject) =>
               let pathPrefix := sig_pathPrefix (sp_signature subproject) in
               let tabPath := JS.join "/" (t_pathTokens tab) in
               if JS.startsWith tabPath pathPrefix
               then Rmax maxScore (depthScore pathPrefix)
               else maxScore).
  assert (Hunfold : scorePathMatch tab p
                    = foldl fs (foldl fr 0 (p_rules p)) (p_subprojects p))
    by reflexivity.
  assert (Hfr : forall m x, fr m x = if gr x then Rmax m (hr x) else m).
  { intros m x. unfold fr, gr, hr. cbv zeta. fold tabPath.
    by destruct (bool_decide _), (JS.startsWith _ _). }
  assert (Hfs : forall m x, fs m x = if gs x then Rmax m (hs x) else m)
    by reflexivity.
  destruct (foldl_max_spec fr gr hr (p_rules p) Hfr 0) as (Hr1 & Hr2 & Hr3).
  destruct (foldl_max_spec fs gs hs (p_subprojects p) Hfs (foldl fr 0 (p_rules p)))
    as (Hs1 & Hs2 & Hs3).
  rewrite <- Hunfold in Hs1, Hs2, Hs3.
  pose proof (scorePathMatch_le_1 tab p) as Hle.
  assert (Hlocal : PathLocal tab p -> 0.25 <= scorePathMatch tab p).
  { intros [Hex|Hex]; apply Exists_exists in Hex as (x & Hin & Hx).
    - destruct Hx as [Hty Hpre]. apply list_elem_of_In in Hin.
      pose proof (Hr2 x Hin) as Hx. unfold gr, hr, JS.startsWith, tabPath in Hx.
      rewrite bool_decide_eq_true_2, Hpre in Hx by exact Hty.
      specialize (Hx eq_refl).
      pose proof (depthScore_ge_quarter (r_value x)). lra.
    - apply list_elem_of_In in Hin.
      pose proof (Hs2 x Hin Hx) as Hx'. unfold hs in Hx'.
      pose proof (depthScore_ge_quarter (sig_pathPrefix (sp_signature x))). lra. }
  split; [intros Hl; split; [by apply Hlocal|exact Hle]|]. split.
  - intros Hnl.
    destruct Hs3 as [Hs3|(x & Hin & Hg & _)].
    + rewrite Hs3. destruct Hr3 as [Hr3|(x & Hin & Hg & _)]; [exact Hr3|].
      exfalso. apply Hnl. left. apply Exists_exists. exists x.
      split; [by apply list_elem_of_In|].
      unfold gr in Hg. apply andb_true_iff in Hg as [Hty Hpre].
      by apply bool_decide_eq_true in Hty.
    + exfalso. apply Hnl. right. apply Exists_exists. exists x.
      split; [by apply list_elem_of_In|exact Hg].
  - intros Hex. apply Hlocal. right.
    eapply Exists_impl; [exact Hex|]. intros sp Hsp. cbn beta in Hsp.
    rewrite Hsp. by destruct (JS.join "/" (t_pathTokens tab)).
Qed.
End ScorerMore.

(** ** Subproject resolution and the best match *)

Section BestMatchFacts.
Import TabMatcher.
Local Open Scope R_scope.

Lemma foldl_pick_In {A B} (step : A * B -> A -> A * B) (l : list A) :
  (forall acc x, (step acc x).1 = acc.1 \/ (step acc x).1 = x) ->
  forall init, In (foldl step init l).1 (init.1 :: l).
Proof.
  intros Hstep. induction l as [|x l IH]; intros init; cbn [foldl].
  - by left.
  - destruct (IH (step init x)) as [Heq|Hin].
    + rewrite <- Heq. destruct (Hstep init x) as [-> | ->]; [by left|right; by left].
    + right. by right.
Qed.

(** X11.  Subproject resolution returns a subproject of the project or
    none at all: none for a project without subprojects, and the first
    subproject whose [host:pathPrefix] equals the key of the tab when
    there is one. *)
Theorem findBestSubproject_member :
  forall (tab : TabMeta) (p : Project),
    (p_subprojects p = [] -> findBestSubproject tab p = None)
    /\ (forall sp, findBestSubproject tab p = Some sp -> In sp (p_subprojects p))
    /\ (forall sp, List.find (hasKeyOf tab) (p_subprojects p) = Some sp ->
                   findBestSubproject tab p = Some sp).
Proof.
  intros tab p. unfold findBestSubproject.
  destruct (p_subprojects p) as [|first rest] eqn:Hsubs.
  { split; [reflexivity|]. split; [discriminate|]. cbn. discriminate. }
  cbv zeta. unfold JS.find.
  change (List.find _ (first :: rest))
    with (List.find (hasKeyOf tab) (first :: rest)).
  split; [discriminate|].
  destruct (List.find (hasKeyOf tab) (first :: rest)) as [exact|] eqn:Hfind.
  { split.
    - intros sp [= <-]. by apply find_some in Hfind as [Hin _].
    - intros sp [= <-]. reflexivity. }
  split; [|discriminate].
  intros sp.
  match goal with
  | |- context [foldl ?step (first, -1) (first :: rest)] =>
      assert (Hin : In (foldl step (first, -1) (first :: rest)).1
                       ((first, -1).1 :: first :: rest))
        by (apply foldl_pick_In; intros [b s] x; cbv zeta;
            destruct (bool_decide _); [by right|by left]);
      destruct (foldl step (first, -1) (first :: rest)) as [best bestScore]
  end.
  destruct (bool_decide (bestScore > 0.3)); [|discriminate].
  intros [= <-]. cbn [fst] in Hin.
  destruct Hin as [<-|Hin]; [by left|exact Hin].
Qed.

Lemma head_sorted_max {A} (key : A -> R) (l : list A) (x : A) :
  StronglySorted (fun a b => key a >= key b) l ->
  head l = Some x -> forall y, In y l -> key y <= key x.
Proof.
  intros Hs Hhead y Hin. destruct l as [|z l]; [discriminate|].
  injection Hhead as ->. apply StronglySorted_inv in Hs as [_ Hall].
  destruct Hin as [<-|Hin]; [lra|].
  rewrite Forall_forall in Hall. apply list_elem_of_In in Hin.
  specialize (Hall y Hin). lra.
Qed.

Lemma scoreAllProjects_In now tab projects ctx r :
  In r (scoreAllProjects DEFAULT_MATCHER_CONFIG now tab projects ctx)
  <-> (exists p, In p projects
                 /\ r = scoreTabForProject DEFAULT_MATCHER_CONFIG now tab p ctx)
      /\ score r >= 0.3.
Proof.
  unfold scoreAllProjects. cbv zeta.
  rewrite <- list_elem_of_In, (sort_Permutation byScoreDesc), list_elem_of_In.
  rewrite filter_In, in_map_iff, bool_decide_eq_true.
  cbn [minThreshold DEFAULT_MATCHER_CONFIG].
  split; intros [(q & H1 & H2) Hs]; (split; [exists q|exact Hs]); by split.
Qed.

(** X12.  [getBestMatch] returns a candidate with the highest total: the
    result is the score of one of the narrowed candidates, it is at least
    0.3, and no candidate scores higher.  It returns nothing exactly when
    every candidate scores below 0.3. *)
Theorem getBestMatch_maximal :
  forall (now : Z) (tab : TabMeta) (projects : list Project)
         (ctx : option ActiveContext),
    match getBestMatch DEFAULT_MATCHER_CONFIG now tab projects ctx with
    | Some bm =>
        (exists p, In p (narrowCandidates now tab projects)
                   /\ bm = scoreTabForProject DEFAULT_MATCHER_CONFIG now tab p ctx)
        /\ score bm >= 0.3
        /\ forall p, In p (narrowCandidates now tab projects) ->
             score (scoreTabForProject DEFAULT_MATCHER_CONFIG now tab p ctx)
             <= score bm
    | None =>
        forall p, In p (narrowCandidates now tab projects) ->
          score (scoreTabForProject DEFAULT_MATCHER_CONFIG now tab p ctx) < 0.3
    end.
Proof.
  intros now tab projects ctx. unfold getBestMatch. cbv zeta.
  set (candidates := narrowCandidates now tab projects).
  set (results := scoreAllProjects DEFAULT_MATCHER_CONFIG now tab candidates ctx).
  assert (Hsorted : StronglySorted (fun a b => score a >= score b) results).
  { unfold results, scoreAllProjects, byScoreDesc. apply sort_desc_R. }
  destruct (head results) as [bm|] eqn:Hhead.
  - assert (Hbm : In bm results).
    { apply list_elem_of_In. by apply head_Some_elem_of. }
    apply scoreAllProjects_In in Hbm as [Hp Hge].
    split; [exact Hp|]. split; [exact Hge|].
    intros p Hin.
    destruct (Rlt_dec (score (scoreTabForProject DEFAULT_MATCHER_CONFIG now tab p ctx))
                      0.3) as [Hlow|Hhigh]; [lra|].
    apply (head_sorted_max score results bm Hsorted Hhead).
    apply scoreAllProjects_In. split; [by exists p|lra].
  - intros p Hin.
    destruct (Rlt_dec (score (scoreTabForProject DEFAULT_MATCHER_CONFIG now tab p ctx))
                      0.3) as [Hlow|Hhigh]; [exact Hlow|].
    assert (Hres : In (scoreTabForProject DEFAULT_MATCHER_CONFIG now tab p ctx)
                      results).
    { apply scoreAllProjects_In. split; [by exists p|lra]. }
    destruct results; [destruct Hres|discriminate].
Qed.


(** X13.  Candidate narrowing selects among the supplied projects only,
    and it selects at least one whenever a project is supplied. *)
Theorem narrowCandidates_subset_nonempty :
  forall (now : Z) (tab : TabMeta) (projects : list Project),
    (forall p, In p (narrowCandidates now tab projects) -> In p projects)
    /\ (narrowCandidates now tab projects = [] <-> projects = []).
Proof.
  intros now tab projects. unfold narrowCandidates. cbv zeta.
  rewrite sameHost_filter, sameDomain_filter, recent_filter.
  rewrite nonempty_take by lia.
  assert (Hsub : forall (P : Project -> Prop) `{forall x, Decision (P x)} p,
             In p (filter P projects) -> In p projects).
  { intros P Hdec p Hin. apply list_elem_of_In in Hin.
    apply list_elem_of_filter in Hin as [_ Hin]. by apply list_elem_of_In. }
  assert (Hne : forall (l : list Project),
             (0 <? length l)%nat = true -> l <> []).
  { intros l Hl ->. discriminate Hl. }
  destruct (0 <? length (filter (HostLocal tab) projects))%nat eqn:Hh.
  { split; [apply Hsub|].
    split; [intros He; by apply Hne in Hh|intros ->; reflexivity]. }
  destruct (0 <? length (filter (DomainLocal tab) projects))%nat eqn:Hd.
  { split; [apply Hsub|].
    split; [intros He; by apply Hne in Hd|intros ->; reflexivity]. }
  assert (Hlen : length (JS.sort byLastActiveDesc
                           (filter (RecentlyActive now) projects))
                 = length (filter (RecentlyActive now) projects)).
  { apply Permutation_length, sort_Permutation. }
  rewrite Hlen.
  destruct (0 <? length (filter (RecentlyActive now) projects))%nat eqn:Hr.
  - split.
    + intros p Hin. apply list_elem_of_In, subseteq_take in Hin.
      rewrite (sort_Permutation byLastActiveDesc) in Hin.
      apply list_elem_of_In in Hin. by apply Hsub in Hin.
    + split; [|intros ->; reflexivity].
      intros He. exfalso.
      assert (Hpos : (0 <? length (take 15 (JS.sort byLastActiveDesc
                        (filter (RecentlyActive now) projects))))%nat = true).
      { rewrite nonempty_take by lia. by rewrite Hlen. }
      by rewrite He in Hpos.
  - split.
    + intros p Hin. apply list_elem_of_In, subseteq_take in Hin.
      by apply list_elem_of_In.
    + destruct projects; [done|]. split; discriminate.
Qed.
End BestMatchFacts.

(** ** More on the context tracker *)

Section ContextMore.
Import Store ContextTracker.
Local Open Scope R_scope.

Lemma find_sorted_max {A} (key : A -> R) (f : A -> bool) (l : list A) (x : A) :
  StronglySorted (fun a b => key a >= key b) l ->
  List.find f l = Some x ->
  forall y, In y l -> f y = true -> key y <= key x.
Proof.
  induction 1 as [|z l Hs IH Hall]; cbn [List.find]; [discriminate|].
  destruct (f z) eqn:Hfz.
  - intros [= <-] y [<-|Hin] _; [lra|].
    rewrite Forall_forall in Hall. apply list_elem_of_In in Hin.
    specialize (Hall y Hin). lra.
  - intros Hfind y [<-|Hin] Hfy; [congruence|]. by apply IH.
Qed.

Lemma recentTabs_In now windowId activatedTab w rt :
  In rt (ctx_recentTabs (updateContext now windowId activatedTab w).1)
  <-> exists t, In t (getAllTabs w) /\ InRollingWindow now windowId t
                /\ rt = activityOf now t.
Proof.
  unfold updateContext. cbv zeta. cbn [fst ctx_recentTabs].
  rewrite retained_tabs.
  rewrite <- list_elem_of_In, (sort_Permutation byWeightDesc), list_elem_of_In.
  rewrite in_map_iff. split.
  - intros (t & <- & Hin). exists t. apply list_elem_of_In in Hin.
    apply list_elem_of_filter in Hin as [Hwin Hin].
    split; [by apply list_elem_of_In|]. by split.
  - intros (t & Hin & Hwin & ->). exists t. split; [reflexivity|].
    apply list_elem_of_In, list_elem_of_filter. split; [exact Hwin|].
    by apply list_elem_of_In.
Qed.

Lemma activityOf_weight now t : rt_weight (activityOf now t) = tabWeight now t.
Proof. reflexivity. Qed.

(** X14.  Chain proximity on a freshly computed context: the project of
    the activated tab gets 1.0; any other project gets 0.8 times the
    largest weight among the tabs of the window that are inside the
    rolling window and belong to the project, and 0 when there is no such
    tab. *)
Theorem chainProximity_of_context :
  forall (now windowId : Z) (activatedTab : TabMeta) (w : World)
         (tab : TabMeta) (p : Project),
    (t_projectId activatedTab = Some (p_projectId p) ->
     TabMatcher.scoreChainProximity tab p
       (Some (updateContext now windowId activatedTab w).1) = 1.0)
    /\ (t_projectId activatedTab <> Some (p_projectId p) ->
        (forall t, In t (getAllTabs w) -> InRollingWindow now windowId t ->
                   t_projectId t = Some (p_projectId p) ->
                   tabWeight now t * 0.8
                   <= TabMatcher.scoreChainProximity tab p
                        (Some (updateContext now windowId activatedTab w).1))
        /\ (TabMatcher.scoreChainProximity tab p
              (Some (updateContext now windowId activatedTab w).1) = 0
            \/ exists t, In t (getAllTabs w) /\ InRollingWindow now windowId t
                         /\ t_projectId t = Some (p_projectId p)
                         /\ TabMatcher.scoreChainProximity tab p
                              (Some (updateContext now windowId activatedTab w).1)
                            = tabWeight now t * 0.8)
        /\ ((forall t, In t (getAllTabs w) -> InRollingWindow now windowId t ->
                       t_projectId t <> Some (p_projectId p)) ->
            TabMatcher.scoreChainProximity tab p
              (Some (updateContext now windowId activatedTab w).1) = 0)).
Proof.
  intros now windowId activatedTab w tab p.
  set (ctx := (updateContext now windowId activatedTab w).1).
  assert (Hactive : ctx_activeProjectId ctx = t_projectId activatedTab)
    by reflexivity.
  unfold TabMatcher.scoreChainProximity. rewrite Hactive. split.
  { intros Ha. by rewrite bool_decide_eq_true_2. }
  intros Hna. rewrite bool_decide_eq_false_2 by exact Hna. cbv zeta.
  unfold JS.find.
  set (f := fun rt => bool_decide (rt_projectId rt = Some (p_projectId p))).
  assert (Hsorted : StronglySorted (fun a b => rt_weight a >= rt_weight b)
                      (ctx_recentTabs ctx)).
  { unfold ctx, updateContext, byWeightDesc. cbv zeta. cbn [fst ctx_recentTabs].
    apply sort_desc_R. }
  destruct (List.find f (ctx_recentTabs ctx)) as [rt|] eqn:Hfind.
  - pose proof (find_some _ _ Hfind) as [Hin Hf].
    apply recentTabs_In in Hin as (t0 & Hin0 & Hwin0 & ->).
    apply bool_decide_eq_true in Hf. cbn [rt_projectId activityOf] in Hf.
    split; [|split].
    + intros t Hin Hwin Hp.
      assert (Hle : rt_weight (activityOf now t) <= rt_weight (activityOf now t0)).
      { apply (find_sorted_max rt_weight f (ctx_recentTabs ctx) _ Hsorted Hfind).
        - apply recentTabs_In. by exists t.
        - by apply bool_decide_eq_true_2. }
      rewrite !activityOf_weight in *. lra.
    + right. exists t0. rewrite activityOf_weight.
      split; [exact Hin0|]. split; [exact Hwin0|]. split; [exact Hf|reflexivity].
    + intros Hnone. exfalso. by apply (Hnone t0).
  - split; [|split; [by left|reflexivity]].
    intros t Hin Hwin Hp. exfalso.
    assert (Hrt : In (activityOf now t) (ctx_recentTabs ctx)).
    { apply recentTabs_In. by exists t. }
    pose proof (find_none _ _ Hfind _ Hrt) as Hf. unfold f in Hf.
    apply bool_decide_eq_false in Hf. by apply Hf.
Qed.

(** X15.  The context that [updateContext] computes is what [getContext]
    hands out for the window for the next 5 seconds, and nothing after
    that; the contexts of the other windows, the stored tabs and the
    stored projects are left as they are. *)
Theorem updateContext_getContext :
  forall (now now' windowId windowId' : Z) (activatedTab : TabMeta) (w : World),
    getContext now' windowId (updateContext now windowId activatedTab w).2
    = (if (now' - now <? 5000)%Z
       then Some (updateContext now windowId activatedTab w).1 else None)
    /\ (windowId' <> windowId ->
        getContext now' windowId' (updateContext now windowId activatedTab w).2
        = getContext now' windowId' w)
    /\ db_tabs (updateContext now windowId activatedTab w).2 = db_tabs w
    /\ db_projects (updateContext now windowId activatedTab w).2 = db_projects w.
Proof.
  intros now now' windowId windowId' activatedTab w.
  unfold updateContext, getContext, setContext. cbv zeta.
  cbn [fst snd activeContexts db_tabs db_projects].
  split; [|split; [|split]]; try reflexivity.
  - rewrite lookup_insert_eq. reflexivity.
  - intros Hne. by rewrite lookup_insert_ne.
Qed.

(** X16.  After [clearContext] the window has no context, whatever was
    computed for it before; the other windows keep theirs. *)
Theorem clearContext_getContext :
  forall (now now' windowId windowId' : Z) (activatedTab : TabMeta) (w : World),
    getContext now' windowId (clearContext windowId w) = None
    /\ getContext now' windowId
         (clearContext windowId (updateContext now windowId activatedTab w).2)
       = None
    /\ (windowId' <> windowId ->
        getContext now' windowId' (clearContext windowId w)
        = getContext now' windowId' w).
Proof.
  intros now now' windowId windowId' activatedTab w.
  unfold clearContext, deleteContext, getContext. cbn [activeContexts].
  split; [|split].
  - by rewrite lookup_delete_eq.
  - by rewrite lookup_delete_eq.
  - intros Hne. by rewrite lookup_delete_ne.
Qed.
End ContextMore.



(** ** Making a project for a tab *)

Section NewProjectFacts.
Import Store Core TabMatcher.
Local Open Scope string_scope.
Local Open Scope R_scope.

Lemma prefix_empty s : String.prefix "" s = true.
Proof. by destruct s. Qed.

Lemma prefix_refl s : String.prefix s s = true.
Proof.
  induction s as [|c s IH]; [reflexivity|]. cbn [String.prefix].
  by destruct (ascii_dec c c).
Qed.

Lemma prefix_append_r s t : String.prefix s (s ++ t) = true.
Proof.
  induction s as [|c s IH]; [apply prefix_empty|].
  rewrite append_cons. cbn [String.prefix]. by destruct (ascii_dec c c).
Qed.

Lemma prefix_append_same s t1 t2 :
  String.prefix (s ++ t1) (s ++ t2) = String.prefix t1 t2.
Proof.
  induction s as [|c s IH]; [reflexivity|].
  rewrite !append_cons. cbn [String.prefix]. by destruct (ascii_dec c c).
Qed.

(** The joined first segments of a path are a prefix of the joined path. *)
Lemma prefix_join_take sep n l :
  String.prefix (JS.join sep (take n l)) (JS.join sep l) = true.
Proof.
  unfold JS.join. revert n. induction l as [|x l IH]; intros n.
  - by rewrite take_nil.
  - destruct n as [|n]; [apply prefix_empty|]. cbn [take].
    destruct l as [|y l].
    + rewrite take_nil. apply prefix_refl.
    + destruct n as [|n].
      * cbn [take String.concat]. apply prefix_append_r.
      * specialize (IH (S n)). cbn [take] in IH |- *.
        change (String.concat sep (x :: y :: take n l))
          with (x ++ sep ++ String.concat sep (y :: take n l)).
        change (String.concat sep (x :: y :: l))
          with (x ++ sep ++ String.concat sep (y :: l)).
        by rewrite !prefix_append_same.
Qed.

Lemma createCentroid_single T :
  Tokens.createCentroid [T] None
  = Tokens.updateCentroid {| tokens := ∅; totalWeight := 0 |} T 1.
Proof.
  unfold Tokens.createCentroid. cbv zeta. cbn [foldl].
  rewrite createCentroid_inner. unfold Tokens.updateCentroid.
  cbn [tokens totalWeight].
  change (default 1 (None ≫= (fun ws : list R => ws !! 0%nat))) with 1.
  f_equal.
Qed.

Lemma createCentroid_single_nonneg T token x :
  tokens (Tokens.createCentroid [T] None) !! token = Some x -> 0 <= x.
Proof.
  rewrite createCentroid_single. unfold Tokens.updateCentroid. cbn [tokens].
  apply foldl_bump_nonneg; [lra|]. intros t y. by rewrite lookup_empty.
Qed.

(** X17.  The project made for a tab fits the tab: it is stored under its
    id, it carries one host rule for the host of the tab and one
    subproject for the host and the first two path segments, so that on
    the tab its host sub-score is 1.0, its path sub-score at least 0.25,
    and subproject resolution returns the new subproject; its centroid
    weights are non-negative and its colour is the palette entry at the
    number of stored projects modulo ten. *)
Theorem createProjectForTab_fits_tab :
  forall (env : Env) (tab : TabMeta) (w : World),
    getProject (p_projectId (createProjectForTab env tab w).1)
               (createProjectForTab env tab w).2
    = Some (createProjectForTab env tab w).1
    /\ p_rules (createProjectForTab env tab w).1
       = [ {| r_type := RHost; r_value := t_host tab; r_weight := 1.0 |} ]
    /\ (exists sp,
          p_subprojects (createProjectForTab env tab w).1 = [sp]
          /\ sig_host (sp_signature sp) = t_host tab
          /\ sig_pathPrefix (sp_signature sp)
             = JS.join "/" (take 2 (t_pathTokens tab))
          /\ findBestSubproject tab (createProjectForTab env tab w).1 = Some sp)
    /\ scoreHostMatch tab (createProjectForTab env tab w).1 = 1.0
    /\ 0.25 <= scorePathMatch tab (createProjectForTab env tab w).1
    /\ (forall token x,
          tokens (p_centroid (createProjectForTab env tab w).1) !! token = Some x ->
          0 <= x)
    /\ p_color (createProjectForTab env tab w).1
       = nth (length (getAllProjects w) mod 10) projectColors ""
    /\ db_tabs (createProjectForTab env tab w).2 = db_tabs w.
Proof.
  intros env tab w.
  set (p := (createProjectForTab env tab w).1).
  assert (Hstored : (createProjectForTab env tab w).2
                    = projectCache_set p (putProject p w)) by reflexivity.
  split.
  { rewrite Hstored.
    rewrite (getProject_db_projects _ _ (putProject p w)) by reflexivity.
    apply getProject_putProject_same. }
  split; [reflexivity|].
  assert (Hsub : exists sp,
             p_subprojects p = [sp]
             /\ sig_host (sp_signature sp) = t_host tab
             /\ sig_pathPrefix (sp_signature sp)
                = JS.join "/" (take 2 (t_pathTokens tab))
             /\ findBestSubproject tab p = Some sp).
  { eexists. split; [reflexivity|]. split; [reflexivity|]. split; [reflexivity|].
    unfold findBestSubproject.
    cbn [p_subprojects p createProjectForTab fst]. cbv zeta.
    unfold JS.find. cbn [List.find sp_signature sig_host sig_pathPrefix].
    unfold Url.createSubprojectKey, Url.getPathPrefix. cbv zeta.
    by rewrite String.eqb_refl. }
  split; [exact Hsub|]. split.
  { unfold scoreHostMatch. cbn [p_rules p createProjectForTab fst].
    cbn [scoreHostMatch_rules r_type r_value].
    by rewrite String.eqb_refl. }
  split.
  { destruct Hsub as (sp & Hsubs & _ & Hprefix & _).
    unfold scorePathMatch. cbv zeta.
    change (p_rules p)
      with [ {| r_type := RHost; r_value := t_host tab; r_weight := 1.0 |} ].
    rewrite Hsubs. cbn [foldl r_type]. rewrite Hprefix.
    unfold JS.startsWith. rewrite prefix_join_take.
    pose proof (depthScore_ge_quarter (JS.join "/" (take 2 (t_pathTokens tab))))
      as H.
    etrans; [exact H|]. apply Rmax_r. }
  split; [apply createCentroid_single_nonneg|].
  split; reflexivity.
Qed.
End NewProjectFacts.

(** ** What a run leaves in the store *)

Section RunEffects.
Import Store Core TabMatcher.
Local Open Scope string_scope.
Local Open Scope R_scope.

Lemma assignDefault_stores env tab w :
  getTab (t_tabId tab) (assignDefault env tab w).2 = Some (assignDefault env tab w).1.2
  /\ t_tabId (assignDefault env tab w).1.2 = t_tabId tab
  /\ t_projectId (assignDefault env tab w).1.2
     = Some (ta_projectId (assignDefault env tab w).1.1)
  /\ t_subprojectId (assignDefault env tab w).1.2
     = ta_subprojectId (assignDefault env tab w).1.1
  /\ ta_tabId (assignDefault env tab w).1.1 = t_tabId tab
  /\ (forall tabId, tabId <> t_tabId tab ->
        getTab tabId (assignDefault env tab w).2 = getTab tabId w).
Proof.
  unfold assignDefault, createProjectForTab. cbv beta iota zeta.
  cbn [fst snd]. split; [|split; [|split; [|split; [|split]]]]; try reflexivity.
  - match goal with
    | |- getTab _ (putTab ?t ?W) = _ => exact (getTab_putTab_same t W)
    end.
  - intros tabId Hne.
    match goal with
    | |- getTab _ (putTab ?t ?W) = _ =>
        rewrite (getTab_putTab_other tabId t W) by exact Hne
    end.
    reflexivity.
Qed.

(** X18.  A run that gets past the manual guard stores what it returns:
    the record of the tab in the store is the tab as the run leaves it,
    with the project and the subproject of the returned assignment; the
    records of the other tabs are not touched. *)
Theorem assign_stores_assignment :
  forall (env : Env) (tab : TabMeta) (windowId : Z) (w : World),
    ~ isManual tab ->
    getTab (t_tabId tab) (assignTabToProject env tab windowId w).2
    = Some (assignTabToProject env tab windowId w).1.2
    /\ t_tabId (assignTabToProject env tab windowId w).1.2 = t_tabId tab
    /\ t_projectId (assignTabToProject env tab windowId w).1.2
       = Some (ta_projectId (assignTabToProject env tab windowId w).1.1)
    /\ t_subprojectId (assignTabToProject env tab windowId w).1.2
       = ta_subprojectId (assignTabToProject env tab windowId w).1.1
    /\ ta_tabId (assignTabToProject env tab windowId w).1.1 = t_tabId tab
    /\ (forall tabId, tabId <> t_tabId tab ->
          getTab tabId (assignTabToProject env tab windowId w).2
          = getTab tabId w).
Proof.
  intros env tab windowId w Hnm. unfold assignTabToProject.
  rewrite manual_guard_skip by exact Hnm.
  destruct (length (getAllProjects w) =? 0)%nat; [apply assignDefault_stores|].
  unfold ContextTracker.updateContext. cbv zeta.
  set (w1 := setContext windowId _ w).
  assert (Hdefault := assignDefault_stores env tab w1).
  assert (Hw1 : forall tabId, getTab tabId w1 = getTab tabId w) by reflexivity.
  destruct (getBestMatch _ _ _ _ _) as [bm|].
  2:{ destruct Hdefault as (H1 & H2 & H3 & H4 & H5 & H6).
      repeat (split; [assumption|]). intros tabId Hne. by rewrite H6, Hw1. }
  destruct (bool_decide (score bm > 0.5)).
  2:{ destruct Hdefault as (H1 & H2 & H3 & H4 & H5 & H6).
      repeat (split; [assumption|]). intros tabId Hne. by rewrite H6, Hw1. }
  clear Hdefault. cbn [fst snd].
  set (tab' := setAssignment tab (sr_projectId bm) (sr_subprojectId bm)).
  set (w3 := match getProject (sr_projectId bm) (putTab tab' w1) with
             | Some project =>
                 updateProjectCentroid env (touchProject (now_commit env) project)
                   tab' (putTab tab' w1)
             | None => putTab tab' w1
             end).
  assert (Hw3 : db_tabs w3 = db_tabs (putTab tab' w1)).
  { unfold w3. by destruct (getProject _ _). }
  split; [|split; [|split; [|split; [|split]]]]; try reflexivity.
  - rewrite (getTab_db_tabs _ _ _ Hw3). exact (getTab_putTab_same tab' w1).
  - intros tabId Hne. rewrite (getTab_db_tabs _ _ _ Hw3).
    rewrite (getTab_putTab_other tabId tab' w1) by exact Hne. apply Hw1.
Qed.

Lemma assign_stores_assignment_witness :
  getTab 7 (assignTabToProject (Examples.envAt (Examples.minutes 60))
              Examples.githubTab 1 (Examples.worldWith Examples.hostProject)).2
  = Some (assignTabToProject (Examples.envAt (Examples.minutes 60))
            Examples.githubTab 1 (Examples.worldWith Examples.hostProject)).1.2.
Proof.
  apply (assign_stores_assignment (Examples.envAt (Examples.minutes 60))
           Examples.githubTab 1%Z (Examples.worldWith Examples.hostProject)).
  exact githubTab_not_manual.
Defined.

(** X19.  On an empty store a run that gets past the manual guard
    bootstraps: it returns method [default] with confidence 1.0, computes
    no context, and leaves exactly one project in the store, named after
    the host without a leading [www.], coloured with the first palette
    entry, with one host rule for the host of the tab and one subproject
    for the host and the first two path segments, to which the tab is
    assigned. *)
Theorem bootstrap_on_empty_store :
  forall (env : Env) (tab : TabMeta) (windowId : Z) (w : World),
    ~ isManual tab ->
    getAllProjects w = [] ->
    ta_method (assignTabToProject env tab windowId w).1.1 = MDefault
    /\ ta_confidence (assignTabToProject env tab windowId w).1.1 = 1.0
    /\ activeContexts (assignTabToProject env tab windowId w).2 = activeContexts w
    /\ exists p sp,
         getAllProjects (assignTabToProject env tab windowId w).2 = [p]
         /\ ta_projectId (assignTabToProject env tab windowId w).1.1
            = p_projectId p
         /\ p_name p = stripWww (t_host tab)
         /\ p_color p = "#ef4444"
         /\ p_rules p
            = [ {| r_type := RHost; r_value := t_host tab; r_weight := 1.0 |} ]
         /\ p_subprojects p = [sp]
         /\ ta_subprojectId (assignTabToProject env tab windowId w).1.1
            = Some (sp_subprojectId sp)
         /\ sig_host (sp_signature sp) = t_host tab
         /\ sig_pathPrefix (sp_signature sp)
            = JS.join "/" (take 2 (t_pathTokens tab)).
Proof.
  intros env tab windowId w Hnm Hempty. unfold assignTabToProject.
  rewrite manual_guard_skip by exact Hnm.
  rewrite Hempty. cbn [length Nat.eqb].
  unfold assignDefault, createProjectForTab. cbv beta iota zeta.
  rewrite Hempty.
  cbn [fst snd ta_method ta_confidence ta_projectId ta_subprojectId].
  split; [reflexivity|]. split; [reflexivity|]. split; [reflexivity|].
  eexists. eexists.
  split.
  { unfold getAllProjects, IDB.getAll in *.
    unfold putTab, projectCache_set, putProject, IDB.put.
    cbn [db_projects IDB.records]. rewrite Hempty. reflexivity. }
  repeat (split; [reflexivity|]). reflexivity.
Qed.

Lemma bootstrap_on_empty_store_witness :
  ta_method
    (assignTabToProject (Examples.envAt 0) Examples.githubTab 1
       Examples.emptyWorld).1.1
  = MDefault.
Proof.
  apply (bootstrap_on_empty_store (Examples.envAt 0) Examples.githubTab 1%Z
           Examples.emptyWorld).
  - exact githubTab_not_manual.
  - reflexivity.
Defined.

(** X20.  [updateTabActivity] on a tab that is not stored changes
    nothing.  On a stored tab it sets the last activity to the clock
    reading and adds the dwell time to the active score, keeps the other
    fields, among them the assignment and the manual flag, and touches
    neither another tab nor a project nor a context. *)
Theorem updateTabActivity_effect :
  forall (now tabId dwellTime : Z) (w : World),
    (getTab tabId w = None -> updateTabActivity now tabId dwellTime w = w)
    /\ (forall tab, getTab tabId w = Some tab ->
          exists tab',
            getTab tabId (updateTabActivity now tabId dwellTime w) = Some tab'
            /\ t_lastActiveAt tab' = now
            /\ t_activeScore tab' = (t_activeScore tab + dwellTime)%Z
            /\ t_projectId tab' = t_projectId tab
            /\ t_subprojectId tab' = t_subprojectId tab
            /\ t_manuallyAssigned tab' = t_manuallyAssigned tab
            /\ t_windowId tab' = t_windowId tab
            /\ t_host tab' = t_host tab)
    /\ (forall other, other <> tabId ->
          getTab other (updateTabActivity now tabId dwellTime w) = getTab other w)
    /\ db_projects (updateTabActivity now tabId dwellTime w) = db_projects w
    /\ activeContexts (updateTabActivity now tabId dwellTime w) = activeContexts w.
Proof.
  intros now tabId dwellTime w. unfold updateTabActivity.
  destruct (getTab tabId w) as [tab|] eqn:Hget.
  - pose proof (getTab_found _ _ _ Hget) as Hid. cbv zeta.
    split; [discriminate|]. split; [|split; [|split]]; try reflexivity.
    + intros tab0 [= <-]. exists (recordActivity now dwellTime tab).
      split; [|repeat split].
      rewrite (getTab_db_tabs _ _ (putTab (recordActivity now dwellTime tab) w))
        by reflexivity.
      rewrite <- Hid. exact (getTab_putTab_same (recordActivity now dwellTime tab) w).
    + intros other Hne.
      rewrite (getTab_db_tabs _ _ (putTab (recordActivity now dwellTime tab) w))
        by reflexivity.
      apply getTab_putTab_other. cbn [t_tabId recordActivity]. congruence.
  - split; [reflexivity|]. split; [discriminate|]. by repeat split.
Qed.
End RunEffects.

(** ** The feedback of a committed assignment *)

Section CommitEffects.
Import Store Core TabMatcher.
Local Open Scope R_scope.




End CommitEffects.

(** ** An invariant of the stored centroids *)

Section CentroidInvariant.
Import Store Core TabMatcher.
Local Open Scope R_scope.

Lemma Forall_update_first {A} (P : A -> Prop) (f : A -> bool) (g : A -> A)
    (l : list A) :
  (forall x, P x -> P (g x)) -> Forall P l -> Forall P (update_first f g l).
Proof.
  intros Hg. induction 1 as [|x l Hx Hl IH]; cbn [update_first]; [constructor|].
  destruct (f x); constructor; auto.
Qed.

Lemma updateCentroid_nonneg C T w :
  0 <= w -> nonnegCentroid C -> nonnegCentroid (Tokens.updateCentroid C T w).
Proof.
  intros Hw HC. unfold nonnegCentroid, Tokens.updateCentroid. cbn [tokens].
  by apply foldl_bump_nonneg.
Qed.

Lemma createProjectForTab_nonneg env tab w :
  centroidsNonneg (createProjectForTab env tab w).1.
Proof.
  split.
  - intros token x. apply createCentroid_single_nonneg.
  - constructor; [|constructor].
    intros token x. apply createCentroid_single_nonneg.
Qed.

Lemma createProjectForTab_projects env tab w p :
  In p (getAllProjects (createProjectForTab env tab w).2) ->
  p = (createProjectForTab env tab w).1 \/ In p (getAllProjects w).
Proof.
  unfold createProjectForTab. cbv zeta. cbn [fst snd].
  intros [->|[Hin _]]%In_putProject; [by left|by right].
Qed.

Lemma updateProjectCentroid_projects env project tab w p :
  centroidsNonneg project ->
  In p (getAllProjects (updateProjectCentroid env project tab w)) ->
  centroidsNonneg p \/ In p (getAllProjects w).
Proof.
  intros [Hc Hs] Hin. unfold updateProjectCentroid in Hin. cbv zeta in Hin.
  apply In_putProject in Hin as [->|[Hin _]]; [left|by right].
  split.
  - cbn [p_centroid]. apply updateCentroid_nonneg; [lra|exact Hc].
  - cbn [p_subprojects]. apply Forall_update_first; [|exact Hs].
    intros sp Hsp. cbn [sp_signature sig_tokenCentroid].
    apply updateCentroid_nonneg; [lra|exact Hsp].
Qed.

(** X22.  Non-negative centroid weights are an invariant of the store: if
    the centroid of every stored project and of every subproject has
    non-negative weights before a run of [assignTabToProject], so it has
    after the run, whichever branch the run takes. *)
Theorem assign_keeps_centroids_nonneg :
  forall (env : Env) (tab : TabMeta) (windowId : Z) (w : World),
    (forall p, In p (getAllProjects w) -> centroidsNonneg p) ->
    forall p, In p (getAllProjects (assignTabToProject env tab windowId w).2) ->
              centroidsNonneg p.
Proof.
  intros env tab windowId w Hinv p.
  assert (Hdefault : forall w0,
             db_projects w0 = db_projects w ->
             In p (getAllProjects (assignDefault env tab w0).2) -> centroidsNonneg p).
  { intros w0 Hw0 Hin.
    assert (Hin' : In p (getAllProjects (createProjectForTab env tab w0).2)) by exact Hin.
    apply createProjectForTab_projects in Hin' as [->|Hin'].
    - apply createProjectForTab_nonneg.
    - apply Hinv. unfold getAllProjects in *. by rewrite <- Hw0. }
  unfold assignTabToProject.
  destruct (t_manuallyAssigned tab) as [[|]|];
    destruct (Tokens.truthy (t_projectId tab)) as [projectId|];
    try (cbn [snd]; apply Hinv).
  all: destruct (length (getAllProjects w) =? 0)%nat;
    [by apply Hdefault|].
  all: unfold ContextTracker.updateContext; cbv zeta.
  all: destruct (getBestMatch _ _ _ _ _) as [bm|]; [|by apply Hdefault].
  all: destruct (bool_decide (score bm > 0.5)); [|by apply Hdefault].
  all: cbn [snd].
  all: match goal with
       | |- context [getProject ?id ?W] =>
           destruct (getProject id W) as [project|] eqn:Hget;
           [|apply Hinv]
       end.
  all: intros Hin;
    apply updateProjectCentroid_projects in Hin as [Hok|Hin];
    [exact Hok|by apply Hinv|].
  all: apply getProject_In in Hget; by apply Hinv in Hget.
Qed.

Lemma assign_keeps_centroids_nonneg_witness :
  List.Forall centroidsNonneg
    (getAllProjects
       (assignTabToProject (Examples.envAt (Examples.minutes 60))
          Examples.githubTab 1 (Examples.worldWith Examples.hostProject)).2).
Proof.
  apply List.Forall_forall.
  apply (assign_keeps_centroids_nonneg (Examples.envAt (Examples.minutes 60))
           Examples.githubTab 1%Z (Examples.worldWith Examples.hostProject)).
  intros p [<-|[]]. split.
  - intros token x. cbn. by rewrite lookup_empty.
  - constructor.
Defined.
End CentroidInvariant.

(** ** The service worker *)

Section ServiceWorkerFacts.
Import Store Core ServiceWorker.
Local Open Scope string_scope.

Lemma updateTabActivity_other now tabId dwellTime w other :
  other <> tabId ->
  getTab other (updateTabActivity now tabId dwellTime w) = getTab other w.
Proof.
  intros Hne. unfold updateTabActivity.
  destruct (getTab tabId w) as [tab|] eqn:Hget; [|reflexivity]. cbv zeta.
  pose proof (getTab_found _ _ _ Hget) as Hid.
  rewrite (getTab_db_tabs _ _ (putTab (recordActivity now dwellTime tab) w))
    by reflexivity.
  apply getTab_putTab_other. cbn [t_tabId recordActivity]. congruence.
Qed.

Lemma assign_other_tabs env tab windowId w other :
  other <> t_tabId tab ->
  getTab other (assignTabToProject env tab windowId w).2 = getTab other w.
Proof.
  intros Hne. destruct (isManual_dec tab) as [[Hflag (pid & Hpid & Hnz)]|Hnm].
  - unfold assignTabToProject.
    by rewrite (manual_guard_take tab _ _ pid Hflag Hpid Hnz).
  - unfold assignTabToProject. rewrite manual_guard_skip by exact Hnm.
    destruct (length (getAllProjects w) =? 0)%nat.
    { by apply assignDefault_stores. }
    unfold ContextTracker.updateContext. cbv zeta.
    set (w1 := setContext windowId _ w).
    assert (Hdefault : getTab other (assignDefault env tab w1).2 = getTab other w).
    { destruct (assignDefault_stores env tab w1) as (_ & _ & _ & _ & _ & H).
      by rewrite H. }
    destruct (TabMatcher.getBestMatch _ _ _ _ _) as [bm|]; [|exact Hdefault].
    destruct (bool_decide _); [|exact Hdefault].
    cbn [snd].
    set (tab' := setAssignment tab (sr_projectId bm) (sr_subprojectId bm)).
    transitivity (getTab other (putTab tab' w1)).
    + apply getTab_db_tabs. by destruct (getProject _ _).
    + by rewrite (getTab_putTab_other other tab' w1).
Qed.

(** X23.  A tab that the user moved to a project stays there: after
    [move_tab_to_project] with a tab id other than 0 and a non-empty
    project id, the next activation of the tab, whatever page it shows by
    then, is answered with method [manual], confidence 1.0 and the project
    and subproject of the move. *)
Theorem moved_tab_stays_manual :
  forall (newURL : string -> option Url.UrlParts)
         (decodeURIComponent : string -> option string)
         (env : EventEnv) (action : UIAction) (tabId windowId : Z)
         (projectId url : string) (parsed : Url.ParsedUrl)
         (chromeTab : ChromeTab) (stored : TabMeta) (s : State),
    ua_action action = move_tab_to_project ->
    ua_tabId action = Some tabId -> tabId <> 0%Z ->
    ua_projectId action = Some projectId -> projectId <> "" ->
    getTab tabId (world s) = Some stored ->
    ct_id chromeTab = tabId ->
    ct_url chromeTab = Some url -> url <> "" ->
    JS.startsWith url "chrome://" = false ->
    Url.parseUrl newURL decodeURIComponent url = Some parsed ->
    (onActivated newURL decodeURIComponent env tabId windowId chromeTab
       {| world := handleUIAction action (world s);
          lastActivation := lastActivation s |}).2
    = Some {| ta_tabId := tabId;
              ta_projectId := projectId;
              ta_subprojectId := ua_subprojectId action;
              ta_confidence := 1.0;
              ta_method := MManual |}.
Proof.
  intros newURL decodeURIComponent env action tabId windowId projectId url
    parsed chromeTab stored s Hkind Htab Htab0 Hproj Hproj0 Hstored Hid Hurl
    Hurl0 Hchrome Hparse.
  pose proof (getTab_found _ _ _ Hstored) as Hsid.
  assert (Hmoved : handleUIAction action (world s)
                   = putTab (moveTab stored projectId (ua_subprojectId action))
                            (world s)).
  { unfold handleUIAction. rewrite Hkind, Htab, Hproj.
    destruct tabId; [done| |]; destruct projectId; try done;
      cbn [truthyZ Tokens.truthy]; by rewrite Hstored. }
  set (moved := moveTab stored projectId (ua_subprojectId action)) in *.
  unfold onActivated. cbv zeta. cbn [world lastActivation].
  set (w1 := match lastActivation s with
             | Some (lastTabId, timestamp) => _
             | None => _
             end).
  assert (Hw1 : getTab tabId w1 = Some moved).
  { assert (Hput : getTab tabId (handleUIAction action (world s)) = Some moved).
    { rewrite Hmoved, <- Hsid. exact (getTab_putTab_same moved (world s)). }
    unfold w1. destruct (lastActivation s) as [[lastTabId timestamp]|];
      [|exact Hput].
    destruct (Z.eqb_spec lastTabId tabId) as [Heq|Hne]; cbn [negb]; [exact Hput|].
    rewrite updateTabActivity_other by congruence. exact Hput. }
  assert (Hdefault : default "" (ct_url chromeTab) = url)
    by (by rewrite Hurl).
  assert (Htruthy : Tokens.truthy (ct_url chromeTab) = Some url)
    by (rewrite Hurl; by destruct url).
  rewrite Htruthy, Hchrome. unfold upsertTabMeta.
  rewrite Hdefault, Hparse, Hid, Hw1. cbv zeta.
  unfold assignTabToProject.
  cbn [t_manuallyAssigned t_projectId t_subprojectId t_tabId option_bind mbind
       moved moveTab].
  destruct projectId; [done|]. reflexivity.
Qed.

Lemma moved_tab_stays_manual_witness :
  (onActivated Examples.newURL0 Examples.decode0 (Examples.eventAt 0) 7 1
     Examples.chromeTab7
     {| world := handleUIAction (Examples.moveAction 7 "Q") Examples.worldWithTab;
        lastActivation := None |}).2
  = Some {| ta_tabId := 7;
            ta_projectId := "Q";
            ta_subprojectId := None;
            ta_confidence := 1.0;
            ta_method := MManual |}.
Proof.
  apply (moved_tab_stays_manual Examples.newURL0 Examples.decode0
           (Examples.eventAt 0) (Examples.moveAction 7 "Q") 7%Z 1%Z "Q"
           "https://github.com/org/repo"
           {| Url.pu_host := "github.com";
              Url.pu_pathTokens := ["org"; "repo"];
              Url.pu_queryKeys := [] |}
           Examples.chromeTab7
           (Examples.mkTab "github.com" [] (Some "P") None)
           {| world := Examples.worldWithTab; lastActivation := None |});
    try reflexivity; discriminate.
Defined.
End ServiceWorkerFacts.

(** ** Dwell time and project actions *)

Section ActionFacts.
Import Store Core ServiceWorker.
Local Open Scope string_scope.

Lemma upsertTabMeta_other newURL decodeURIComponent now chromeTab w tabMeta w'
    other :
  upsertTabMeta newURL decodeURIComponent now chromeTab w = Some (tabMeta, w') ->
  other <> ct_id chromeTab ->
  getTab other w' = getTab other w.
Proof.
  unfold upsertTabMeta. destruct (Url.parseUrl _ _ _) as [parsed|]; [|done].
  cbv zeta. intros [= <- <-] Hne.
  match goal with
  | |- getTab _ (tabMetaCache_set ?t _) = _ =>
      etrans; [apply (getTab_db_tabs _ _ (putTab t w)); reflexivity|];
      apply getTab_putTab_other; exact Hne
  end.
Qed.

(** X24.  Leaving a tab credits its dwell time: when the tab activated
    last is another one than the tab activated now, the stored record of
    the tab left has its [activeScore] raised by the time since its
    activation and its [lastActiveAt] set to the clock, and this whatever
    becomes of the tab activated now; the worker remembers the new tab
    with the time of the event. *)
Theorem activation_credits_dwell :
  forall (newURL : string -> option Url.UrlParts)
         (decodeURIComponent : string -> option string)
         (env : EventEnv) (tabId windowId lastTabId timestamp : Z)
         (chromeTab : ChromeTab) (left : TabMeta) (s : State),
    lastActivation s = Some (lastTabId, timestamp) ->
    lastTabId <> tabId ->
    ct_id chromeTab = tabId ->
    getTab lastTabId (world s) = Some left ->
    let s' := (onActivated newURL decodeURIComponent env tabId windowId
                 chromeTab s).1 in
    getTab lastTabId (world s')
    = Some (recordActivity (ev_now_activity env) (ev_now env - timestamp) left)
    /\ lastActivation s' = Some (tabId, ev_now env).
Proof.
  intros newURL decodeURIComponent env tabId windowId lastTabId timestamp
    chromeTab left s Hlast Hne Hid Hleft. cbv zeta.
  unfold onActivated. cbv zeta. rewrite Hlast.
  destruct (Z.eqb_spec lastTabId tabId) as [|_]; [done|]. cbn [negb].
  set (w1 := updateTabActivity _ _ _ _).
  assert (Hw1 : getTab lastTabId w1
                = Some (recordActivity (ev_now_activity env)
                          (ev_now env - timestamp) left)).
  { unfold w1, updateTabActivity. rewrite Hleft. cbv zeta.
    pose proof (getTab_found _ _ _ Hleft) as Hk.
    etrans; [apply (getTab_db_tabs _ _ (putTab (recordActivity
      (ev_now_activity env) (ev_now env - timestamp) left) (world s)));
      reflexivity|].
    rewrite <- Hk at 1. exact (getTab_putTab_same _ _). }
  destruct (Tokens.truthy (ct_url chromeTab)) as [url|]; [|by split].
  destruct (JS.startsWith url "chrome://"); [by split|].
  destruct (upsertTabMeta _ _ _ _ _) as [[tabMeta w2]|] eqn:Hup; [|by split].
  assert (Hmeta : t_tabId tabMeta = tabId).
  { revert Hup. unfold upsertTabMeta.
    destruct (Url.parseUrl _ _ _); [|done]. cbv zeta. by intros [= <- _]. }
  pose proof (assign_other_tabs (ev_assign env) tabMeta windowId w2 lastTabId)
    as Hassign.
  destruct (assignTabToProject _ _ _ _) as [[assignment tab'] w3].
  cbn [fst snd world ServiceWorker.lastActivation] in *.
  split; [|reflexivity].
  rewrite Hassign by congruence.
  rewrite (upsertTabMeta_other _ _ _ _ _ _ _ lastTabId Hup) by congruence.
  exact Hw1.
Qed.

Lemma activation_credits_dwell_witness :
  let s' := (onActivated Examples.newURL0 Examples.decode0 (Examples.eventAt 500)
               8 1
               {| ct_id := 8; ct_windowId := 1;
                  ct_url := Some "https://github.com/org/repo";
                  ct_title := Some "repo"; ct_openerTabId := None |}
               {| world := Examples.worldWithTab;
                  lastActivation := Some (7%Z, 100%Z) |}).1 in
  getTab 7 (world s')
  = Some (recordActivity (ev_now_activity (Examples.eventAt 500))
            (ev_now (Examples.eventAt 500) - 100)
            (Examples.mkTab "github.com" [] (Some "P") None))
  /\ lastActivation s' = Some (8%Z, ev_now (Examples.eventAt 500)).
Proof.
  apply (activation_credits_dwell Examples.newURL0 Examples.decode0
           (Examples.eventAt 500) 8%Z 1%Z 7%Z 100%Z
           {| ct_id := 8; ct_windowId := 1;
                  ct_url := Some "https://github.com/org/repo";
                  ct_title := Some "repo"; ct_openerTabId := None |}
           (Examples.mkTab "github.com" [] (Some "P") None)
           {| world := Examples.worldWithTab;
              lastActivation := Some (7%Z, 100%Z) |});
    try reflexivity; discriminate.
Defined.
End ActionFacts.

(** ** Deleting a project, pinning, removing a tab *)

Section DeleteFacts.
Import Store Core ServiceWorker.
Local Open Scope string_scope.

Lemma foldl_unassign_fields (ts : list TabMeta) (w : World) :
  let w' := foldl (fun w tab => putTab (unassignTab tab) w) w ts in
  db_projects w' = db_projects w
  /\ activeContexts w' = activeContexts w
  /\ tabMetaCache_sets w' = tabMetaCache_sets w
  /\ projectCache_sets w' = projectCache_sets w.
Proof.
  cbv zeta. revert w. induction ts as [|t ts IH]; intros w; [done|].
  cbn [foldl]. destruct (IH (putTab (unassignTab t) w)) as (-> & -> & -> & ->).
  done.
Qed.

(** The loop of [delete_project] over records that are pairwise equal
    when their ids are: every id that occurs ends up with its record
    unassigned, every other id keeps what it had. *)
Lemma foldl_unassign_get (ts : list TabMeta) :
  (forall t1 t2, In t1 ts -> In t2 ts -> t_tabId t1 = t_tabId t2 -> t1 = t2) ->
  forall (w : World) (tabId : Z),
    getTab tabId (foldl (fun w tab => putTab (unassignTab tab) w) w ts)
    = match List.find (fun t => (t_tabId t =? tabId)%Z) ts with
      | Some t => Some (unassignTab t)
      | None => getTab tabId w
      end.
Proof.
  induction ts as [|t ts IH]; intros Huniq w tabId; [reflexivity|].
  cbn [foldl List.find]. rewrite IH.
  2:{ intros t1 t2 H1 H2. apply Huniq; by right. }
  destruct (Z.eqb_spec (t_tabId t) tabId) as [Heq|Hne].
  - destruct (List.find _ ts) as [t'|] eqn:Hfind.
    + apply find_some in Hfind as [Hin Hk%Z.eqb_eq].
      rewrite (Huniq t t'); [reflexivity|by left|by right|congruence].
    + rewrite <- Heq. exact (getTab_putTab_same (unassignTab t) w).
  - destruct (List.find _ ts) as [t'|]; [reflexivity|].
    apply getTab_putTab_other. cbn [unassignTab t_tabId]. congruence.
Qed.

Lemma unassignFrom_projectId projectId tab :
  t_projectId (unassignFrom projectId tab) <> Some projectId.
Proof.
  unfold unassignFrom.
  destruct (bool_decide (t_projectId tab = Some projectId)) eqn:H.
  - cbn [unassignTab t_projectId]. discriminate.
  - by apply bool_decide_eq_false in H.
Qed.

Lemma filter_nil {A} (f : A -> bool) (l : list A) :
  (forall x, In x l -> f x = false) -> List.filter f l = [].
Proof.
  induction l as [|y l IH]; [reflexivity|]. intros Hall. cbn [List.filter].
  rewrite (Hall y) by (by left). apply IH. intros x Hx. apply Hall. by right.
Qed.

(** X25.  Deleting a project leaves no reference to it: after
    [delete_project] the project cannot be looked up, every other project
    is looked up as before, each stored tab of the project has lost its
    project and subproject and nothing else (the mark of a manual
    assignment stays), every other tab is as it was, and no tab is listed
    for the project any more. *)
Theorem delete_project_unassigns :
  forall (action : UIAction) (projectId : string) (w : World),
    ua_action action = delete_project ->
    ua_projectId action = Some projectId -> projectId <> "" ->
    let w' := handleUIAction action w in
    getProject projectId w' = None
    /\ (forall other, other <> projectId ->
          getProject other w' = getProject other w)
    /\ (forall tabId,
          getTab tabId w' = unassignFrom projectId <$> getTab tabId w)
    /\ getTabsByProject projectId w' = [].
Proof.
  intros action projectId w Hkind Hproj Hne. cbv zeta.
  unfold handleUIAction. rewrite Hkind, Hproj.
  destruct projectId as [|c projectId]; [done|]. cbn [Tokens.truthy]. cbv zeta.
  set (P := String c projectId) in *. set (w0 := deleteProject P w).
  set (ts := getTabsByProject P w0).
  destruct (foldl_unassign_fields ts w0) as (Hprojects & _).
  cbv zeta in Hprojects.
  assert (Hts : forall t, In t ts <-> In t (getAllTabs w)
                                      /\ t_projectId t = Some P).
  { intros t. unfold ts, getTabsByProject, IDB.index_getAll.
    rewrite filter_In, bool_decide_eq_true. reflexivity. }
  assert (Huniq : forall t1 t2, In t1 ts -> In t2 ts ->
                                t_tabId t1 = t_tabId t2 -> t1 = t2).
  { intros t1 t2 [H1 _]%Hts [H2 _]%Hts Hk.
    apply In_getTab in H1, H2. rewrite Hk in H1. congruence. }
  assert (Htabs : forall tabId,
            getTab tabId (foldl (fun w tab => putTab (unassignTab tab) w) w0 ts)
            = unassignFrom P <$> getTab tabId w).
  { intros tabId. rewrite (foldl_unassign_get ts Huniq).
    change (getTab tabId w0) with (getTab tabId w).
    destruct (List.find _ ts) as [t|] eqn:Hfind.
    - apply find_some in Hfind as [[Hin Hp]%Hts Hk%Z.eqb_eq].
      apply In_getTab in Hin. rewrite Hk in Hin. rewrite Hin. cbn [fmap option_fmap option_map].
      unfold unassignFrom. by rewrite bool_decide_eq_true_2.
    - destruct (getTab tabId w) as [t|] eqn:Hget; [|reflexivity].
      cbn [fmap option_fmap option_map]. unfold unassignFrom.
      rewrite bool_decide_eq_false_2; [reflexivity|]. intros Hp.
      pose proof (getTab_found _ _ _ Hget) as Hk.
      assert (Hin : In t ts) by (apply Hts; split; [by apply (getTab_In tabId)|done]).
      pose proof (find_none _ _ Hfind t Hin) as Hno.
      apply Z.eqb_neq in Hno. contradiction. }
  split; [|split; [|split]].
  - unfold getProject. rewrite Hprojects.
    apply (get_delete_same p_projectId String.ltb).
  - intros other Hother. unfold getProject. rewrite Hprojects.
    by apply (get_delete_other p_projectId String.ltb).
  - exact Htabs.
  - unfold getTabsByProject, IDB.index_getAll. apply filter_nil.
    intros t Hin. apply bool_decide_eq_false.
    apply (In_getTab _ t) in Hin. rewrite Htabs in Hin.
    destruct (getTab (t_tabId t) w) as [t0|]; [|discriminate].
    injection Hin as <-. apply unassignFrom_projectId.
Qed.

Lemma delete_project_unassigns_witness :
  let w' := handleUIAction (Examples.projectAction delete_project "P")
              Examples.worldWithTab in
  getProject "P" w' = None
  /\ (forall other, other <> "P" ->
        getProject other w' = getProject other Examples.worldWithTab)
  /\ (forall tabId,
        getTab tabId w' = unassignFrom "P" <$> getTab tabId Examples.worldWithTab)
  /\ getTabsByProject "P" w' = [].
Proof.
  apply (delete_project_unassigns (Examples.projectAction delete_project "P")
           "P" Examples.worldWithTab); [reflexivity|reflexivity|discriminate].
Defined.

(** X26.  Pinning twice is pinning not at all: two [pin_project] actions
    for the same project leave the store as it was, whether the project
    exists or not. *)
Theorem pin_project_twice :
  forall (action : UIAction) (w : World),
    ua_action action = pin_project ->
    handleUIAction action (handleUIAction action w) = w.
Proof.
  intros action w Hkind. unfold handleUIAction. rewrite Hkind.
  destruct (Tokens.truthy (ua_projectId action)) as [projectId|]; [|reflexivity].
  destruct (getProject projectId w) as [project|] eqn:Hget.
  2:{ by rewrite Hget. }
  pose proof (getProject_found _ _ _ Hget) as Hid.
  set (pinned := editProject project _ _ _).
  assert (Hget' : getProject projectId (putProject pinned w) = Some pinned).
  { rewrite <- Hid. exact (getProject_putProject_same pinned w). }
  rewrite Hget'.
  assert (Hback : editProject pinned (p_name pinned) (negb (p_pinned pinned))
                    (p_locked pinned) = project).
  { unfold pinned. cbn [editProject p_name p_pinned p_locked].
    rewrite negb_involutive. by destruct project. }
  rewrite Hback. apply world_eq; try reflexivity.
  unfold putProject. cbn [db_projects].
  rewrite (put_put p_projectId String.ltb) by reflexivity.
  apply (put_get p_projectId String.ltb). rewrite Hid. exact Hget.
Qed.

Lemma pin_project_twice_witness :
  handleUIAction (Examples.projectAction pin_project "P")
    (handleUIAction (Examples.projectAction pin_project "P") Examples.worldWithTab)
  = Examples.worldWithTab.
Proof.
  apply (pin_project_twice (Examples.projectAction pin_project "P")
           Examples.worldWithTab).
  reflexivity.
Defined.

End DeleteFacts.

(** ** Tokens of a page, parsed addresses, tab records *)

Section PageFacts.
Import Store Core.
Local Open Scope string_scope.

Lemma extractTokens_long text token :
  In token (Tokens.extractTokens text) -> (2 < String.length token)%nat.
Proof.
  intros Hin. rewrite extractTokens_unfold in Hin.
  apply filter_In in Hin as [_ Hkeep].
  apply andb_true_iff in Hkeep as [Hlen _]. by apply Nat.ltb_lt.
Qed.

(** X28.  No short token reaches a centroid or a fingerprint: every token
    that [tokenize] returns, from the host, the path, the title, the
    heading or the description, is longer than two characters; and the
    [url] field of the input plays no part. *)
Theorem tokenize_tokens_long :
  forall (input : Tokens.TokenizeInput),
    (forall token, In token (Tokens.tokenize input) ->
                   (2 < String.length token)%nat)
    /\ (forall url,
          Tokens.tokenize
            {| Tokens.in_url := url;
               Tokens.in_title := Tokens.in_title input;
               Tokens.in_h1 := Tokens.in_h1 input;
               Tokens.in_meta := Tokens.in_meta input;
               Tokens.in_host := Tokens.in_host input;
               Tokens.in_pathTokens := Tokens.in_pathTokens input |}
          = Tokens.tokenize input).
Proof.
  intros input. split; [|reflexivity].
  intros token. unfold Tokens.tokenize. cbv zeta.
  assert (Hfield : forall (field : option string) (acc : list string),
            (In token acc -> (2 < String.length token)%nat) ->
            In token (match Tokens.truthy field with
                      | Some s => (acc ++ Tokens.extractTokens s)%list
                      | None => acc
                      end) ->
            (2 < String.length token)%nat).
  { intros field acc Hacc. destruct (Tokens.truthy field) as [s|]; [|exact Hacc].
    intros [H|H]%in_app_or; [by apply Hacc|by apply (extractTokens_long s)]. }
  apply Hfield. apply Hfield. apply Hfield.
  destruct (Tokens.in_pathTokens input) as [pathTokens|].
  - intros [H|H]%in_app_or.
    + revert H. destruct (Tokens.truthy (Tokens.in_host input)) as [host|];
        [|intros []].
      cbn [app]. intros [_ H]%filter_In. by apply Nat.ltb_lt.
    + apply in_flat_map in H as (s & _ & H). by apply (extractTokens_long s).
  - destruct (Tokens.truthy (Tokens.in_host input)) as [host|]; [|intros []].
    cbn [app]. intros [_ H]%filter_In. by apply Nat.ltb_lt.
Qed.

Lemma lower_char_idem c : JS.lower_char (JS.lower_char c) = JS.lower_char c.
Proof. destruct c as [[] [] [] [] [] [] [] []]; vm_compute; reflexivity. Qed.

Lemma toLowerCase_idem s : JS.toLowerCase (JS.toLowerCase s) = JS.toLowerCase s.
Proof.
  unfold JS.toLowerCase. induction s as [|c s IH]; [reflexivity|].
  cbn [JS.map_chars]. by rewrite lower_char_idem, IH.
Qed.

(** X29.  A parsed address has its path in lower case: when [parseUrl]
    succeeds, the host is the host name of the address, and the path
    tokens are the non-empty segments of the path, one token per segment
    and in order, each decoded and folded to lower case, so that folding a
    path token again changes nothing.  It fails exactly when the address
    is refused or a segment cannot be decoded. *)
Theorem parseUrl_path_lower_case :
  forall (newURL : string -> option Url.UrlParts)
         (decodeURIComponent : string -> option string)
         (url : string),
    match Url.parseUrl newURL decodeURIComponent url with
    | Some parsed =>
        exists parts,
          newURL url = Some parts
          /\ Url.pu_host parsed = Url.hostname parts
          /\ Url.pu_queryKeys parsed = Url.searchKeys parts
          /\ Forall2 (fun segment token =>
                        segment <> ""
                        /\ exists decoded,
                             decodeURIComponent segment = Some decoded
                             /\ token = JS.toLowerCase decoded)
               (List.filter (fun s => negb (String.eqb s ""))
                            (JS.split "/"%char (Url.pathname parts)))
               (Url.pu_pathTokens parsed)
          /\ Forall (fun token => JS.toLowerCase token = token)
                    (Url.pu_pathTokens parsed)
    | None =>
        newURL url = None
        \/ exists parts segment,
             newURL url = Some parts
             /\ In segment (JS.split "/"%char (Url.pathname parts))
             /\ segment <> ""
             /\ decodeURIComponent segment = None
    end.
Proof.
  intros newURL decodeURIComponent url. unfold Url.parseUrl.
  destruct (newURL url) as [parts|]; [|by left]. cbv zeta.
  set (segments := List.filter _ _).
  assert (Hseg : forall s, In s segments ->
            In s (JS.split "/"%char (Url.pathname parts)) /\ s <> "").
  { intros s [Hin Hs]%filter_In. split; [exact Hin|].
    apply negb_true_iff in Hs. by apply String.eqb_neq in Hs. }
  destruct (mapM _ segments) as [pathTokens|] eqn:Hmap.
  - exists parts. cbn [Url.pu_host Url.pu_queryKeys Url.pu_pathTokens].
    repeat (split; [reflexivity|]). fold segments. clearbody segments.
    apply mapM_Some in Hmap. split.
    + clear -Hmap Hseg. induction Hmap as [|s t l k Hst Hlk IH]; constructor.
      * split; [apply Hseg; by left|].
        destruct (decodeURIComponent s) as [decoded|]; [|discriminate].
        exists decoded. split; [reflexivity|]. by injection Hst as <-.
      * apply IH. intros s' Hs'. apply Hseg. by right.
    + clear -Hmap. induction Hmap as [|s t l k Hst Hlk IH]; constructor; [|exact IH].
      destruct (decodeURIComponent s) as [decoded|]; [|discriminate].
      injection Hst as <-. apply toLowerCase_idem.
  - right. exists parts.
    apply mapM_None_1, Exists_exists in Hmap as (s & Hs & Hnone).
    apply list_elem_of_In, Hseg in Hs as [Hin Hne].
    exists s. repeat (split; [done|]).
    by destruct (decodeURIComponent s).
Qed.

(** X30.  A page load keeps what is known about the tab: when
    [upsertTabMeta] rewrites the record of a tab that is stored already,
    the new record carries the address, host and path of the page now
    shown, and keeps the project, the subproject, the mark of a manual
    assignment, the page signals and the active score of the old one; a
    tab seen for the first time is stored without a project, with the
    clock reading as creation time.  In both cases the record is stored
    under the id of the tab and no other tab and no project is touched. *)
Theorem upsertTabMeta_keeps_assignment :
  forall (newURL : string -> option Url.UrlParts)
         (decodeURIComponent : string -> option string)
         (now : Z) (chromeTab : ChromeTab) (w w' : World) (tabMeta : TabMeta),
    upsertTabMeta newURL decodeURIComponent now chromeTab w = Some (tabMeta, w') ->
    getTab (ct_id chromeTab) w' = Some tabMeta
    /\ (exists parsed,
          Url.parseUrl newURL decodeURIComponent (default "" (ct_url chromeTab))
          = Some parsed
          /\ t_host tabMeta = Url.pu_host parsed
          /\ t_pathTokens tabMeta = Url.pu_pathTokens parsed)
    /\ match getTab (ct_id chromeTab) w with
       | Some existing =>
           t_projectId tabMeta = t_projectId existing
           /\ t_subprojectId tabMeta = t_subprojectId existing
           /\ t_manuallyAssigned tabMeta = t_manuallyAssigned existing
           /\ t_pageSignals tabMeta = t_pageSignals existing
           /\ t_activeScore tabMeta = t_activeScore existing
       | None =>
           t_projectId tabMeta = None
           /\ t_subprojectId tabMeta = None
           /\ t_manuallyAssigned tabMeta = None
           /\ t_createdAt tabMeta = now
           /\ t_lastActiveAt tabMeta = now
           /\ t_activeScore tabMeta = 0%Z
       end
    /\ (forall other, other <> ct_id chromeTab -> getTab other w' = getTab other w)
    /\ db_projects w' = db_projects w.
Proof.
  intros newURL decodeURIComponent now chromeTab w w' tabMeta Hup.
  split; [|split; [|split; [|split]]].
  - revert Hup. unfold upsertTabMeta.
    destruct (Url.parseUrl _ _ _) as [parsed|]; [|done]. cbv zeta.
    intros [= <- <-].
    match goal with
    | |- getTab _ (tabMetaCache_set ?t _) = _ =>
        etrans; [apply (getTab_db_tabs _ _ (putTab t w)); reflexivity|];
        exact (getTab_putTab_same t w)
    end.
  - revert Hup. unfold upsertTabMeta.
    destruct (Url.parseUrl _ _ _) as [parsed|]; [|done]. cbv zeta.
    intros [= <- _]. by exists parsed.
  - revert Hup. unfold upsertTabMeta.
    destruct (Url.parseUrl _ _ _) as [parsed|]; [|done]. cbv zeta.
    intros [= <- _].
    destruct (getTab (ct_id chromeTab) w) as [existing|];
      cbn [t_projectId t_subprojectId t_manuallyAssigned t_pageSignals
           t_activeScore t_createdAt t_lastActiveAt mbind option_bind fmap
           option_fmap option_map orZ]; [|done].
    repeat (split; [reflexivity|]). by destruct (t_activeScore existing).
  - intros other Hne. by apply (upsertTabMeta_other _ _ _ _ _ _ _ _ Hup).
  - revert Hup. unfold upsertTabMeta.
    destruct (Url.parseUrl _ _ _) as [parsed|]; [|done]. cbv zeta.
    by intros [= _ <-].
Qed.

Lemma upsertTabMeta_keeps_assignment_witness :
  exists tabMeta w',
    upsertTabMeta Examples.newURL0 Examples.decode0 50 Examples.chromeTab7
      Examples.worldWithTab = Some (tabMeta, w')
    /\ getTab 7 w' = Some tabMeta
    /\ t_projectId tabMeta = Some "P".
Proof.
  eexists _, _. split; [reflexivity|].
  match goal with
  | |- getTab _ ?w' = Some ?t /\ _ =>
      destruct (upsertTabMeta_keeps_assignment Examples.newURL0 Examples.decode0
                  50 Examples.chromeTab7 Examples.worldWithTab w' t eq_refl)
        as (Hget & _ & Hold & _)
  end.
  split; [exact Hget|]. apply Hold.
Defined.
End PageFacts.
